(** * Cursor chat browser: extraction pipeline

    A shallow embedding of the extraction and normalisation pipeline
    ([src/utils/json_utils.py], [src/utils/file_utils.py],
    [src/core/db_utils.py], [src/extractor/cursor_data_extractor.py])
    and the properties its specification states about it.

    Python data is modelled by the type [value] below.  Strings are
    sequences of Unicode code points, as Python's [str]; dictionaries
    are association lists in insertion order with unique keys, as
    Python's [dict].  Numbers are Python [int]s: binary64 floats are
    outside the model.  A computation that can raise returns an
    [outcome]. *)

From Stdlib Require Import List ZArith NArith Bool String Ascii DecimalString Lia.
From Stdlib Require QArith.
From Stdlib Require Permutation.
Import ListNotations.

(* ================================================================= *)
(** ** Python values *)

Module Py.

(** A [str]: the list of its code points. *)
Definition pystr := list N.

(** The [str] of an ASCII literal. *)
Definition u (s : string) : pystr :=
  map N_of_ascii (list_ascii_of_string s).

Definition str_eqb (a b : pystr) : bool :=
  if list_eq_dec N.eq_dec a b then true else false.

#[warnings="-register-all"]
Inductive value : Type :=
| VNone
| VBool (b : bool)
| VInt (z : Z)
| VStr (s : pystr)
| VList (l : list value)
| VDict (d : list (pystr * value)).

Definition dict := list (pystr * value).

Inductive exn : Type :=
| TypeError
| AttributeError
| KeyError
| ValueError
| OSError
| RuntimeError
| RecursionError
| JSONDecodeError (msg : pystr).

Inductive outcome (A : Type) : Type :=
| Ret (a : A)
| Raise (e : exn).
Arguments Ret {A} a.
Arguments Raise {A} e.

Definition bind {A B} (m : outcome A) (k : A -> outcome B) : outcome B :=
  match m with
  | Ret a => k a
  | Raise e => Raise e
  end.

Notation "x <- m ;; k" := (bind m (fun x => k))
  (at level 61, m at next level, right associativity).

(** [bool(v)]. *)
Definition truthy (v : value) : bool :=
  match v with
  | VNone => false
  | VBool b => b
  | VInt z => negb (z =? 0)%Z
  | VStr s => match s with [] => false | _ => true end
  | VList l => match l with [] => false | _ => true end
  | VDict d => match d with [] => false | _ => true end
  end.

(** *** Dictionaries *)

Fixpoint dict_lookup (k : pystr) (d : dict) : option value :=
  match d with
  | [] => None
  | (k', v) :: rest => if str_eqb k k' then Some v else dict_lookup k rest
  end.

(** [k in d]. *)
Definition dict_has (k : pystr) (d : dict) : bool :=
  match dict_lookup k d with Some _ => true | None => false end.

(** [d.get(k, default)]. *)
Definition dict_get_default (k : pystr) (default : value) (d : dict) : value :=
  match dict_lookup k d with Some v => v | None => default end.

(** [d.get(k)]. *)
Definition dict_get (k : pystr) (d : dict) : value :=
  dict_get_default k VNone d.

(** [d[k] = v]: an existing key keeps its position, a new one goes last. *)
Fixpoint dict_set (k : pystr) (v : value) (d : dict) : dict :=
  match d with
  | [] => [(k, v)]
  | (k', v') :: rest =>
      if str_eqb k k' then (k', v) :: rest else (k', v') :: dict_set k v rest
  end.

(** [x.get]: only a [dict] has the method. *)
Definition as_dict (v : value) : outcome dict :=
  match v with
  | VDict d => Ret d
  | _ => Raise AttributeError
  end.

(** [for x in v]: a list yields its items, a [str] its characters, a
    [dict] its keys; nothing else is iterable. *)
Definition py_iter (v : value) : outcome (list value) :=
  match v with
  | VList l => Ret l
  | VStr s => Ret (map (fun c => VStr [c]) s)
  | VDict d => Ret (map (fun kv => VStr (fst kv)) d)
  | _ => Raise TypeError
  end.

(** *** Hashing and equality of set members

    Members of a [set] are compared with [==] on hashable values.  A
    [key] is the class of a hashable value under [==]: [True == 1] and
    [False == 0], so a [bool] and an [int] share the numeric class. *)

Inductive key : Type :=
| KNone
| KNum (z : Z)
| KStr (s : pystr).

Definition key_eq_dec (a b : key) : {a = b} + {a <> b}.
Proof.
  decide equality.
  - apply Z.eq_dec.
  - apply (list_eq_dec N.eq_dec).
Defined.

Definition key_eqb (a b : key) : bool :=
  if key_eq_dec a b then true else false.

(** [hash(v)]: a list or a dict is unhashable. *)
Definition py_hash (v : value) : outcome key :=
  match v with
  | VNone => Ret KNone
  | VBool b => Ret (KNum (if b then 1 else 0))
  | VInt z => Ret (KNum z)
  | VStr s => Ret (KStr s)
  | VList _ | VDict _ => Raise TypeError
  end.

(** [k in seen] for a set kept as the list of its members. *)
Definition set_mem (k : key) (seen : list key) : bool :=
  existsb (key_eqb k) seen.

(** [a == b] against an [int] or [str] constant. *)
Definition py_eq_int (v : value) (n : Z) : bool :=
  match v with
  | VInt z => (z =? n)%Z
  | VBool b => ((if b then 1 else 0) =? n)%Z
  | _ => false
  end.

Definition py_eq_str (v : value) (s : pystr) : bool :=
  match v with
  | VStr t => str_eqb t s
  | _ => false
  end.

End Py.

Import Py.

(* ================================================================= *)
(** ** [src/utils/file_utils.py]: [remove_duplicates] *)

Module Dedup.

(** The state of one deduplication loop: the records kept so far, in
    order, and the set of ids seen. *)
Definition loop_state := (list value * list key)%type.

(** One iteration of
    [for chat in ...: chat_id = chat.get("id"); if chat_id and chat_id
    not in seen: unique.append(chat); seen.add(chat_id)]. *)
Definition dedup_step (st : loop_state) (chat : value) : outcome loop_state :=
  let '(unique, seen) := st in
  d <- as_dict chat ;;
  let chat_id := dict_get (u "id") d in
  if truthy chat_id then
    k <- py_hash chat_id ;;
    if set_mem k seen then Ret (unique, seen)
    else Ret (unique ++ [chat], k :: seen)
  else Ret (unique, seen).

Fixpoint dedup_loop (st : loop_state) (items : list value) : outcome loop_state :=
  match items with
  | [] => Ret st
  | chat :: rest => st' <- dedup_step st chat ;; dedup_loop st' rest
  end.

(** The loop over [data.get(field, [])] from empty [unique] and [seen]. *)
Definition unique_records (field : pystr) (data : dict) : outcome (list value) :=
  items <- py_iter (dict_get_default field (VList []) data) ;;
  st <- dedup_loop ([], []) items ;;
  Ret (fst st).

Definition remove_duplicates (data : value) : outcome value :=
  d <- as_dict data ;;
  unique_chats <- unique_records (u "chats") d ;;
  let d1 := dict_set (u "chats") (VList unique_chats) d in
  unique_composers <- unique_records (u "composers") d1 ;;
  let d2 := dict_set (u "composers") (VList unique_composers) d1 in
  Ret (VDict d2).

End Dedup.

(** *** Vocabulary for the deduplication properties *)

Module DedupSpec.

(** The id of a record as a set member, empty or not; [None] for
    something that is no record or whose id is unhashable. *)
Definition record_key (r : value) : option key :=
  match r with
  | VDict d =>
      match py_hash (dict_get (u "id") d) with
      | Ret k => Some k
      | Raise _ => None
      end
  | _ => None
  end.

(** A non-empty id: the class of a value that [bool] maps to [True]. *)
Definition nonempty_key (k : key) : bool :=
  match k with
  | KNone => false
  | KNum z => negb (z =? 0)%Z
  | KStr s => match s with [] => false | _ => true end
  end.

(** The non-empty id of a record, if it has one. *)
Definition item_key (r : value) : option key :=
  match record_key r with
  | Some k => if nonempty_key k then Some k else None
  | None => None
  end.

Definition has_key (k : key) (r : value) : bool :=
  match record_key r with
  | Some k' => key_eqb k k'
  | None => false
  end.

(** Number of records carrying the id [k]. *)
Definition count_id (k : key) (rs : list value) : nat :=
  List.length (filter (has_key k) rs).

(** The first record carrying the id [k]. *)
Definition first_with (k : key) (rs : list value) : option value :=
  find (has_key k) rs.

(** The records of [items] that open a new non-empty id, given the
    ids already [seen]: what the loop is expected to keep. *)
Fixpoint keep_first (seen : list key) (items : list value) : list value :=
  match items with
  | [] => []
  | x :: rest =>
      match item_key x with
      | Some k =>
          if set_mem k seen then keep_first seen rest
          else x :: keep_first (k :: seen) rest
      | None => keep_first seen rest
      end
  end.

(** The iteration of the loop over [r] does not raise: [r] is a dict
    whose id is empty or hashable. *)
Definition record_ok (r : value) : bool :=
  match r with
  | VDict d =>
      let i := dict_get (u "id") d in
      negb (truthy i) ||
      match py_hash i with Ret _ => true | Raise _ => false end
  | _ => false
  end.

(** The collection under [field] is absent or a list of such records. *)
Definition field_ok (field : pystr) (d : dict) : bool :=
  match dict_lookup field d with
  | None => true
  | Some (VList rs) => forallb record_ok rs
  | Some _ => false
  end.

(** An extraction result [remove_duplicates] runs through. *)
Definition well_formed (data : value) : bool :=
  match data with
  | VDict d => field_ok (u "chats") d && field_ok (u "composers") d
  | _ => false
  end.

(** The records under [field], as the loop reads them. *)
Definition records (field : pystr) (data : value) : list value :=
  match data with
  | VDict d =>
      match dict_get_default field (VList []) d with
      | VList rs => rs
      | _ => []
      end
  | _ => []
  end.

(** [xs] is [ys] with some items left out, order kept. *)
Inductive subseq : list value -> list value -> Prop :=
| subseq_nil : subseq [] []
| subseq_skip x xs ys : subseq xs ys -> subseq xs (x :: ys)
| subseq_keep x xs ys : subseq xs ys -> subseq (x :: xs) (x :: ys).

(** The property as the specification words it, ids empty or not:
    every id that occurs among the input records is carried by
    exactly one output record. *)
Definition one_survivor_per_id (input output : list value) : Prop :=
  forall r k, In r input -> record_key r = Some k -> count_id k output = 1.

End DedupSpec.

(* ================================================================= *)
(** ** The strict decoder: Python's [json.loads]

    [safe_parse_json] is stated over any strict decoder.  The decoder
    below follows CPython's [json] package (the C scanner, messages
    as up to version 3.12) and serves as the instance on which concrete
    documents are evaluated.  A number with a fraction or an exponent
    and the constants [NaN], [Infinity] and [-Infinity] go to the hooks
    [parse_float] and [parse_constant] of [json.loads], whose default
    is [float].  Nesting deeper than the interpreter's recursion limit
    raises [RecursionError]. *)

Module Json.

Record hooks : Type := {
  parse_float : pystr -> value;
  parse_constant : pystr -> value;
  recursion_limit : nat
}.

Inductive scan (A : Type) : Type :=
| Scanned (a : A) (rest : pystr) (pos : N)
| Expecting (msg : string) (pos : N)
| TooDeep.
Arguments Scanned {A} a rest pos.
Arguments Expecting {A} msg pos.
Arguments TooDeep {A}.

Definition QUOTE : N := 34.
Definition BACKSLASH : N := 92.
Definition COMMA : N := 44.
Definition COLON : N := 58.
Definition LBRACE : N := 123.
Definition RBRACE : N := 125.
Definition LBRACK : N := 91.
Definition RBRACK : N := 93.
Definition MINUS : N := 45.
Definition PLUS : N := 43.
Definition DOT : N := 46.

(** A [str] literal in double quotes. *)
Definition quoted (s : pystr) : pystr := QUOTE :: s ++ [QUOTE].

Definition is_json_ws (c : N) : bool :=
  ((c =? 32) || (c =? 9) || (c =? 10) || (c =? 13))%N.

Definition is_ascii_digit (c : N) : bool := ((48 <=? c) && (c <=? 57))%N.

Fixpoint skip_ws (s : pystr) (pos : N) : pystr * N :=
  match s with
  | c :: r => if is_json_ws c then skip_ws r (pos + 1)%N else (s, pos)
  | [] => (s, pos)
  end.

Fixpoint starts_with (p s : pystr) : option pystr :=
  match p, s with
  | [], _ => Some s
  | a :: p', b :: s' => if (a =? b)%N then starts_with p' s' else None
  | _ :: _, [] => None
  end.

(** *** String literals ([scanstring], strict) *)

Definition hex_digit (c : N) : option N :=
  if is_ascii_digit c then Some (c - 48)%N
  else if ((97 <=? c) && (c <=? 102))%N then Some (c - 87)%N
  else if ((65 <=? c) && (c <=? 70))%N then Some (c - 55)%N
  else None.

Definition hex4 (s : pystr) : option (N * pystr) :=
  match s with
  | a :: b :: c :: d :: r =>
      match hex_digit a, hex_digit b, hex_digit c, hex_digit d with
      | Some x, Some y, Some z, Some w =>
          Some ((((x * 16 + y) * 16 + z) * 16 + w)%N, r)
      | _, _, _, _ => None
      end
  | _ => None
  end.

Definition is_high_surrogate (c : N) : bool := ((55296 <=? c) && (c <=? 56319))%N.
Definition is_low_surrogate (c : N) : bool := ((56320 <=? c) && (c <=? 57343))%N.
Definition join_surrogates (hi lo : N) : N :=
  (65536 + (N.land hi 1023 * 1024 + N.land lo 1023))%N.

Definition simple_escape (c : N) : option N :=
  if ((c =? QUOTE) || (c =? BACKSLASH) || (c =? 47))%N then Some c
  else if (c =? 98)%N then Some 8%N
  else if (c =? 102)%N then Some 12%N
  else if (c =? 110)%N then Some 10%N
  else if (c =? 114)%N then Some 13%N
  else if (c =? 116)%N then Some 9%N
  else None.

(** [s] follows the opening quote, which sits at index [start]; [pos]
    is the index of the head of [s].  [fuel] bounds the iterations and
    is at least the length of [s]. *)
Fixpoint scanstring (fuel : nat) (s : pystr) (pos start : N) (acc : pystr)
  : scan pystr :=
  match fuel with
  | O => Expecting "Unterminated string starting at" start
  | S fuel' =>
    match s with
    | [] => Expecting "Unterminated string starting at" start
    | c :: r =>
      if (c =? QUOTE)%N then Scanned (rev acc) r (pos + 1)%N
      else if (c =? BACKSLASH)%N then
        match r with
        | [] => Expecting "Unterminated string starting at" start
        | e :: r2 =>
          if (e =? 117)%N then
            if (List.length r2 <? 5)%nat
            then Expecting "Invalid \uXXXX escape" (pos + 1)%N
            else
              match hex4 r2 with
              | None => Expecting "Invalid \uXXXX escape" (pos + 1)%N
              | Some (cp, r3) =>
                if is_high_surrogate cp && (6 <? List.length r3)%nat then
                  match r3 with
                  | b1 :: b2 :: r4 =>
                    if ((b1 =? BACKSLASH) && (b2 =? 117))%N then
                      match hex4 r4 with
                      | None => Expecting "Invalid \uXXXX escape" (pos + 7)%N
                      | Some (c2, r5) =>
                        if is_low_surrogate c2
                        then scanstring fuel' r5 (pos + 12)%N start
                               (join_surrogates cp c2 :: acc)
                        else scanstring fuel' r3 (pos + 6)%N start (cp :: acc)
                      end
                    else scanstring fuel' r3 (pos + 6)%N start (cp :: acc)
                  | _ => scanstring fuel' r3 (pos + 6)%N start (cp :: acc)
                  end
                else scanstring fuel' r3 (pos + 6)%N start (cp :: acc)
              end
          else
            match simple_escape e with
            | Some ch => scanstring fuel' r2 (pos + 2)%N start (ch :: acc)
            | None => Expecting "Invalid \escape" pos
            end
        end
      else if (c <=? 31)%N then Expecting "Invalid control character at" pos
      else scanstring fuel' r (pos + 1)%N start (c :: acc)
    end
  end.

(** *** Numbers ([_match_number_unicode]) *)

Fixpoint take_digits (s : pystr) : pystr * pystr :=
  match s with
  | c :: r =>
      if is_ascii_digit c
      then let '(ds, r') := take_digits r in (c :: ds, r')
      else ([], s)
  | [] => ([], [])
  end.

Definition int_of_digits (ds : pystr) : Z :=
  fold_left (fun acc c => (acc * 10 + Z.of_N (c - 48))%Z) ds 0%Z.

(** The integer part, an optional minus and then 0 or a digit string
    not starting with 0: the literal and what follows. *)
Definition match_integer (s : pystr) : option (pystr * pystr) :=
  let '(sign, s1) :=
    match s with
    | c :: r => if (c =? MINUS)%N then ([MINUS], r) else ([], s)
    | [] => ([], s)
    end in
  match s1 with
  | c :: r =>
      if ((49 <=? c) && (c <=? 57))%N then
        let '(ds, r') := take_digits r in Some (sign ++ c :: ds, r')
      else if (c =? 48)%N then Some (sign ++ [c], r)
      else None
  | [] => None
  end.

(** The fraction, a dot and digits, if there is one. *)
Definition match_fraction (s : pystr) : pystr * pystr :=
  match s with
  | c :: d :: r =>
      if ((c =? DOT) && is_ascii_digit d)%N
      then let '(ds, r') := take_digits r in (c :: d :: ds, r')
      else ([], s)
  | _ => ([], s)
  end.

(** The exponent, e or E, an optional sign and digits, if there is one. *)
Definition match_exponent (s : pystr) : pystr * pystr :=
  match s with
  | e :: r =>
      if ((e =? 101) || (e =? 69))%N then
        let '(sign, r1) :=
          match r with
          | g :: (_ :: _) as r' =>
              if ((g =? MINUS) || (g =? PLUS))%N then ([g], r') else ([], r)
          | _ => ([], r)
          end in
        match take_digits r1 with
        | ([], _) => ([], s)
        | (ds, r2) => (e :: sign ++ ds, r2)
        end
      else ([], s)
  | [] => ([], s)
  end.

Definition int_of_literal (lit : pystr) : Z :=
  match lit with
  | c :: ds => if (c =? MINUS)%N then (- int_of_digits ds)%Z
               else int_of_digits lit
  | [] => 0%Z
  end.

Definition match_number (h : hooks) (s : pystr) (pos : N) : scan value :=
  match match_integer s with
  | None => Expecting "Expecting value" pos
  | Some (int, r) =>
      let '(frac, r1) := match_fraction r in
      let '(exp, r2) := match_exponent r1 in
      let lit := int ++ frac ++ exp in
      let pos' := (pos + N.of_nat (List.length lit))%N in
      match frac ++ exp with
      | [] => Scanned (VInt (int_of_literal int)) r2 pos'
      | _ => Scanned (parse_float h lit) r2 pos'
      end
  end.

(** *** Terms ([scan_once]) *)

Definition literal (h : hooks) (word : string) (v : value) (s : pystr) (pos : N)
  : scan value :=
  match starts_with (u word) s with
  | Some r => Scanned v r (pos + N.of_nat (String.length word))%N
  | None => match_number h s pos
  end.

Definition constant (h : hooks) (word : string) (s : pystr) (pos : N)
  : scan value :=
  literal h word (parse_constant h (u word)) s pos.

Fixpoint scan_once (h : hooks) (depth : nat) (s : pystr) (pos : N) {struct depth}
  : scan value :=
  match s with
  | [] => Expecting "Expecting value" pos
  | c :: r =>
    if (c =? QUOTE)%N then
      match scanstring (List.length r) r (pos + 1)%N pos [] with
      | Scanned str r' p' => Scanned (VStr str) r' p'
      | Expecting m p => Expecting m p
      | TooDeep => TooDeep
      end
    else if (c =? LBRACE)%N then
      match depth with
      | O => TooDeep
      | S d =>
        let members :=
          fix members (fuel : nat) (s : pystr) (pos : N) (acc : dict) : scan value :=
            match fuel with
            | O => Expecting "Expecting property name enclosed in double quotes" pos
            | S fuel' =>
              match s with
              | k :: r1 =>
                if (k =? QUOTE)%N then
                  match scanstring (List.length r1) r1 (pos + 1)%N pos [] with
                  | Scanned key r2 p2 =>
                    let '(r3, p3) := skip_ws r2 p2 in
                    match r3 with
                    | col :: r4 =>
                      if (col =? COLON)%N then
                        let '(r5, p5) := skip_ws r4 (p3 + 1)%N in
                        match scan_once h d r5 p5 with
                        | Scanned v r6 p6 =>
                          let acc' := dict_set key v acc in
                          let '(r7, p7) := skip_ws r6 p6 in
                          match r7 with
                          | t :: r8 =>
                            if (t =? RBRACE)%N then Scanned (VDict acc') r8 (p7 + 1)%N
                            else if (t =? COMMA)%N then
                              let '(r9, p9) := skip_ws r8 (p7 + 1)%N in
                              members fuel' r9 p9 acc'
                            else Expecting "Expecting ',' delimiter" p7
                          | [] => Expecting "Expecting ',' delimiter" p7
                          end
                        | Expecting m p => Expecting m p
                        | TooDeep => TooDeep
                        end
                      else Expecting "Expecting ':' delimiter" p3
                    | [] => Expecting "Expecting ':' delimiter" p3
                    end
                  | Expecting m p => Expecting m p
                  | TooDeep => TooDeep
                  end
                else Expecting "Expecting property name enclosed in double quotes" pos
              | [] => Expecting "Expecting property name enclosed in double quotes" pos
              end
            end in
        let '(r1, p1) := skip_ws r (pos + 1)%N in
        match r1 with
        | t :: r2 =>
            if (t =? RBRACE)%N then Scanned (VDict []) r2 (p1 + 1)%N
            else members (List.length r1) r1 p1 []
        | [] => members (List.length r1) r1 p1 []
        end
      end
    else if (c =? LBRACK)%N then
      match depth with
      | O => TooDeep
      | S d =>
        let items :=
          fix items (fuel : nat) (s : pystr) (pos : N) (acc : list value) : scan value :=
            match fuel with
            | O => Expecting "Expecting value" pos
            | S fuel' =>
              match scan_once h d s pos with
              | Scanned v r1 p1 =>
                let '(r2, p2) := skip_ws r1 p1 in
                match r2 with
                | t :: r3 =>
                  if (t =? RBRACK)%N then Scanned (VList (rev (v :: acc))) r3 (p2 + 1)%N
                  else if (t =? COMMA)%N then
                    let '(r4, p4) := skip_ws r3 (p2 + 1)%N in
                    items fuel' r4 p4 (v :: acc)
                  else Expecting "Expecting ',' delimiter" p2
                | [] => Expecting "Expecting ',' delimiter" p2
                end
              | Expecting m p => Expecting m p
              | TooDeep => TooDeep
              end
            end in
        let '(r1, p1) := skip_ws r (pos + 1)%N in
        match r1 with
        | t :: r2 =>
            if (t =? RBRACK)%N then Scanned (VList []) r2 (p1 + 1)%N
            else items (List.length r1) r1 p1 []
        | [] => items (List.length r1) r1 p1 []
        end
      end
    else if (c =? 110)%N then literal h "null" VNone s pos
    else if (c =? 116)%N then literal h "true" (VBool true) s pos
    else if (c =? 102)%N then literal h "false" (VBool false) s pos
    else if (c =? 78)%N then constant h "NaN" s pos
    else if (c =? 73)%N then constant h "Infinity" s pos
    else if (c =? MINUS)%N then constant h "-Infinity" s pos
    else match_number h s pos
  end.

(** *** Messages ([JSONDecodeError.__str__]) *)

Definition decimal (n : N) : pystr :=
  u (NilZero.string_of_uint (N.to_uint n)).

(** Line and column, both from 1, of the index [pos] of [doc]. *)
Fixpoint line_col (doc : pystr) (pos : nat) (line col : N) : N * N :=
  match pos, doc with
  | S pos', c :: r =>
      if (c =? 10)%N then line_col r pos' (line + 1)%N 1%N
      else line_col r pos' line (col + 1)%N
  | _, _ => (line, col)
  end.

Definition errmsg (msg : string) (doc : pystr) (pos : N) : pystr :=
  let '(line, col) := line_col doc (N.to_nat pos) 1%N 1%N in
  u msg ++ u ": line " ++ decimal line ++ u " column " ++ decimal col
    ++ u " (char " ++ decimal pos ++ u ")".

(** *** [json.loads] on a [str] *)

Definition loads (h : hooks) (s : pystr) : outcome value :=
  match s with
  | 65279%N :: _ =>
      Raise (JSONDecodeError
               (errmsg "Unexpected UTF-8 BOM (decode using utf-8-sig)" s 0))
  | _ =>
      let '(s1, p1) := skip_ws s 0%N in
      match scan_once h (recursion_limit h) s1 p1 with
      | Scanned v r p =>
          let '(r', p') := skip_ws r p in
          match r' with
          | [] => Ret v
          | _ :: _ => Raise (JSONDecodeError (errmsg "Extra data" s p'))
          end
      | Expecting m p => Raise (JSONDecodeError (errmsg m s p))
      | TooDeep => Raise RecursionError
      end
  end.

(** Hooks for documents of integers, strings and containers: a float
    literal or a constant is kept as its text. *)
Definition text_hooks : hooks :=
  {| parse_float := VStr; parse_constant := VStr; recursion_limit := 1000 |}.

End Json.

(* ================================================================= *)
(** ** [src/utils/json_utils.py] *)

Module JsonUtils.

(** What the pattern class [\s] matches in a [str]: the characters
    for which [str.isspace] holds. *)
Definition is_space (c : N) : bool :=
  (((9 <=? c) && (c <=? 13)) || ((28 <=? c) && (c <=? 32)) ||
   (c =? 133) || (c =? 160) || (c =? 5760) ||
   ((8192 <=? c) && (c <=? 8202)) || (c =? 8232) || (c =? 8233) ||
   (c =? 8239) || (c =? 8287) || (c =? 12288))%N.

(** A closing brace or bracket. *)
Definition is_closer (c : N) : bool :=
  ((c =? Json.RBRACE) || (c =? Json.RBRACK))%N.

(** The rest of the pattern after its comma, whitespace and then a
    closer, matched at the head of [s]: the closer (the group) and the
    number of characters matched. *)
Fixpoint match_ws_closer (s : pystr) : option (N * nat) :=
  match s with
  | c :: r =>
      if is_closer c then Some (c, 1%nat)
      else if is_space c then
        match match_ws_closer r with
        | Some (cl, n) => Some (cl, S n)
        | None => None
        end
      else None
  | [] => None
  end.

(** [re.sub] with the trailing-comma pattern and the group as the
    replacement: left to right, every match is replaced by its closer
    and the scan resumes after the match; [skip] counts the characters
    of the current match still to pass over. *)
Fixpoint sub_trailing_commas (skip : nat) (s : pystr) : pystr :=
  match s with
  | [] => []
  | c :: r =>
      match skip with
      | S k => sub_trailing_commas k r
      | O =>
          if (c =? Json.COMMA)%N then
            match match_ws_closer r with
            | Some (cl, n) => cl :: sub_trailing_commas n r
            | None => c :: sub_trailing_commas O r
            end
          else c :: sub_trailing_commas O r
      end
  end.

Definition strip_trailing_commas (s : pystr) : pystr :=
  sub_trailing_commas O s.

Definition startswith (c : N) (s : pystr) : bool :=
  match s with
  | c' :: _ => (c' =? c)%N
  | [] => false
  end.

Definition endswith (c : N) (s : pystr) : bool :=
  match rev s with
  | c' :: _ => (c' =? c)%N
  | [] => false
  end.

(** The message for an empty input. *)
Definition empty_message : pystr :=
  [31354; 12398]%N ++ u "JSON" ++ [12487; 12540; 12479]%N.

(** The prefix of the message for an input that cannot be repaired. *)
Definition error_prefix : pystr :=
  u "JSON" ++ [12497; 12540; 12473; 12456; 12521; 12540]%N ++ u ": ".

Section SafeParse.

(** The strict decoder [json.loads]. *)
Variable loads : pystr -> outcome value.

(** The result is the pair [(value, error)]. *)
Definition safe_parse_json (json_str : pystr) : outcome (value * value) :=
  if negb (truthy (VStr json_str)) then Ret (VNone, VStr empty_message)
  else
    match loads json_str with
    | Ret v => Ret (v, VNone)
    | Raise (JSONDecodeError e) =>
        let cleaned_str := strip_trailing_commas json_str in
        match loads cleaned_str with
        | Ret v => Ret (v, VNone)
        | Raise _ =>
            let cleaned_str :=
              if negb (startswith Json.LBRACE cleaned_str)
              then Json.LBRACE :: cleaned_str else cleaned_str in
            let cleaned_str :=
              if negb (endswith Json.RBRACE cleaned_str)
              then cleaned_str ++ [Json.RBRACE] else cleaned_str in
            match loads cleaned_str with
            | Ret v => Ret (v, VNone)
            | Raise _ => Ret (VNone, VStr (error_prefix ++ e))
            end
        end
    | Raise other => Raise other
    end.

End SafeParse.

(** The property of C5 as the specification words it, at one input:
    [with_comma] is [without_comma] with one comma added before a
    closer, and the tolerant parser returns for it what the strict
    decoder returns for [without_comma]. *)
Definition repairs_to_comma_free
  (loads : pystr -> outcome value) (with_comma without_comma : pystr) : Prop :=
  exists v, loads without_comma = Ret v /\
            safe_parse_json loads with_comma = Ret (v, VNone).

End JsonUtils.

(* ================================================================= *)
(** ** The platform

    What the code takes from the interpreter and the machine it runs
    on: the Unicode character tables behind the pattern classes [\w]
    and [\d], the local time zone and the C library's time functions,
    the clock, [repr], and whether a file can be written. *)

Module Platform.

Record env : Type := {
  (** [str.isalnum] on one character; with the underscore, class [\w]. *)
  unicode_alnum : N -> bool;
  (** Unicode category Nd, class [\d]. *)
  unicode_decimal : N -> bool;
  (** Offset of local time from UTC, in seconds, at a UTC instant. *)
  utc_offset : Z -> Z;
  (** The C library's [localtime] converts this instant; on Windows it
      refuses negative ones. *)
  localtime_ok : Z -> bool;
  (** The platform is Windows. *)
  windows : bool;
  (** The C library's [strftime] pads a year below 1000 to four
      digits; glibc does not. *)
  pads_year : bool;
  (** [time.time()], in whole seconds. *)
  now : Z;
  (** [repr] of a list or a dict. *)
  repr : value -> pystr;
  (** [os.makedirs] of the output directory succeeds. *)
  makedirs_ok : bool;
  (** The output directory exists afterwards. *)
  dir_exists : bool;
  (** Opening the named file for writing and dumping into it succeeds. *)
  can_write : pystr -> bool;
  (** [os.sep]. *)
  sep : N
}.

End Platform.

(* ================================================================= *)
(** ** [datetime]: local time and [strftime] *)

Module PyTime.

Import Platform.

Record datetime : Type := {
  year : Z; month : Z; day : Z; hour : Z; minute : Z; second : Z
}.

(** The proleptic Gregorian date of a day number counted from
    1970-01-01. *)
Definition civil_from_days (z : Z) : Z * Z * Z :=
  let z := (z + 719468)%Z in
  let era := (z / 146097)%Z in
  let doe := (z - era * 146097)%Z in
  let yoe := ((doe - doe / 1460 + doe / 36524 - doe / 146096) / 365)%Z in
  let doy := (doe - (365 * yoe + yoe / 4 - yoe / 100))%Z in
  let mp := ((5 * doy + 2) / 153)%Z in
  let d := (doy - (153 * mp + 2) / 5 + 1)%Z in
  let m := (if mp <? 10 then mp + 3 else mp - 9)%Z in
  let y := (yoe + era * 400 + (if m <=? 2 then 1 else 0))%Z in
  (y, m, d).

Definition of_seconds (t : Z) : datetime :=
  let '(y, m, d) := civil_from_days (t / 86400) in
  let sod := (t mod 86400)%Z in
  {| year := y; month := m; day := d;
     hour := sod / 3600; minute := (sod / 60) mod 60; second := sod mod 60 |}.

(** The local date and time at a UTC instant. *)
Definition local_datetime (E : env) (t : Z) : datetime :=
  of_seconds (t + utc_offset E t).

(** The year lies in [MINYEAR..MAXYEAR]. *)
Definition in_year_range (dt : datetime) : bool :=
  ((1 <=? year dt) && (year dt <=? 9999))%Z.

(** The conversion of one instant: [localtime], then the check of
    the year. *)
Definition local (E : env) (t : Z) : outcome datetime :=
  if negb (localtime_ok E t) then Raise OSError
  else if negb (in_year_range (local_datetime E t)) then Raise ValueError
  else Ret (local_datetime E t).

Definition max_fold_seconds : Z := 86400.

(** [datetime.fromtimestamp(secs)] in local time.  After the
    conversion of [secs] itself, the search for a repeated hour
    converts the instant one day before, and when the offset from UTC
    dropped in between, a third instant; these probes can fail as
    well.  Windows skips them on the first day after the epoch. *)
Definition fromtimestamp (E : env) (secs : Z) : outcome datetime :=
  dt <- local E secs ;;
  if windows E && (secs - max_fold_seconds <=? 0)%Z then Ret dt
  else
    _ <- local E (secs - max_fold_seconds) ;;
    let transition :=
      (utc_offset E secs - utc_offset E (secs - max_fold_seconds))%Z in
    if (transition <? 0)%Z then
      _ <- local E (secs + transition) ;; Ret dt
    else Ret dt.

Definition digit (n : Z) : N := (48 + Z.to_N (n mod 10))%N.

(** Zero-padded fields of two and four digits. *)
Definition pad2 (n : Z) : pystr := [digit (n / 10); digit n].
Definition pad4 (n : Z) : pystr :=
  [digit (n / 1000); digit (n / 100); digit (n / 10); digit n].

(** The field [%Y], for a year in range. *)
Definition format_year (E : env) (y : Z) : pystr :=
  if pads_year E || (1000 <=? y)%Z then pad4 y
  else if (y <? 10)%Z then [digit y]
  else if (y <? 100)%Z then [digit (y / 10); digit y]
  else [digit (y / 100); digit (y / 10); digit y].

(** [strftime] with the format of [format_time]: year-month-day,
    a space, hour:minute:second. *)
Definition strftime_full (E : env) (dt : datetime) : pystr :=
  format_year E (year dt) ++ u "-" ++ pad2 (month dt) ++ u "-" ++ pad2 (day dt)
    ++ u " " ++ pad2 (hour dt) ++ u ":" ++ pad2 (minute dt)
    ++ u ":" ++ pad2 (second dt).

(** [strftime] with year, month and day run together. *)
Definition strftime_ymd (E : env) (dt : datetime) : pystr :=
  format_year E (year dt) ++ pad2 (month dt) ++ pad2 (day dt).

(** The day number of a date, by the rules of the Gregorian
    calendar: 365 days a year, a leap day every fourth year except
    the centuries not divisible by 400, the months counted from
    March.  The reference against which [civil_from_days] is
    checked. *)
Definition days_from_civil (y m d : Z) : Z :=
  let y' := (if m <=? 2 then y - 1 else y)%Z in
  let era := (y' / 400)%Z in
  let yoe := (y' - era * 400)%Z in
  let mp := (if 2 <? m then m - 3 else m + 9)%Z in
  let doy := ((153 * mp + 2) / 5 + d - 1)%Z in
  let doe := (yoe * 365 + yoe / 4 - yoe / 100 + doy)%Z in
  (era * 146097 + doe - 719468)%Z.

End PyTime.

(* ================================================================= *)
(** ** [src/utils/file_utils.py]: [format_time], [save_json_file] *)

Module FileUtils.

Import Platform PyTime.

(** [str(v)]. *)
Definition py_str (E : env) (v : value) : pystr :=
  match v with
  | VNone => u "None"
  | VBool true => u "True"
  | VBool false => u "False"
  | VInt z => u (NilZero.string_of_int (Z.to_int z))
  | VStr s => s
  | VList _ | VDict _ => repr E v
  end.

(** The text for a missing timestamp. *)
Definition unknown_text : pystr := [19981; 26126]%N.

(** [isinstance(v, (int, float))]: the number, [bool] included. *)
Definition as_number (v : value) : option Z :=
  match v with
  | VInt z => Some z
  | VBool b => Some (if b then 1 else 0)%Z
  | _ => None
  end.

(** [datetime.fromtimestamp(timestamp / 1000)]: the true division of
    an [int] by 1000 yields a float whose whole seconds are the floor
    of the quotient. *)
Definition fromtimestamp_ms (E : env) (timestamp : value) : outcome datetime :=
  match as_number timestamp with
  | Some ms => fromtimestamp E (ms / 1000)
  | None => Raise TypeError
  end.

Definition format_time (E : env) (timestamp : value) : pystr :=
  if negb (truthy timestamp) then unknown_text
  else
    match fromtimestamp_ms E timestamp with
    | Ret dt => strftime_full E dt
    | Raise _ => py_str E timestamp
    end.

(** *** The date patterns of [save_json_file] *)

Definition is_date_sep (c : N) : bool := ((c =? 45) || (c =? 47))%N.

(** An optional separator, then [k]; without the separator if [k]
    fails after it. *)
Definition opt_sep {A} (k : pystr -> option A) (s : pystr) : option A :=
  match s with
  | c :: r =>
      if is_date_sep c then
        match k r with
        | Some x => Some x
        | None => k s
        end
      else k s
  | [] => k s
  end.

(** Two characters of class [\d]. *)
Definition two_digits {A} (E : env) (k : pystr -> pystr -> option A) (s : pystr)
  : option A :=
  match s with
  | a :: b :: r =>
      if unicode_decimal E a && unicode_decimal E b then k [a; b] r else None
  | _ => None
  end.

(** The characters 2 and 0 and two of class [\d]: a year. *)
Definition year_at {A} (E : env) (k : pystr -> pystr -> option A) (s : pystr)
  : option A :=
  match s with
  | a :: b :: r =>
      if ((a =? 50) && (b =? 48))%N
      then two_digits E (fun dd r' => k (a :: b :: dd) r') r
      else None
  | _ => None
  end.

(** The date pattern matched at the head of [s]: year, month, day. *)
Definition date_at (E : env) (s : pystr) : option (pystr * pystr * pystr) :=
  year_at E (fun y r1 =>
    opt_sep (two_digits E (fun m r2 =>
      opt_sep (two_digits E (fun d _ => Some (y, m, d))) r2)) r1) s.

(** [re.search]: the leftmost match. *)
Fixpoint search {A} (at_head : pystr -> option A) (s : pystr) : option A :=
  match at_head s with
  | Some x => Some x
  | None =>
      match s with
      | _ :: r => search at_head r
      | [] => None
      end
  end.

(** [sub in s]. *)
Fixpoint contains (sub s : pystr) : bool :=
  match Json.starts_with sub s with
  | Some _ => true
  | None =>
      match s with
      | _ :: r => contains sub r
      | [] => false
      end
  end.

(** The timestamp a chat's [created_at] gives, [None] when the loop
    moves on to the next chat. *)
Definition chat_date (E : env) (created_at : value) : option pystr :=
  match as_number created_at with
  | Some secs =>
      match fromtimestamp E secs with
      | Ret dt => Some (strftime_ymd E dt)
      | Raise _ => None
      end
  | None =>
      match created_at with
      | VStr s =>
          if contains (u "20") s then
            match search (date_at E) s with
            | Some (_, month, day) =>
                match search (year_at E (fun y _ => Some y)) s with
                | Some year => Some (year ++ month ++ day)
                | None => None
                end
            | None => None
            end
          else None
      | _ => None
      end
  end.

Fixpoint chats_timestamp (E : env) (chats : list value) : outcome (option pystr) :=
  match chats with
  | [] => Ret None
  | chat :: rest =>
      d <- as_dict chat ;;
      let created_at := dict_get (u "created_at") d in
      if truthy created_at then
        match chat_date E created_at with
        | Some ts => Ret (Some ts)
        | None => chats_timestamp E rest
        end
      else chats_timestamp E rest
  end.

Definition composer_date (E : env) (created_at : value) : option pystr :=
  match created_at with
  | VStr s =>
      if truthy created_at && contains (u "20") s then
        match search (date_at E) s with
        | Some (year, month, day) => Some (year ++ month ++ day)
        | None => None
        end
      else None
  | _ => None
  end.

Fixpoint composers_timestamp (E : env) (composers : list value)
  : outcome (option pystr) :=
  match composers with
  | [] => Ret None
  | composer :: rest =>
      d <- as_dict composer ;;
      match composer_date E (dict_get (u "created_at") d) with
      | Some ts => Ret (Some ts)
      | None => composers_timestamp E rest
      end
  end.

(** The date part of the file name. *)
Definition file_timestamp (E : env) (data : dict) : outcome pystr :=
  chats <- py_iter (dict_get_default (u "chats") (VList []) data) ;;
  from_chats <- chats_timestamp E chats ;;
  match from_chats with
  | Some ts => Ret ts
  | None =>
      composers <- py_iter (dict_get_default (u "composers") (VList []) data) ;;
      from_composers <- composers_timestamp E composers ;;
      match from_composers with
      | Some ts => Ret ts
      | None => dt <- fromtimestamp E (now E) ;; Ret (strftime_ymd E dt)
      end
  end.

(** *** The path part of the file name *)

(** [s.split(sep)] for a one-character separator. *)
Fixpoint split (sep : N) (s : pystr) : list pystr :=
  match s with
  | [] => [[]]
  | c :: r =>
      if (c =? sep)%N then [] :: split sep r
      else
        match split sep r with
        | part :: parts => (c :: part) :: parts
        | [] => [[c]]
        end
  end.

(** Class [\w]. *)
Definition is_word (E : env) (c : N) : bool :=
  unicode_alnum E c || (c =? 95)%N.

(** [re.sub] deleting every character that is neither of class [\w]
    nor a hyphen. *)
Definition safe_chars (E : env) (part : pystr) : pystr :=
  filter (fun c => is_word E c || (c =? 45)%N) part.

(** The loop over the reversed parts. *)
Fixpoint last_part_id (E : env) (reversed_parts : list pystr) : pystr :=
  match reversed_parts with
  | [] => []
  | part :: rest =>
      if truthy (VStr part) && negb (str_eqb part (u ".") || str_eqb part (u ".."))
      then u "_" ++ firstn 20 (safe_chars E part)
      else last_part_id E rest
  end.

Definition path_id (E : env) (workspace_path : value) : pystr :=
  if truthy workspace_path && negb (py_eq_str workspace_path (u "Unknown")) then
    match workspace_path with
    | VStr s =>
        let path_parts :=
          if contains [92%N] s then split 92 s else split 47 s in
        last_part_id E (rev path_parts)
    | _ => u "_unknown"
    end
  else [].

(** The name without the path part. *)
Definition short_name (timestamp : pystr) : pystr :=
  u "ws_" ++ timestamp ++ u ".json".

(** The variable [filename], from the timestamp and the path part. *)
Definition make_filename (timestamp path_part : pystr) : pystr :=
  let filename := u "ws_" ++ timestamp ++ path_part ++ u ".json" in
  if (200 <? List.length filename)%nat then short_name timestamp
  else filename.

Definition output_filename (E : env) (data : dict) : outcome pystr :=
  timestamp <- file_timestamp E data ;;
  let workspace_path :=
    dict_get_default (u "workspace_path") (VStr (u "unknown")) data in
  Ret (make_filename timestamp (path_id E workspace_path)).

(** [save_json_file]: the first component of the pair it returns,
    [None] when nothing could be written; the second is always
    [None].  The file written is the last component of that path. *)
Definition save_json_file (E : env) (data : value) : outcome (option pystr) :=
  d <- as_dict data ;;
  timestamp <- file_timestamp E d ;;
  if negb (makedirs_ok E) then Raise OSError
  else
    let workspace_path :=
      dict_get_default (u "workspace_path") (VStr (u "unknown")) d in
    let filename := make_filename timestamp (path_id E workspace_path) in
    let fallback_file := short_name timestamp in
    if dir_exists E then
      let workspace_file := u "json" ++ sep E :: filename in
      if can_write E workspace_file then Ret (Some workspace_file)
      else if can_write E fallback_file then Ret (Some fallback_file)
      else Ret None
    else if can_write E fallback_file then Ret (Some fallback_file)
    else Ret None.

(** *** Vocabulary for the properties *)

(** The shape of [strftime_full]: four digits, a hyphen, two digits,
    a hyphen, two digits, a space, and three pairs of digits with
    colons between them. *)
Definition is_full_format (s : pystr) : bool :=
  match s with
  | [y1; y2; y3; y4; h1; m1; m2; h2; d1; d2; sp; a1; a2; c1; b1; b2; c2; e1; e2] =>
      forallb Json.is_ascii_digit
        [y1; y2; y3; y4; m1; m2; d1; d2; a1; a2; b1; b2; e1; e2]
      && ((h1 =? 45) && (h2 =? 45) && (sp =? 32) && (c1 =? 58) && (c2 =? 58))%N
  | _ => false
  end.

(** The characters the specification allows in a file name: ASCII
    letters and digits, underscore, dot and hyphen. *)
Definition filename_char (c : N) : bool :=
  (((48 <=? c) && (c <=? 57)) || ((65 <=? c) && (c <=? 90)) ||
   ((97 <=? c) && (c <=? 122)) || (c =? 95) || (c =? 46) || (c =? 45))%N.

End FileUtils.

(* ================================================================= *)
(** ** [src/extractor/cursor_data_extractor.py]: [get_chat_data]

    The normaliser, from the two rows read from the workspace
    database on.  Every exception raised while the tabs (resp. the
    composers) are processed is caught by the handler around that
    part, which leaves in the result what was appended before.

    The result is kept in the variable [result].  The query of the
    table [ItemTable], by which the lookup of the detail records falls
    back when the table [cursorDiskKV] cannot be read, assigns the row
    it fetches to the same variable: from then on [result] is no longer
    the dict, and what the function returns is that row. *)

Module Extractor.

Import Platform FileUtils.

(** [v[:n]]: a [str] or a list can be sliced. *)
Definition py_slice (n : nat) (v : value) : outcome value :=
  match v with
  | VStr s => Ret (VStr (firstn n s))
  | VList l => Ret (VList (firstn n l))
  | _ => Raise TypeError
  end.

(** *** Chats *)

(** The message of one bubble, [None] when the loop skips it: a null
    or empty bubble, or one whose text is empty. *)
Definition bubble_message (E : env) (bubble : value) : outcome (option value) :=
  if negb (truthy bubble) then Ret None
  else
    b <- as_dict bubble ;;
    let text := dict_get_default (u "text") (VStr []) b in
    let message :=
      VDict [(u "type", dict_get_default (u "type") (VStr (u "unknown")) b);
             (u "text", text);
             (u "timestamp",
              VStr (format_time E (dict_get_default (u "timestamp") (VStr []) b)))] in
    if truthy text then Ret (Some message) else Ret None.

Fixpoint bubble_messages (E : env) (bubbles messages : list value)
  : outcome (list value) :=
  match bubbles with
  | [] => Ret messages
  | bubble :: rest =>
      m <- bubble_message E bubble ;;
      match m with
      | Some message => bubble_messages E rest (messages ++ [message])
      | None => bubble_messages E rest messages
      end
  end.

Definition chat_info_of_tab (E : env) (tab : value) : outcome value :=
  t <- as_dict tab ;;
  id_head <- py_slice 8 (dict_get_default (u "tabId") (VStr []) t) ;;
  let default_title := VStr (u "Chat " ++ py_str E id_head) in
  let bubbles :=
    let b := dict_get_default (u "bubbles") (VList []) t in
    if truthy b then b else VList [] in
  bubbles <- py_iter bubbles ;;
  messages <- bubble_messages E bubbles [] ;;
  Ret (VDict [(u "id", dict_get_default (u "tabId") (VStr []) t);
              (u "title", dict_get_default (u "chatTitle") default_title t);
              (u "timestamp",
               VStr (format_time E (dict_get_default (u "lastSendTime") (VStr []) t)));
              (u "created_at", dict_get_default (u "created_at") (VStr []) t);
              (u "messages", VList messages)]).

(** The loop over the tabs: it stops at the first exception. *)
Fixpoint process_tabs (E : env) (tabs chats : list value) : list value :=
  match tabs with
  | [] => chats
  | tab :: rest =>
      match chat_info_of_tab E tab with
      | Ret chat_info => process_tabs E rest (chats ++ [chat_info])
      | Raise _ => chats
      end
  end.

(** The chats of the parsed chat data.  Data that is no dict either
    fails the test for the key or raises when indexed by it. *)
Definition extract_chats (E : env) (chat_data : value) : list value :=
  match chat_data with
  | VDict d =>
      if truthy chat_data && dict_has (u "tabs") d then
        match dict_get (u "tabs") d with
        | VList tabs => process_tabs E tabs []
        | _ => []
        end
      else []
  | _ => []
  end.

(** *** Composers *)

(** The role of a conversation message. *)
Definition msg_role (msg : dict) : value :=
  if dict_has (u "type") msg then
    if py_eq_int (dict_get (u "type") msg) 1 then VStr (u "user")
    else VStr (u "assistant")
  else if dict_has (u "role") msg then dict_get (u "role") msg
  else VStr (u "unknown").

(** The text of a conversation message: the first of the candidate
    keys that is present with a non-empty value. *)
Fixpoint msg_text (keys : list pystr) (msg : dict) : value :=
  match keys with
  | [] => VStr []
  | key :: rest =>
      if dict_has key msg && truthy (dict_get key msg) then dict_get key msg
      else msg_text rest msg
  end.

Definition text_keys : list pystr := [u "text"; u "content"; u "message"].

(** The message of one conversation entry, [None] when the loop skips
    it: a null or empty entry.  An entry that is no dict raises, at
    the latest when its timestamp is read. *)
Definition composer_message (E : env) (msg : value) : outcome (option value) :=
  if negb (truthy msg) then Ret None
  else
    m <- as_dict msg ;;
    Ret (Some (VDict [(u "type", msg_role m);
                      (u "text", msg_text text_keys m);
                      (u "timestamp", VStr (format_time E (dict_get (u "timestamp") m)))])).

Fixpoint conversation_messages (E : env) (conversation messages : list value)
  : outcome (list value) :=
  match conversation with
  | [] => Ret messages
  | msg :: rest =>
      m <- composer_message E msg ;;
      match m with
      | Some message => conversation_messages E rest (messages ++ [message])
      | None => conversation_messages E rest messages
      end
  end.

Definition conversation_keys : list pystr :=
  [u "conversation"; u "history"; u "messages"; u "interactions"].

(** The first candidate key that holds a list; the empty list if
    none does. *)
Fixpoint find_conversation (keys : list pystr) (composer : dict) : list value :=
  match keys with
  | [] => []
  | key :: rest =>
      match dict_get key composer with
      | VList conversation => conversation
      | _ => find_conversation rest composer
      end
  end.

(** [composer_details.get(composer_id, {})] on a dict with [str]
    keys. *)
Definition details_get (composer_details : dict) (composer_id : value)
  : outcome value :=
  k <- py_hash composer_id ;;
  match k with
  | KStr s => Ret (dict_get_default s (VDict []) composer_details)
  | _ => Ret (VDict [])
  end.

(** [for key, value in detail.items(): composer[key] = value]. *)
Definition merge_detail (detail composer : dict) : dict :=
  fold_left (fun c kv => dict_set (fst kv) (snd kv) c) detail composer.

Definition composer_title (E : env) (composer : dict) (composer_id : value)
  : outcome value :=
  let title := dict_get_default (u "name") (VStr []) composer in
  if negb (truthy title) then
    let title := dict_get_default (u "text") (VStr []) composer in
    if truthy title then py_slice 30 title
    else
      id_head <- py_slice 8 composer_id ;;
      Ret (VStr (u "Composer " ++ py_str E id_head))
  else Ret title.

(** The variable [result] after the lookup of the detail records:
    still the dict, or rebound to what the last query of [ItemTable]
    fetched, [None] or a row with its one value. *)
Inductive binding : Type :=
| Kept
| Rebound (row : option value).

(** What the lookup in the global database leaves behind: the dict
    from composer id to detail record, or the exception that escapes
    from the body of its [with] statement, and the variable
    [result]. *)
Record lookup : Type := {
  composer_details : outcome dict;
  result_after : binding
}.

(** No lookup, or a lookup that found nothing and fell back on
    nothing. *)
Definition no_lookup : lookup :=
  {| composer_details := Ret []; result_after := Kept |}.

(** One iteration of the loop over the composers, up to the append:
    the record to append, [None] for an entry without id. *)
Definition composer_info_of (E : env) (safe_mode : bool) (composer_details : dict)
  (composer : value) : outcome (option value) :=
  c <- as_dict composer ;;
  let composer_id := dict_get_default (u "composerId") (VStr []) c in
  if negb (truthy composer_id) then Ret None
  else
    detail <- details_get composer_details composer_id ;;
    c <- (if truthy detail
          then d <- as_dict detail ;; Ret (merge_detail d c)
          else Ret c) ;;
    title <- composer_title E c composer_id ;;
    let composer_info conversation :=
      VDict [(u "id", composer_id);
             (u "title", title);
             (u "text", dict_get_default (u "text") (VStr []) c);
             (u "created_at", VStr (format_time E (dict_get (u "createdAt") c)));
             (u "updated_at", VStr (format_time E (dict_get (u "lastUpdatedAt") c)));
             (u "conversation", VList conversation)] in
    if safe_mode then Ret (Some (composer_info []))
    else
      messages <- conversation_messages E (find_conversation conversation_keys c) [] ;;
      Ret (Some (composer_info messages)).

(** The loop over the composers: it stops at the first exception.
    The append is [result["composers"].append(composer_info)]: once
    [result] is rebound, to [None] or to a row, the subscript
    raises. *)
Fixpoint process_composers (E : env) (safe_mode : bool) (composer_details : dict)
  (result : binding) (all composers : list value) : list value :=
  match all with
  | [] => composers
  | composer :: rest =>
      match composer_info_of E safe_mode composer_details composer with
      | Ret (Some info) =>
          match result with
          | Kept =>
              process_composers E safe_mode composer_details result rest
                (composers ++ [info])
          | Rebound _ => composers
          end
      | Ret None =>
          process_composers E safe_mode composer_details result rest composers
      | Raise _ => composers
      end
  end.

(** Some composer has neither text nor name. *)
Fixpoint missing_data (all : list value) : outcome bool :=
  match all with
  | [] => Ret false
  | composer :: rest =>
      c <- as_dict composer ;;
      if negb (truthy (dict_get (u "text") c)) && negb (truthy (dict_get (u "name") c))
      then Ret true
      else missing_data rest
  end.

(** The composers of the parsed composer data, and the variable
    [result] afterwards.  [fetch] stands for the lookup of the detail
    records in the global database: given the composers it tells the
    dict from composer id to detail record, empty when that database
    is not there, or what escapes from the body of the [with]
    statement, and what it left in [result].  An exception that
    escapes is caught by the handler around the composers, which
    appends none. *)
Definition extract_composers (E : env) (safe_mode : bool)
  (fetch : list value -> lookup) (composer_data : value)
  : list value * binding :=
  match composer_data with
  | VDict d =>
      if truthy composer_data && dict_has (u "allComposers") d then
        match dict_get (u "allComposers") d with
        | VList all =>
            match missing_data all with
            | Ret missing =>
                let found :=
                  if negb safe_mode && missing then fetch all else no_lookup in
                match composer_details found with
                | Ret details =>
                    (process_composers E safe_mode details (result_after found) all [],
                     result_after found)
                | Raise _ => ([], result_after found)
                end
            | Raise _ => ([], Kept)
            end
        | _ => ([], Kept)
        end
      else ([], Kept)
  | _ => ([], Kept)
  end.

(** *** The result *)

(** The value of a row, parsed: [None] for no row, an empty value or
    a parser that raises. *)
Definition parsed_row (loads : pystr -> outcome value) (row : option pystr)
  : option value :=
  match row with
  | Some text =>
      if truthy (VStr text) then
        match JsonUtils.safe_parse_json loads text with
        | Ret (data, _) => Some data
        | Raise _ => None
        end
      else None
  | None => None
  end.

(** What [get_chat_data] returns: the dict it has built, or, when
    [result] was rebound, the row of [ItemTable] that [result] then
    holds, [None] or a tuple of one value. *)
Inductive extraction : Type :=
| Extracted (result : value)
| Replaced (row : option value).

(** [return result]. *)
Definition returned_result (result : binding) (built : value) : extraction :=
  match result with
  | Kept => Extracted built
  | Rebound row => Replaced row
  end.

(** [get_chat_data] once the connection is open: [chat_row] and
    [composer_row] are the values stored under the two keys. *)
Definition get_chat_data (E : env) (safe_mode : bool)
  (loads : pystr -> outcome value) (fetch : list value -> lookup)
  (workspace_id workspace_path : pystr) (chat_row composer_row : option pystr)
  : extraction :=
  let chats :=
    match parsed_row loads chat_row with
    | Some chat_data => extract_chats E chat_data
    | None => []
    end in
  let '(composers, result) :=
    match parsed_row loads composer_row with
    | Some composer_data => extract_composers E safe_mode fetch composer_data
    | None => ([], Kept)
    end in
  returned_result result
    (VDict [(u "workspace_id", VStr workspace_id);
            (u "workspace_path", VStr workspace_path);
            (u "chats", VList chats);
            (u "composers", VList composers)]).

(** *** Vocabulary for the properties *)

(** The text of a message of the result. *)
Definition message_text (message : value) : value :=
  match message with
  | VDict m => dict_get (u "text") m
  | _ => VNone
  end.

(** The role of a message of the result. *)
Definition message_role (message : value) : value :=
  match message with
  | VDict m => dict_get (u "type") m
  | _ => VNone
  end.

(** The messages of a chat, the conversation of a composer. *)
Definition list_field (field : pystr) (record : value) : list value :=
  match record with
  | VDict r => match dict_get field r with VList l => l | _ => [] end
  | _ => []
  end.

(** The message built from a conversation entry. *)
Definition resolved_message (E : env) (msg : dict) : value :=
  VDict [(u "type", msg_role msg);
         (u "text", msg_text text_keys msg);
         (u "timestamp", VStr (format_time E (dict_get (u "timestamp") msg)))].

(** The entries of a conversation that are non-empty dicts. *)
Definition entries (conversation : list value) : list dict :=
  flat_map (fun v => match v with
                     | VDict (e :: d) => [e :: d]
                     | _ => []
                     end) conversation.


(** A field of a record of the result. *)
Definition record_field (field : pystr) (record : value) : value :=
  match record with
  | VDict r => dict_get field r
  | _ => VNone
  end.

(** The result with these chats and composers. *)
Definition result_of (workspace_id workspace_path : pystr)
  (chats composers : list value) : value :=
  VDict [(u "workspace_id", VStr workspace_id);
         (u "workspace_path", VStr workspace_path);
         (u "chats", VList chats);
         (u "composers", VList composers)].

(** **** Chats, in the words of the specification *)





(** **** Composers, in the words of the specification *)






End Extractor.

(* ================================================================= *)
(** ** [src/core/db_utils.py]: [get_db_connection], [safe_db_connection]

    The file system, the lock probes and SQLite are the world the
    accessor observes; a [db_file] records what each observation of
    one path answers. *)

Module DbUtils.

Inductive system : Type := Windows | Posix.

(** What SQLite answers to a connection attempt followed by the test
    query. *)
Inductive sqlite_answer : Type :=
| Connected
| DatabaseLocked
| NoSuchTable (connected : bool)
| UnableToOpen
| OtherOperationalError
| OtherException.

Record db_file : Type := {
  (** [os.path.exists]. *)
  file_exists : bool;
  (** [os.access] for reading. *)
  readable : bool;
  (** [os.path.getsize], which raises when the file has gone. *)
  getsize : outcome N;
  platform_system : system;
  (** The module [msvcrt], resp. [fcntl], can be imported. *)
  lock_module : bool;
  (** The file opens for reading. *)
  opens_for_reading : bool;
  (** The file opens for appending. *)
  opens_for_appending : bool;
  (** The non-blocking lock is granted. *)
  lock_granted : bool;
  (** The read-only connection by URI. *)
  connect_uri : sqlite_answer;
  (** The direct connection succeeds. *)
  connect_direct : bool
}.

(** An open connection to a file. *)
Inductive connection : Type :=
| ReadOnly
| Direct.

(** Step 3, the probe for a lock: [true] when the file is free. *)
Definition lock_probe (f : db_file) : bool :=
  match platform_system f with
  | Windows =>
      lock_module f && opens_for_reading f && opens_for_appending f
      && lock_granted f
  | Posix =>
      if lock_module f then opens_for_reading f && lock_granted f
      else opens_for_reading f
  end.

(** Step 4, the connection. *)
Definition sqlite_connect (f : db_file) : option connection :=
  match connect_uri f with
  | Connected => Some ReadOnly
  | DatabaseLocked => None
  | NoSuchTable connected => if connected then Some ReadOnly else None
  | UnableToOpen => None
  | OtherOperationalError => None
  | OtherException => if connect_direct f then Some Direct else None
  end.

(** [None] is the signal that the database is unavailable. *)
Definition get_db_connection (f : db_file) : outcome (option connection) :=
  if negb (file_exists f) then Ret None
  else if negb (readable f) then Ret None
  else
    size <- getsize f ;;
    if (size =? 0)%N then Ret None
    else if negb (lock_probe f) then Ret None
    else Ret (sqlite_connect f).

(** What [safe_db_connection] yields to the body of the [with]
    statement: an exception of [get_db_connection] is caught and
    [None] is yielded. *)
Definition safe_db_connection (f : db_file) : outcome (option connection) :=
  match get_db_connection f with
  | Ret conn => Ret conn
  | Raise _ => Ret None
  end.

(** [with safe_db_connection(path) as conn: body].  An exception of
    the body is thrown into the generator, whose handler yields a
    second time, which [contextlib] reports as a [RuntimeError]. *)
Definition with_safe_db_connection {A}
  (f : db_file) (body : option connection -> outcome A) : outcome A :=
  conn <- safe_db_connection f ;;
  match body conn with
  | Ret a => Ret a
  | Raise _ => Raise RuntimeError
  end.

(** The file is missing, unreadable or empty. *)
Definition rejected (f : db_file) : Prop :=
  file_exists f = false \/ readable f = false \/ getsize f = Ret 0%N.

End DbUtils.

(* ================================================================= *)
(** ** Sample inputs *)

Module Samples.

Import Json.

(** The strict decoder on which sample documents are evaluated. *)
Definition strict_loads : pystr -> outcome value := loads text_hooks.

(** A document of the repository's tests, valid JSON. *)
Definition valid_doc : pystr :=
  u "{" ++ quoted (u "key") ++ u ": " ++ quoted (u "value") ++ u ", "
    ++ quoted (u "number") ++ u ": 42, "
    ++ quoted (u "array") ++ u ": [1, 2, 3]}".

(** An array holding the string comma-bracket, with a trailing comma. *)
Definition comma_in_string_doc : pystr :=
  u "[" ++ quoted (u ",]") ++ u ",]".

(** The same array without the trailing comma. *)
Definition comma_in_string_fixed : pystr :=
  u "[" ++ quoted (u ",]") ++ u "]".

(** An excerpt of the Unicode tables: ASCII letters and digits,
    Hiragana, Katakana, CJK unified ideographs and fullwidth digits
    are alphanumeric; ASCII and fullwidth digits are decimal digits. *)
Definition sample_alnum (c : N) : bool :=
  (((48 <=? c) && (c <=? 57)) || ((65 <=? c) && (c <=? 90)) ||
   ((97 <=? c) && (c <=? 122)) || ((12353 <=? c) && (c <=? 12438)) ||
   ((12449 <=? c) && (c <=? 12538)) || (c =? 12540) ||
   ((19968 <=? c) && (c <=? 40959)) || ((65296 <=? c) && (c <=? 65305)))%N.

Definition sample_decimal (c : N) : bool :=
  (((48 <=? c) && (c <=? 57)) || ((65296 <=? c) && (c <=? 65305)))%N.

(** A Linux machine on UTC whose disk takes every write. *)
Definition sample_env : Platform.env :=
  {| Platform.unicode_alnum := sample_alnum;
     Platform.unicode_decimal := sample_decimal;
     Platform.utc_offset := fun _ => 0%Z;
     Platform.localtime_ok := fun _ => true;
     Platform.windows := false;
     Platform.pads_year := false;
     Platform.now := 1700000000%Z;
     Platform.repr := fun _ => u "[...]";
     Platform.makedirs_ok := true;
     Platform.dir_exists := true;
     Platform.can_write := fun _ => true;
     Platform.sep := 47%N |}.

(** The katakana word of the repository's path test. *)
Definition katakana_test : pystr := [12486; 12473; 12488]%N.

(** The extraction result of the repository's path test, with its
    path of non-ASCII characters. *)
Definition katakana_path_data : dict :=
  [(u "workspace_id", VStr (u "test-workspace-123"));
   (u "workspace_path",
    VStr (u "C:\Users\test\" ++ [12503; 12525; 12472; 12455; 12463; 12488]%N
            ++ u "\" ++ katakana_test));
   (u "chats", VList [VDict [(u "id", VStr (u "test-chat-1"));
                              (u "title", VStr (u "Test Chat"));
                              (u "created_at", VInt 1625097600)]]);
   (u "composers", VList [])].

(** An extraction result in which the chat id a occurs twice. *)
Definition dup_sample : value :=
  VDict [(u "workspace_id", VStr (u "ws"));
         (u "chats", VList [VDict [(u "id", VStr (u "a")); (u "title", VStr (u "first"))];
                            VDict [(u "id", VStr (u "b"))];
                            VDict [(u "id", VStr (u "a")); (u "title", VStr (u "again"))]]);
         (u "composers", VList [])].

(** An extraction result with one chat, whose id is the empty string. *)
Definition empty_id_sample : value :=
  VDict [(u "chats", VList [VDict [(u "id", VStr [])]]); (u "composers", VList [])].

(** Chats without id, with a null id, with an empty id and with the
    id x; one composer with an empty id. *)
Definition no_id_sample : value :=
  VDict [(u "chats", VList [VDict [(u "title", VStr (u "no id"))];
                            VDict [(u "id", VNone)];
                            VDict [(u "id", VStr [])];
                            VDict [(u "id", VStr (u "x"))]]);
         (u "composers", VList [VDict [(u "id", VStr [])]])].

(** No global database: no detail records. *)
Definition no_details : list value -> Extractor.lookup :=
  fun _ => Extractor.no_lookup.

(** Chat data with one tab of two bubbles, the second, of the
    assistant, with an empty text. *)
Definition two_bubble_chat_data : value :=
  VDict [(u "tabs",
    VList [VDict [(u "tabId", VStr (u "test_tab_1"));
                  (u "chatTitle", VStr (u "Test Chat 1"));
                  (u "lastSendTime", VInt 1616161616161);
                  (u "bubbles",
                   VList [VDict [(u "type", VStr (u "user"));
                                 (u "text", VStr (u "Hello"))];
                          VDict [(u "type", VStr (u "assistant"));
                                 (u "text", VStr [])]])]])].

(** The member [name: value] of a JSON object, and the member whose
    value is a string. *)
Definition member (name : string) (json : pystr) : pystr :=
  quoted (u name) ++ u ": " ++ json.

Definition str_member (name text : string) : pystr :=
  member name (quoted (u text)).



Definition empty_first_chat_data : value :=
  VDict [(u "tabs",
    VList [VDict [(u "tabId", VStr (u "test_tab_1"));
                  (u "chatTitle", VStr (u "Test Chat 1"));
                  (u "lastSendTime", VInt 1616161616161);
                  (u "bubbles",
                   VList [VDict [(u "type", VStr (u "assistant"));
                                 (u "text", VStr [])];
                          VDict [(u "type", VStr (u "user"));
                                 (u "text", VStr (u "Hello"))]])]])].

(** Composer data of the repository's tests: a conversation of a user
    message (type 1) and an assistant message (type 2). *)
Definition typed_composer_data : value :=
  VDict [(u "allComposers",
    VList [VDict [(u "composerId", VStr (u "test_composer_1"));
                  (u "name", VStr (u "Test Composer"));
                  (u "text", VStr (u "Test composer content"));
                  (u "createdAt", VInt 1616161616161);
                  (u "lastUpdatedAt", VInt 1616161616161);
                  (u "conversation",
                   VList [VDict [(u "type", VInt 1);
                                 (u "text", VStr (u "question"));
                                 (u "timestamp", VInt 1616161616161)];
                          VDict [(u "type", VInt 2);
                                 (u "text", VStr (u "answer"));
                                 (u "timestamp", VInt 1616161616162)]])]])].


(** The rows of the composer key for these, as the editor stores
    them. *)
Definition typed_composer_row : pystr :=
  u "{" ++ member "allComposers" (u "[{"
    ++ str_member "composerId" "test_composer_1" ++ u ", "
    ++ str_member "name" "Test Composer" ++ u ", "
    ++ str_member "text" "Test composer content" ++ u ", "
    ++ member "createdAt" (u "1616161616161") ++ u ", "
    ++ member "lastUpdatedAt" (u "1616161616161") ++ u ", "
    ++ member "conversation" (u "[{" ++ member "type" (u "1") ++ u ", "
         ++ str_member "text" "question" ++ u ", "
         ++ member "timestamp" (u "1616161616161") ++ u "}, {"
         ++ member "type" (u "2") ++ u ", "
         ++ str_member "text" "answer" ++ u ", "
         ++ member "timestamp" (u "1616161616162") ++ u "}]") ++ u "}]") ++ u "}".


(** Composer data whose conversation entries have a role and no type,
    and the type [true]; its row. *)
Definition role_composer_data : value :=
  VDict [(u "allComposers",
    VList [VDict [(u "composerId", VStr (u "c2"));
                  (u "name", VStr (u "Roles"));
                  (u "conversation",
                   VList [VDict [(u "role", VStr (u "system"));
                                 (u "content", VStr (u "note"))];
                          VDict [(u "type", VBool true);
                                 (u "text", VStr (u "yes"))]])]])].


(** A database file of no bytes on a machine where everything else
    would succeed. *)
Definition empty_db_file : DbUtils.db_file :=
  {| DbUtils.file_exists := true;
     DbUtils.readable := true;
     DbUtils.getsize := Ret 0%N;
     DbUtils.platform_system := DbUtils.Posix;
     DbUtils.lock_module := true;
     DbUtils.opens_for_reading := true;
     DbUtils.opens_for_appending := true;
     DbUtils.lock_granted := true;
     DbUtils.connect_uri := DbUtils.Connected;
     DbUtils.connect_direct := true |}.

End Samples.

(* ================================================================= *)
(** ** Further vocabulary for the deduplication *)

Module DedupMore.

Import DedupSpec.

(** The loop over the collection under [field] runs through: the
    collection is iterable and every item is a record whose id is
    empty or hashable. *)
Definition field_runs (field : pystr) (d : dict) : bool :=
  match py_iter (dict_get_default field (VList []) d) with
  | Ret items => forallb record_ok items
  | Raise _ => false
  end.

(** [remove_duplicates] runs through on [data]. *)
Definition runs_through (data : value) : bool :=
  match data with
  | VDict d => field_runs (u "chats") d && field_runs (u "composers") d
  | _ => false
  end.

(** An extraction result whose two collections are [chats] and
    [composers], the other fields those of [rest]. *)
Definition with_collections (rest : dict) (chats composers : list value) : value :=
  VDict (dict_set (u "composers") (VList composers)
           (dict_set (u "chats") (VList chats) rest)).

(** Every record has a non-empty id. *)
Definition all_identified (records : list value) : Prop :=
  Forall (fun r => exists k, item_key r = Some k) records.

(** The fields of an extraction result without duplicates. *)
Definition unique_fields : dict :=
  [(u "workspace_id", VStr (u "ws"));
   (u "chats", VList [VDict [(u "id", VStr (u "a"))];
                      VDict [(u "id", VInt 7)]]);
   (u "composers", VList [VDict [(u "id", VStr (u "a"));
                                 (u "title", VStr (u "t"))]])].

Definition unique_sample : value := VDict unique_fields.

End DedupMore.

(* ================================================================= *)
(** ** Further vocabulary for the tolerant parser *)

Module JsonMore.

Import Json JsonUtils.

(** The text without its commas and its whitespace. *)
Definition significant (s : pystr) : pystr :=
  filter (fun c => negb ((c =? COMMA)%N || is_space c)) s.

(** An object with two trailing commas, one inside the array. *)
Definition two_commas_doc : pystr :=
  u "{" ++ quoted (u "a") ++ u ":[1,2" ++ COMMA :: u " " ++ RBRACK ::
    (COMMA :: [] ++ RBRACE :: []).

(** A document of the repository's tests that no repair can save. *)
Definition unclosed_doc : pystr :=
  u "{" ++ quoted (u "key") ++ u ": " ++ quoted (u "value") ++ u ", "
    ++ quoted (u "unclosed") ++ u ": {".

End JsonMore.

(* ================================================================= *)
(** ** Further vocabulary for the file names *)

Module FileMore.

Import Platform FileUtils.

(** An ASCII letter or digit. *)
Definition ascii_alnum (c : N) : bool :=
  (((48 <=? c) && (c <=? 57)) || ((65 <=? c) && (c <=? 90)) ||
   ((97 <=? c) && (c <=? 122)))%N.

(** On ASCII the tables of the platform hold what Unicode holds: the
    only alphanumeric ASCII characters are the letters and digits, and
    the only decimal digits the ten ASCII digits. *)
Definition ascii_sound (E : env) : Prop :=
  forall c, (c < 128)%N ->
    (unicode_alnum E c = true -> ascii_alnum c = true) /\
    (unicode_decimal E c = true -> Json.is_ascii_digit c = true).

(** A character of the allowed set, or a non-ASCII letter or digit
    of Unicode. *)
Definition allowed_or_unicode (E : env) (c : N) : Prop :=
  filename_char c = true \/
  ((128 <= c)%N /\ (unicode_alnum E c = true \/ unicode_decimal E c = true)).

(** A path part of the file name: nothing, or an underscore and at
    most twenty characters. *)
Definition is_path_part (part : pystr) : Prop :=
  part = [] \/ exists p, part = u "_" ++ p /\ (List.length p <= 20)%nat.

End FileMore.

(* ================================================================= *)
(** ** [src/utils/file_utils.py]: the storage locator

    [get_workspace_storage_dir], [get_global_storage_dir],
    [get_workspace_path], and
    [get_workspace_storage_dir_override] of the extractor.  A path is
    the string it starts from and the components joined to it. *)

Module Locator.

Definition path : Type := (pystr * list pystr)%type.

(** [Path(base) / c1 / c2 / ...]. *)
Definition join (base : pystr) (components : list pystr) : path :=
  (base, components).

(** The directory a path lies in. *)
Definition parent (p : path) : path := (fst p, removelast (snd p)).

Record host : Type := {
  (** [platform.system()]. *)
  system_name : pystr;
  (** The environment variable [APPDATA]. *)
  appdata : option pystr;
  (** [Path.home()]. *)
  home : pystr;
  (** The environment variable [CURSOR_ACTUAL_STORAGE]. *)
  actual_storage : option pystr;
  (** [Path.exists]. *)
  path_exists : path -> bool
}.

(** The loop over the candidates: the first that exists. *)
Fixpoint first_existing (h : host) (candidates : list path) : option path :=
  match candidates with
  | [] => None
  | p :: rest => if path_exists h p then Some p else first_existing h rest
  end.

(** The directory named [leaf] of the editor's user data. *)
Definition storage_dir (h : host) (leaf : pystr) : option path :=
  if str_eqb (system_name h) (u "Windows") then
    match appdata h with
    | Some base =>
        if truthy (VStr base) then Some (join base [u "Cursor"; u "User"; leaf])
        else None
    | None => None
    end
  else if str_eqb (system_name h) (u "Darwin") then
    Some (join (home h) [u "Library"; u "Application Support"; u "Cursor"; u "User"; leaf])
  else if str_eqb (system_name h) (u "Linux") then
    first_existing h [join (home h) [u ".config"; u "Cursor"; u "User"; leaf];
                      join (home h) [u ".cursor"; u "User"; leaf]]
  else None.

Definition get_workspace_storage_dir (h : host) : option path :=
  storage_dir h (u "workspaceStorage").

Definition get_global_storage_dir (h : host) : option path :=
  storage_dir h (u "globalStorage").

Definition get_workspace_storage_dir_override (h : host) : option path :=
  match actual_storage h with
  | Some real_storage =>
      if truthy (VStr real_storage) then Some (real_storage, [])
      else get_workspace_storage_dir h
  | None => get_workspace_storage_dir h
  end.

(** The prefix of a folder URI. *)
Definition file_scheme : pystr := u "file:///".

(** The text for a workspace whose folder is not known. *)
Definition unknown_path : pystr := u "Unknown".

(** What the body of the [try] returns, [None] when it falls through
    to the end of the function. *)
Definition folder_of (loads : pystr -> outcome value) (windows : bool)
  (content : outcome pystr) : outcome (option pystr) :=
  text <- content ;;
  data <- loads text ;;
  d <- as_dict data ;;
  let folder_uri := dict_get (u "folder") d in
  if truthy folder_uri then
    match folder_uri with
    | VStr uri =>
        match Json.starts_with file_scheme uri with
        | Some path =>
            if windows && JsonUtils.startswith 47 path then Ret (Some (tl path))
            else Ret (Some path)
        | None => Ret (Some uri)
        end
    | _ => Raise AttributeError
    end
  else Ret None.

(** [workspace_json] is [None] when there is no [workspace.json], and
    otherwise what reading it gives. *)
Definition get_workspace_path (loads : pystr -> outcome value) (windows : bool)
  (workspace_json : option (outcome pystr)) : pystr :=
  match workspace_json with
  | Some content =>
      match folder_of loads windows content with
      | Ret (Some path) => path
      | Ret None => unknown_path
      | Raise _ => unknown_path
      end
  | None => unknown_path
  end.

(** A Linux machine with the editor's data under [.config] only. *)
Definition linux_host : host :=
  {| system_name := u "Linux";
     appdata := None;
     home := u "/home/user";
     actual_storage := None;
     path_exists := fun p =>
       match snd p with
       | c :: _ => str_eqb c (u ".config")
       | [] => false
       end |}.

(** A [workspace.json] naming a folder by URI. *)
Definition workspace_json_doc : pystr :=
  u "{" ++ Json.quoted (u "folder") ++ u ": "
    ++ Json.quoted (u "file:///home/user/projects/demo") ++ u "}".

(** One whose folder is on a Windows drive, one whose folder is on a
    network share, and one whose folder is no file URI. *)
Definition windows_json_doc : pystr :=
  u "{" ++ Json.quoted (u "folder") ++ u ": "
    ++ Json.quoted (u "file:///c%3A/Users/me/demo") ++ u "}".

Definition share_json_doc : pystr :=
  u "{" ++ Json.quoted (u "folder") ++ u ": "
    ++ Json.quoted (u "file:////host/share/demo") ++ u "}".

Definition remote_json_doc : pystr :=
  u "{" ++ Json.quoted (u "folder") ++ u ": "
    ++ Json.quoted (u "vscode-remote://ssh/demo") ++ u "}".

End Locator.

(* ================================================================= *)
(** ** Further vocabulary for the normaliser *)

Module ExtractorMore.

Import Platform FileUtils Extractor.

(** A message of the result: a type, a text and a formatted
    timestamp. *)
Definition is_message (message : value) : Prop :=
  exists type text timestamp,
    message = VDict [(u "type", type); (u "text", text);
                     (u "timestamp", VStr timestamp)].

(** A chat of the result. *)
Definition is_chat (chat : value) : Prop :=
  exists id title timestamp created_at messages,
    chat = VDict [(u "id", id); (u "title", title);
                  (u "timestamp", VStr timestamp);
                  (u "created_at", created_at);
                  (u "messages", VList messages)] /\
    Forall is_message messages.

(** A composer of the result: its id is not empty and can be a set
    member, its title is not empty. *)
Definition is_composer (safe_mode : bool) (composer : value) : Prop :=
  exists id title text created_at updated_at conversation,
    composer = VDict [(u "id", id); (u "title", title); (u "text", text);
                      (u "created_at", VStr created_at);
                      (u "updated_at", VStr updated_at);
                      (u "conversation", VList conversation)] /\
    truthy id = true /\ (exists k, py_hash id = Ret k) /\
    truthy title = true /\
    Forall is_message conversation /\
    (safe_mode = true -> conversation = []).

(** The condition under which the global database is read: some
    composer has neither text nor name. *)
Definition needs_details (composer_data : value) : bool :=
  match composer_data with
  | VDict d =>
      match dict_get (u "allComposers") d with
      | VList all =>
          match missing_data all with Ret true => true | _ => false end
      | _ => false
      end
  | _ => false
  end.

(** Tabs of which the second is a number. *)
Definition broken_tabs : list value :=
  [VDict [(u "tabId", VStr (u "first")); (u "bubbles", VList [])];
   VInt 5;
   VDict [(u "tabId", VStr (u "third"))]].

Definition broken_tab_fields : dict := [(u "tabs", VList broken_tabs)].

(** The id of a record. *)
Definition record_id (r : value) : value :=
  match r with
  | VDict d => dict_get (u "id") d
  | _ => VNone
  end.

(** The id of the record is a non-empty list. *)
Definition list_id (r : value) : bool :=
  match record_id r with
  | VList (_ :: _) => true
  | _ => false
  end.

(** The composers and the variable [result] at the end of
    [get_chat_data]. *)
Definition composers_read (E : env) (safe_mode : bool)
  (loads : pystr -> outcome value) (fetch : list value -> lookup)
  (composer_row : option pystr) : list value * binding :=
  match parsed_row loads composer_row with
  | Some composer_data => extract_composers E safe_mode fetch composer_data
  | None => ([], Kept)
  end.

(** [remove_duplicates(result)] on what [get_chat_data] returned:
    neither [None] nor a row has the method [get]. *)
Definition deduplicated (returned : extraction) : outcome value :=
  match returned with
  | Extracted result => Dedup.remove_duplicates result
  | Replaced _ => Raise AttributeError
  end.

(** A lookup that finds the table [cursorDiskKV] missing and no row
    in [ItemTable]. *)
Definition fallback_lookup : list value -> lookup :=
  fun _ => {| composer_details := Ret []; result_after := Rebound None |}.

(** A lookup from the body of whose [with] statement an exception
    escapes: the context manager turns it into a [RuntimeError]. *)
Definition failing_lookup : list value -> lookup :=
  fun _ => {| composer_details := Raise RuntimeError; result_after := Kept |}.

(** Composer data with one composer that has neither text nor name,
    and its row. *)
Definition bare_composer_data : value :=
  VDict [(u "allComposers", VList [VDict [(u "composerId", VStr (u "c1"))]])].

Definition bare_composer_row : pystr :=
  u "{" ++ Json.quoted (u "allComposers") ++ u ": [{"
    ++ Json.quoted (u "composerId") ++ u ": " ++ Json.quoted (u "c1") ++ u "}]}".

(** The chat data of one tab with one message. *)
Definition one_tab_doc : pystr :=
  u "{" ++ Json.quoted (u "tabs") ++ u ": [{" ++ Json.quoted (u "tabId") ++ u ": "
    ++ Json.quoted (u "t1") ++ u ", " ++ Json.quoted (u "bubbles") ++ u ": [{"
    ++ Json.quoted (u "type") ++ u ": " ++ Json.quoted (u "user") ++ u ", "
    ++ Json.quoted (u "text") ++ u ": " ++ Json.quoted (u "Hello") ++ u "}]}]}".

(** The chat data of one tab whose id is a list. *)
Definition list_id_doc : pystr :=
  u "{" ++ Json.quoted (u "tabs") ++ u ": [{" ++ Json.quoted (u "tabId") ++ u ": ["
    ++ Json.quoted (u "t1") ++ u "]}]}".

End ExtractorMore.

(* ================================================================= *)
(** ** [src/extractor/cursor_data_extractor.py]: the retries of [get_chat_data]

    The loop around the connection, the cursor and the two queries.
    The world is what each attempt finds; the result accumulates
    over the attempts, as the dict [result] of the source does, until
    the lookup of the detail records rebinds [result] to a row, which
    is then what the function returns. *)

Module Retry.

Import Platform FileUtils Extractor.

(** What a query of the workspace database answers: the value of the
    row ([None] when there is no row), or an exception. *)
Inductive query_answer : Type :=
| Fetched (row : option pystr)
| DatabaseLocked
| OtherOperationalError
| OtherException.

(** The world at one attempt: the database file as the accessor
    observes it, and what the cursor and the two queries answer once
    the connection is open. *)
Record attempt : Type := {
  file : DbUtils.db_file;
  cursor_opens : bool;
  chat_query : query_answer;
  composer_query : query_answer
}.

Definition max_retries (safe_mode : bool) : nat := if safe_mode then 5 else 3.

(** Seconds.  The delays of the loop are 0.5 and its products with
    1.5, dyadic fractions that the floats of the source hold exactly,
    so that exact rationals compute what the source computes. *)
Definition seconds : Type := QArith_base.Q.

(** [retry_delay = 0.5]. *)
Definition first_delay : seconds := QArith_base.Qmake 1 2.

(** [retry_delay *= 1.5]. *)
Definition next_delay (retry_delay : seconds) : seconds :=
  QArith_base.Qmult retry_delay (QArith_base.Qmake 3 2).

(** How the body of the [for] loop ends: with [continue] or by
    falling out of the [with] block, or with [return result], where
    [result] is the dict or the row it was rebound to. *)
Inductive step : Type :=
| Continue (chats : list value)
| Return (chats composers : list value)
| ReturnRow (row : option value).

(** What the loop leaves in [result]. *)
Inductive finished : Type :=
| Built (chats composers : list value)
| Row (row : option value).

Section Loop.

Variable E : env.
Variable safe_mode : bool.
Variable loads : pystr -> outcome value.
Variable fetch : list value -> lookup.

(** The chats appended for a fetched row. *)
Definition chats_of (row : option pystr) : list value :=
  match parsed_row loads row with
  | Some chat_data => extract_chats E chat_data
  | None => []
  end.

(** The composers appended for a fetched row, and the variable
    [result] afterwards. *)
Definition composers_of (row : option pystr) : list value * binding :=
  match parsed_row loads row with
  | Some composer_data => extract_composers E safe_mode fetch composer_data
  | None => ([], Kept)
  end.

(** The part of the body that reads the composers; [retry] is
    [attempt < max_retries - 1]. *)
Definition composer_part (retry : bool) (a : attempt) (chats : list value) : step :=
  match composer_query a with
  | Fetched row =>
      match composers_of row with
      | (composers, Kept) => Return chats composers
      | (_, Rebound fetched) => ReturnRow fetched
      end
  | DatabaseLocked => if retry then Continue chats else Return chats []
  | OtherOperationalError => Return chats []
  | OtherException => Return chats []
  end.

(** The body of the loop, [chats] being the chats of [result]. *)
Definition attempt_body (retry : bool) (a : attempt) (chats : list value) : step :=
  match DbUtils.safe_db_connection (file a) with
  | Ret (Some _) =>
      if cursor_opens a then
        match chat_query a with
        | Fetched row => composer_part retry a (chats ++ chats_of row)
        | DatabaseLocked =>
            if retry then Continue chats else composer_part retry a chats
        | OtherOperationalError => composer_part retry a chats
        | OtherException => composer_part retry a chats
        end
      else Continue chats
  | _ => Continue chats
  end.

(** The loop [for attempt in range(max_retries)], from the attempt
    number [attempt] on, with [remaining] attempts left.  [slept]
    lists the delays slept so far.  When the loop runs out, the result
    is returned as it is. *)
Fixpoint retry_loop (world : nat -> attempt) (remaining attempt : nat)
  (retry_delay : seconds) (chats : list value) (slept : list seconds)
  : finished * list seconds :=
  match remaining with
  | O => (Built chats [], slept)
  | S remaining' =>
      let slept' := if (attempt =? 0)%nat then slept else slept ++ [retry_delay] in
      let retry_delay' :=
        if (attempt =? 0)%nat then retry_delay else next_delay retry_delay in
      match attempt_body (negb (remaining' =? 0)%nat) (world attempt) chats with
      | Continue chats' =>
          retry_loop world remaining' (S attempt) retry_delay' chats' slept'
      | Return chats' composers => (Built chats' composers, slept')
      | ReturnRow fetched => (Row fetched, slept')
      end
  end.

(** [get_chat_data] with its retries: what it returns and the delays
    slept. *)
Definition get_chat_data (world : nat -> attempt)
  (workspace_id : pystr) (workspace_json : option (outcome pystr))
  : extraction * list seconds :=
  let workspace_path :=
    Locator.get_workspace_path loads (windows E) workspace_json in
  let '(result, slept) :=
    retry_loop world (max_retries safe_mode) 0 first_delay [] [] in
  (match result with
   | Built chats composers =>
       Extracted (VDict [(u "workspace_id", VStr workspace_id);
                         (u "workspace_path", VStr workspace_path);
                         (u "chats", VList chats);
                         (u "composers", VList composers)])
   | Row fetched => Replaced fetched
   end,
   slept).

(** The attempt reads the row of chats. *)
Definition reads_chats (a : attempt) : bool :=
  match DbUtils.safe_db_connection (file a) with
  | Ret (Some _) =>
      cursor_opens a &&
      match chat_query a with Fetched _ => true | _ => false end
  | _ => false
  end.

(** The chats that the attempt appends to the result. *)
Definition chats_read (a : attempt) : list value :=
  if reads_chats a then
    match chat_query a with
    | Fetched row => chats_of row
    | _ => []
    end
  else [].

End Loop.

(** The delays before the attempts 1, 2, ...: half a second, then
    half as much again each time. *)
Fixpoint backoff (n : nat) (retry_delay : seconds) : list seconds :=
  match n with
  | O => []
  | S n' => retry_delay :: backoff n' (next_delay retry_delay)
  end.

(** The sum of the delays. *)
Definition total (delays : list seconds) : seconds :=
  fold_right QArith_base.Qplus (QArith_base.Qmake 0 1) delays.

(** The attempts made when these delays were slept: one more than
    the delays, the first attempt being made at once. *)
Definition attempts_made (slept : list seconds) : list nat :=
  seq 0 (S (List.length slept)).

(** The result without chats and composers. *)
Definition empty_result (workspace_id workspace_path : pystr) : value :=
  VDict [(u "workspace_id", VStr workspace_id);
         (u "workspace_path", VStr workspace_path);
         (u "chats", VList []);
         (u "composers", VList [])].

(** A database file on which another process holds the lock. *)
Definition locked_db_file : DbUtils.db_file :=
  {| DbUtils.file_exists := true;
     DbUtils.readable := true;
     DbUtils.getsize := Ret 4096%N;
     DbUtils.platform_system := DbUtils.Posix;
     DbUtils.lock_module := true;
     DbUtils.opens_for_reading := true;
     DbUtils.opens_for_appending := true;
     DbUtils.lock_granted := false;
     DbUtils.connect_uri := DbUtils.DatabaseLocked;
     DbUtils.connect_direct := false |}.

(** The same file once the lock is released. *)
Definition free_db_file : DbUtils.db_file :=
  {| DbUtils.file_exists := true;
     DbUtils.readable := true;
     DbUtils.getsize := Ret 4096%N;
     DbUtils.platform_system := DbUtils.Posix;
     DbUtils.lock_module := true;
     DbUtils.opens_for_reading := true;
     DbUtils.opens_for_appending := true;
     DbUtils.lock_granted := true;
     DbUtils.connect_uri := DbUtils.Connected;
     DbUtils.connect_direct := true |}.

(** A world in which the file stays locked. *)
Definition locked_world : nat -> attempt :=
  fun _ => {| file := locked_db_file;
              cursor_opens := true;
              chat_query := Fetched (Some ExtractorMore.one_tab_doc);
              composer_query := Fetched None |}.

(** A world in which the composer query of the first attempt finds
    the database locked, and every later query is answered. *)
Definition locked_once_world : nat -> attempt :=
  fun i => {| file := free_db_file;
              cursor_opens := true;
              chat_query := Fetched (Some ExtractorMore.one_tab_doc);
              composer_query :=
                match i with
                | O => DatabaseLocked
                | S _ => Fetched None
                end |}.

(** A world in which the database is free and the composer query
    finds a composer without text and name. *)
Definition bare_composer_world : nat -> attempt :=
  fun _ => {| file := free_db_file;
              cursor_opens := true;
              chat_query := Fetched (Some ExtractorMore.one_tab_doc);
              composer_query := Fetched (Some ExtractorMore.bare_composer_row) |}.

End Retry.

(* ================================================================= *)
(** ** [src/extractor/cursor_data_extractor.py]: [main]

    The loop of [main] over the workspaces, from the list of the
    workspaces found on.

    The loop prints what it reads.  The standard output is taken to
    encode as UTF-8, which takes every text but one with a surrogate
    code point: [json.loads] gives such a text for an escape like
    [\ud800], and a directory name that is no UTF-8 is decoded to
    one.  So the messages of the program itself print, as do numbers,
    the messages of the exceptions and every value that is no [str],
    lists and dicts being printed with their strings escaped; a [str]
    from the data prints unless it holds a surrogate, and then
    [print] raises.  The storage directory has been printed before the
    loop begins. *)

Module Main.

Import Platform PyTime FileUtils Extractor Dedup.

(** What [main] does with a workspace depends on whether a step
    raises, not on what it raises: the handler around the workspace
    catches every exception, and an exception outside it ends the
    run.  [None] stands for an exception. *)
Definition and_then {A B} (m : option A) (k : A -> option B) : option B :=
  match m with
  | Some a => k a
  | None => None
  end.

Notation "x <~ m ;; k" := (and_then m (fun x => k))
  (at level 61, m at next level, right associativity).

Definition returned {A} (m : outcome A) : option A :=
  match m with
  | Ret a => Some a
  | Raise _ => None
  end.

(** [v[k]] for a [str] key: only a dict has it. *)
Definition getitem (v : value) (k : pystr) : option value :=
  match v with
  | VDict d => dict_lookup k d
  | _ => None
  end.

(** [v.get(k, [])]. *)
Definition get_list (v : value) (k : pystr) : option value :=
  d <~ returned (as_dict v) ;; Some (dict_get_default k (VList []) d).

(** [len(v)]. *)
Definition py_len (v : value) : option nat :=
  match v with
  | VStr s => Some (List.length s)
  | VList l => Some (List.length l)
  | VDict d => Some (List.length d)
  | _ => None
  end.

(** [v[0]]: the first item of a list, the first character of a
    [str]; a dict with [str] keys has no key 0. *)
Definition first_item (v : value) : option value :=
  match v with
  | VList (x :: _) => Some x
  | VStr (c :: _) => Some (VStr [c])
  | _ => None
  end.

(** *** Printing *)

Definition is_surrogate (c : N) : bool := ((55296 <=? c) && (c <=? 57343))%N.

(** The text can be encoded. *)
Definition printable (s : pystr) : bool := forallb (fun c => negb (is_surrogate c)) s.

(** The value, formatted into a line, can be encoded. *)
Definition value_prints (v : value) : bool :=
  match v with
  | VStr s => printable s
  | _ => true
  end.

(** [print(f"... {v} ...")]. *)
Definition prints (v : value) : option unit :=
  if value_prints v then Some tt else None.

(** *** The display of a result *)

(** [text[:50] + "..." if len(text) > 50 else text]: a list cannot be
    added to a [str], a dict cannot be sliced. *)
Definition preview (text : value) : option value :=
  n <~ py_len text ;;
  if (50 <? n)%nat then
    match text with
    | VStr s => Some (VStr (firstn 50 s ++ u "..."))
    | _ => None
    end
  else Some text.

(** The line of a chat, with its title and the number of its
    messages. *)
Definition shows_chat (chat : value) : option unit :=
  title <~ getitem chat (u "title") ;;
  messages <~ getitem chat (u "messages") ;;
  n <~ py_len messages ;;
  prints title.

(** The lines of a composer: that of its title and, outside the
    conservative mode, that of the type and the preview of its first
    message. *)
Definition shows_composer (safe_mode : bool) (composer : value) : option unit :=
  conversation <~ get_list composer (u "conversation") ;;
  msg_count <~ py_len conversation ;;
  title <~ getitem composer (u "title") ;;
  done <~ prints title ;;
  if (0 <? msg_count)%nat && negb safe_mode then
    conversation <~ getitem composer (u "conversation") ;;
    first_msg <~ first_item conversation ;;
    text <~ getitem first_msg (u "text") ;;
    shown <~ preview text ;;
    type <~ getitem first_msg (u "type") ;;
    done <~ prints type ;;
    prints shown
  else Some tt.

Fixpoint shows_each (shows : value -> option unit) (items : list value)
  : option unit :=
  match items with
  | [] => Some tt
  | item :: rest => done <~ shows item ;; shows_each shows rest
  end.

(** The block under [if result[field]:], a loop over the records. *)
Definition shows_all (shows : value -> option unit) (records : value) : option unit :=
  if truthy records then
    items <~ returned (py_iter records) ;; shows_each shows items
  else Some tt.

(** The body of the [try] after the deduplication: [Some false] for
    a result without data, [Some true] for a result that is
    displayed.  The line for a result without data names the
    workspace, whose id has been printed before. *)
Definition displayed (safe_mode : bool) (result : value) : option bool :=
  chats <~ getitem result (u "chats") ;;
  chat_count <~ py_len chats ;;
  no_data <~ (if (chat_count =? 0)%nat then
                composers <~ getitem result (u "composers") ;;
                composer_count <~ py_len composers ;;
                Some (composer_count =? 0)%nat
              else Some false) ;;
  if no_data then Some false
  else
    composers <~ getitem result (u "composers") ;;
    composer_count <~ py_len composers ;;
    shown <~ shows_all shows_chat chats ;;
    shown <~ shows_all (shows_composer safe_mode) composers ;;
    Some true.

(** *** The loop over the workspaces *)

(** What the run observes of a workspace: the name of its directory,
    the database file as [os.access] and [os.path.getsize] see it,
    and the world of the extraction. *)
Record workspace : Type := {
  workspace_id : pystr;
  readable : bool;
  size : outcome N;
  attempts : nat -> Retry.attempt;
  workspace_json : option (outcome pystr)
}.

(** The lists [all_results] and [skipped_workspaces]. *)
Definition lists : Type := (list value * list pystr)%type.

(** [skipped_workspaces.append(workspace_id)]. *)
Definition skip (st : lists) (w : workspace) : lists :=
  (fst st, snd st ++ [workspace_id w]).

Section Run.

Variable E : env.
Variable safe_mode : bool.
Variable loads : pystr -> outcome value.
Variable fetch : list value -> lookup.
Variable cursor_running : bool.
Variable active_workspace_markers : list pystr.

(** The workspace may be the active one: some marker occurs in its
    id. *)
Definition possibly_active (w : workspace) : bool :=
  cursor_running
  && existsb (fun marker => contains marker (workspace_id w)) active_workspace_markers.

(** The extraction and the deduplication of what it returned. *)
Definition extraction (w : workspace) : outcome value :=
  ExtractorMore.deduplicated
    (fst (Retry.get_chat_data E safe_mode loads fetch (attempts w)
            (workspace_id w) (workspace_json w))).

(** What follows the line that names the workspace: the checks of
    the file, and the [try] around the extraction, the deduplication
    and the display, whose handler skips the workspace. *)
Definition examined (st : lists) (w : workspace) : lists :=
  if negb (readable w) then skip st w
  else
    match size w with
    | Ret n =>
        if (n =? 0)%N then skip st w
        else
          match (result <~ returned (extraction w) ;;
                 data <~ displayed safe_mode result ;;
                 Some (result, data)) with
          | Some (result, true) => (fst st ++ [result], snd st)
          | Some (_, false) => skip st w
          | None => skip st w
          end
    | Raise _ => skip st w
    end.

(** The body of the loop.  Either way its first line names the
    workspace, outside every handler: [None] when that line cannot
    be printed, which ends the run. *)
Definition visit (st : lists) (w : workspace) : option lists :=
  if possibly_active w then
    done <~ prints (VStr (workspace_id w)) ;;
    Some (skip st w)
  else
    done <~ prints (VStr (workspace_id w)) ;;
    Some (examined st w).

Fixpoint visit_each (workspaces : list workspace) (st : lists) : option lists :=
  match workspaces with
  | [] => Some st
  | w :: rest => st' <~ visit st w ;; visit_each rest st'
  end.

(** The loop: the lists [all_results] and [skipped_workspaces] after
    it, [None] when it ends with an exception. *)
Definition visit_all (workspaces : list workspace) : option lists :=
  visit_each workspaces ([], []).

End Run.

(** *** Vocabulary for the properties *)

(** The workspace id of a result. *)
Definition result_id (result : value) : option value :=
  getitem result (u "workspace_id").

(** The title of the record can be printed. *)
Definition title_prints (record : value) : bool :=
  value_prints (Extractor.record_field (u "title") record).

(** The first message of a composer can be shown: its text is a
    [str] whose first fifty characters can be printed, or a list or
    dict of at most fifty entries, and its type can be printed. *)
Definition previewable (composer : value) : bool :=
  match Extractor.list_field (u "conversation") composer with
  | [] => true
  | first_msg :: _ =>
      match Extractor.message_text first_msg with
      | VStr s => printable (firstn 50 s)
      | VList l => (List.length l <=? 50)%nat
      | VDict d => (List.length d <=? 50)%nat
      | _ => false
      end
      && value_prints (Extractor.message_role first_msg)
  end.

(** A result as the extraction builds it: the id and the path of the
    workspace, chats and composers. *)
Definition is_result (safe_mode : bool) (result : value) : Prop :=
  exists id path chats composers,
    result = VDict [(u "workspace_id", VStr id);
                    (u "workspace_path", VStr path);
                    (u "chats", VList chats);
                    (u "composers", VList composers)] /\
    Forall ExtractorMore.is_chat chats /\
    Forall (ExtractorMore.is_composer safe_mode) composers.

(** The result has a chat or a composer, and within its chats, and
    within its composers, no id occurs twice. *)
Definition has_distinct_data (result : value) : Prop :=
  (DedupSpec.records (u "chats") result <> [] \/
   DedupSpec.records (u "composers") result <> []) /\
  NoDup (map DedupSpec.record_key (DedupSpec.records (u "chats") result)) /\
  NoDup (map DedupSpec.record_key (DedupSpec.records (u "composers") result)).

(** The composer data of one composer whose only message has a
    number as text. *)
Definition numeric_text_doc : pystr :=
  u "{" ++ Json.quoted (u "allComposers") ++ u ": [{"
    ++ Json.quoted (u "composerId") ++ u ": " ++ Json.quoted (u "c1") ++ u ", "
    ++ Json.quoted (u "name") ++ u ": " ++ Json.quoted (u "n") ++ u ", "
    ++ Json.quoted (u "conversation") ++ u ": [{"
    ++ Json.quoted (u "type") ++ u ": 1, "
    ++ Json.quoted (u "text") ++ u ": 42}]}]}".

(** The chat data of one tab, without bubbles, whose title is the
    escape of a lone surrogate. *)
Definition surrogate_title_doc : pystr :=
  u "{" ++ Json.quoted (u "tabs") ++ u ": [{"
    ++ Json.quoted (u "tabId") ++ u ": " ++ Json.quoted (u "t1") ++ u ", "
    ++ Json.quoted (u "chatTitle") ++ u ": " ++ Json.quoted (u "\ud800") ++ u "}]}".

(** A workspace whose database answers every query with the given
    rows. *)
Definition answering (id : pystr) (chat_row composer_row : option pystr) : workspace :=
  {| workspace_id := id;
     readable := true;
     size := Ret 4096%N;
     attempts := fun _ =>
       {| Retry.file := Retry.free_db_file;
          Retry.cursor_opens := true;
          Retry.chat_query := Retry.Fetched chat_row;
          Retry.composer_query := Retry.Fetched composer_row |};
     workspace_json := None |}.

(** A workspace whose database stays locked. *)
Definition locked_workspace (id : pystr) : workspace :=
  {| workspace_id := id;
     readable := true;
     size := Ret 4096%N;
     attempts := Retry.locked_world;
     workspace_json := None |}.

End Main.

(* ================================================================= *)
(** ** [src/core/db_utils.py]: the readers of the tables

    [get_db_path], [db_connect], [execute_query], [execute_query_one],
    [get_chat_data], [get_chat_by_id] and [get_composer_by_id]. *)

Module DbRows.

(** What the readers observe of the database of a workspace.  A row
    is the dict of its columns; the values of the columns are null,
    integers and text. *)
Record database : Type := {
  (** [get_db_path]: the file [.cursor/cursor.db] exists. *)
  db_exists : bool;
  (** [sqlite3.connect] returns. *)
  connects : bool;
  (** The rows of the table chats, newest first; [None] for an error
      of SQLite. *)
  chat_rows : option (list dict);
  (** The rows of the table composers. *)
  composer_rows : option (list dict)
}.

(** [execute_query]: an error of SQLite gives no rows. *)
Definition execute_query (answer : option (list dict)) : list dict :=
  match answer with
  | Some rows => rows
  | None => []
  end.


(** [json.loads(data)] under the bare [except]: [loads] is handed a
    [str]; anything else that is not empty raises a [TypeError]. *)
Definition decoded (loads : pystr -> outcome value) (data : value) : value :=
  match data with
  | VStr s =>
      match loads s with
      | Ret v => v
      | Raise _ => VNone
      end
  | _ => VNone
  end.

(** [dict(row)] with its column [data] decoded. *)
Definition decode_row (loads : pystr -> outcome value) (row : dict) : dict :=
  if dict_has (u "data") row && truthy (dict_get (u "data") row)
  then dict_set (u "data") (decoded loads (dict_get (u "data") row)) row
  else row.

Definition no_data : value :=
  VDict [(u "chats", VList []); (u "composers", VList [])].

Definition get_chat_data (loads : pystr -> outcome value) (db : database) : value :=
  if negb (db_exists db) then no_data
  else if negb (connects db) then no_data
  else
    VDict [(u "chats",
            VList (map (fun row => VDict (decode_row loads row))
                     (execute_query (chat_rows db))));
           (u "composers",
            VList (map (fun row => VDict (decode_row loads row))
                     (execute_query (composer_rows db))))].



(** A database with one chat whose data is JSON and one whose data
    is not. *)
Definition two_chat_db : database :=
  {| db_exists := true;
     connects := true;
     chat_rows :=
       Some [[(u "id", VInt 2); (u "data", VStr (u "{broken"))];
             [(u "id", VInt 1); (u "data", VStr (u "[1, 2]"))]];
     composer_rows := None |}.

End DbRows.

(* ================================================================= *)
(** * Properties *)

(** ** Python values *)

Section PyFacts.

Lemma str_eqb_eq a b : str_eqb a b = true <-> a = b.
Proof. unfold str_eqb. destruct (list_eq_dec N.eq_dec a b); split; congruence. Qed.

Lemma str_eqb_refl a : str_eqb a a = true.
Proof. now apply str_eqb_eq. Qed.

Lemma str_eqb_neq a b : str_eqb a b = false <-> a <> b.
Proof. unfold str_eqb. destruct (list_eq_dec N.eq_dec a b); split; congruence. Qed.

Lemma key_eqb_eq a b : key_eqb a b = true <-> a = b.
Proof. unfold key_eqb. destruct (key_eq_dec a b); split; congruence. Qed.

Lemma key_eqb_refl a : key_eqb a a = true.
Proof. now apply key_eqb_eq. Qed.

Lemma set_mem_In k seen : set_mem k seen = true <-> In k seen.
Proof.
  unfold set_mem. rewrite existsb_exists. split.
  - intros (x & Hx & E). apply key_eqb_eq in E. now subst.
  - intros H. exists k. split; [assumption | apply key_eqb_refl].
Qed.

Lemma set_mem_cons k k' seen :
  set_mem k (k' :: seen) = key_eqb k k' || set_mem k seen.
Proof. reflexivity. Qed.

Lemma dict_lookup_set_same k v d : dict_lookup k (dict_set k v d) = Some v.
Proof.
  induction d as [|[k' v'] d IH]; simpl.
  - now rewrite str_eqb_refl.
  - destruct (str_eqb k k') eqn:E; simpl; rewrite E; auto.
Qed.

Lemma dict_lookup_set_other k k' v d :
  k <> k' -> dict_lookup k (dict_set k' v d) = dict_lookup k d.
Proof.
  intros Hne. induction d as [|[k0 v0] d IH]; simpl.
  - apply str_eqb_neq in Hne. now rewrite Hne.
  - destruct (str_eqb k' k0) eqn:E; simpl.
    + apply str_eqb_eq in E. subst k0.
      apply str_eqb_neq in Hne. now rewrite Hne.
    + now rewrite IH.
Qed.

Lemma dict_get_default_some k default d v :
  dict_lookup k d = Some v -> dict_get_default k default d = v.
Proof. unfold dict_get_default. now intros ->. Qed.

Lemma dict_set_same k v d : dict_lookup k d = Some v -> dict_set k v d = d.
Proof.
  induction d as [|[k' v'] d IH]; simpl; [discriminate|].
  destruct (str_eqb k k') eqn:E.
  - intros [= ->]. reflexivity.
  - intros H. now rewrite IH.
Qed.

End PyFacts.

(** ** Deduplication *)

Section DedupFacts.

Import Dedup DedupSpec Samples.

Lemma item_key_record_key r k :
  item_key r = Some k <-> record_key r = Some k /\ nonempty_key k = true.
Proof.
  unfold item_key. destruct (record_key r) as [k'|].
  - destruct (nonempty_key k') eqn:E; split.
    + intros [= ->]. auto.
    + intros [[= ->] _]. reflexivity.
    + discriminate.
    + intros [[= ->] H]. congruence.
  - split; [discriminate | intros [H _]; discriminate].
Qed.

Lemma nonempty_key_hash v k :
  py_hash v = Ret k -> nonempty_key k = truthy v.
Proof.
  destruct v as [|b|z|s|l|d]; simpl; intros [= <-]; try reflexivity.
  now destruct b.
Qed.

(** A step that returns did what [keep_first] prescribes. *)
Lemma dedup_step_spec unique seen x st :
  dedup_step (unique, seen) x = Ret st ->
  st = match item_key x with
       | Some k => if set_mem k seen then (unique, seen)
                   else (unique ++ [x], k :: seen)
       | None => (unique, seen)
       end.
Proof.
  unfold dedup_step, item_key, record_key.
  destruct x as [| | | | |d]; simpl; try discriminate.
  destruct (truthy (dict_get (u "id") d)) eqn:T.
  - destruct (py_hash (dict_get (u "id") d)) as [k|e] eqn:H; simpl; [|discriminate].
    rewrite (nonempty_key_hash _ _ H), T.
    destruct (set_mem k seen); now intros [= <-].
  - intros [= <-].
    destruct (py_hash (dict_get (u "id") d)) as [k|e] eqn:H; [|reflexivity].
    now rewrite (nonempty_key_hash _ _ H), T.
Qed.

Lemma dedup_step_ok unique seen x :
  record_ok x = true -> exists st, dedup_step (unique, seen) x = Ret st.
Proof.
  unfold record_ok, dedup_step.
  destruct x as [| | | | |d]; simpl; try discriminate.
  destruct (truthy (dict_get (u "id") d)); simpl.
  - destruct (py_hash (dict_get (u "id") d)); simpl; [|discriminate].
    intros _. destruct (set_mem a seen); eauto.
  - eauto.
Qed.

Lemma dedup_loop_spec items : forall unique seen st,
  dedup_loop (unique, seen) items = Ret st ->
  fst st = unique ++ keep_first seen items.
Proof.
  induction items as [|x rest IH]; cbn [dedup_loop keep_first];
    intros unique seen st H.
  - injection H as <-. simpl. now rewrite app_nil_r.
  - destruct (dedup_step (unique, seen) x) as [st'|e] eqn:S;
      cbn [bind] in H; [|discriminate].
    apply dedup_step_spec in S. subst st'.
    destruct (item_key x) as [k|].
    + destruct (set_mem k seen).
      * now apply IH.
      * apply IH in H. rewrite H, <- app_assoc. reflexivity.
    + now apply IH.
Qed.

Lemma dedup_loop_ok items : forall st,
  forallb record_ok items = true -> exists st', dedup_loop st items = Ret st'.
Proof.
  induction items as [|x rest IH]; cbn [dedup_loop forallb]; intros [unique seen] H.
  - eauto.
  - apply andb_true_iff in H as [Hx Hr].
    destruct (dedup_step_ok unique seen x Hx) as [st' E]. rewrite E. cbn [bind].
    now apply IH.
Qed.

(** What [keep_first] keeps. *)

Lemma keep_first_subseq items : forall seen, subseq (keep_first seen items) items.
Proof.
  induction items as [|x rest IH]; simpl; intros seen.
  - constructor.
  - destruct (item_key x) as [k|]; [destruct (set_mem k seen)|];
      try (apply subseq_skip; apply IH).
    apply subseq_keep, IH.
Qed.

Lemma keep_first_In items : forall seen r,
  In r (keep_first seen items) ->
  In r items /\ exists k, item_key r = Some k /\ ~ In k seen.
Proof.
  induction items as [|x rest IH]; simpl; intros seen r H; [contradiction|].
  destruct (item_key x) as [k|] eqn:K.
  - destruct (set_mem k seen) eqn:M.
    + apply IH in H as [H1 H2]. auto.
    + destruct H as [<-|H].
      * split; [auto|]. exists k. split; [assumption|].
        intros Hin. apply set_mem_In in Hin. congruence.
      * apply IH in H as [H1 (k' & Hk & Hn)]. split; [auto|].
        exists k'. split; [assumption|]. intros Hin. apply Hn. now right.
  - apply IH in H as [H1 H2]. auto.
Qed.

Lemma has_key_item_key r k :
  item_key r = Some k -> forall k', has_key k' r = key_eqb k' k.
Proof.
  intros H k'. apply item_key_record_key in H as [H _].
  unfold has_key. now rewrite H.
Qed.

Lemma count_id_seen items : forall seen k,
  In k seen -> count_id k (keep_first seen items) = 0.
Proof.
  unfold count_id.
  induction items as [|x rest IH]; simpl; intros seen k Hin; [reflexivity|].
  destruct (item_key x) as [kx|] eqn:K; [|now apply IH].
  destruct (set_mem kx seen) eqn:M; [now apply IH|].
  simpl. rewrite (has_key_item_key _ _ K).
  destruct (key_eqb k kx) eqn:E.
  - apply key_eqb_eq in E. subst kx. apply set_mem_In in Hin. congruence.
  - apply IH. now right.
Qed.

Lemma count_id_keep_first items : forall seen k,
  ~ In k seen ->
  (exists r, In r items /\ item_key r = Some k) ->
  count_id k (keep_first seen items) = 1.
Proof.
  induction items as [|x rest IH]; simpl; intros seen k Hn (r & Hr & Hk);
    [contradiction|].
  destruct (item_key x) as [kx|] eqn:K.
  - destruct (set_mem kx seen) eqn:M.
    + apply IH; [assumption|]. destruct Hr as [->|Hr]; [|eauto].
      rewrite K in Hk. injection Hk as ->. apply set_mem_In in M. contradiction.
    + unfold count_id. simpl. rewrite (has_key_item_key _ _ K).
      destruct (key_eqb k kx) eqn:E.
      * apply key_eqb_eq in E. subst kx. simpl. f_equal.
        apply count_id_seen. now left.
      * apply IH.
        -- intros [->|Hin]; [|contradiction]. now rewrite key_eqb_refl in E.
        -- destruct Hr as [->|Hr]; [|eauto].
           rewrite K in Hk. injection Hk as ->. now rewrite key_eqb_refl in E.
  - apply IH; [assumption|]. destruct Hr as [->|Hr]; [congruence|eauto].
Qed.

(** A record without that id among the survivors: none was in the input. *)
Lemma count_id_absent items : forall seen k,
  (forall r, In r items -> item_key r <> Some k) ->
  count_id k (keep_first seen items) = 0.
Proof.
  unfold count_id.
  induction items as [|x rest IH]; simpl; intros seen k Hno; [reflexivity|].
  assert (Hrest : forall r, In r rest -> item_key r <> Some k) by (intros; apply Hno; auto).
  destruct (item_key x) as [kx|] eqn:K; [|now apply IH].
  destruct (set_mem kx seen); [now apply IH|].
  simpl. rewrite (has_key_item_key _ _ K).
  destruct (key_eqb k kx) eqn:E; [|now apply IH].
  apply key_eqb_eq in E. subst kx. exfalso. apply (Hno x); auto.
Qed.

Lemma has_key_no_item r k :
  item_key r = None -> nonempty_key k = true -> has_key k r = false.
Proof.
  unfold item_key, has_key. destruct (record_key r) as [k'|]; [|reflexivity].
  destruct (nonempty_key k') eqn:E; [discriminate|]. intros _ Hk.
  destruct (key_eqb k k') eqn:Q; [|reflexivity].
  apply key_eqb_eq in Q. congruence.
Qed.

(** The survivor carrying [k] is the first input record carrying [k]. *)
Lemma keep_first_first items : forall seen r k,
  In r (keep_first seen items) -> item_key r = Some k ->
  first_with k items = Some r.
Proof.
  unfold first_with.
  induction items as [|x rest IH]; simpl; intros seen r k Hin Hk; [contradiction|].
  assert (Hne : nonempty_key k = true) by (apply item_key_record_key in Hk; tauto).
  destruct (item_key x) as [kx|] eqn:K;
    [rewrite (has_key_item_key _ _ K) | rewrite (has_key_no_item _ _ K Hne)].
  - destruct (set_mem kx seen) eqn:M.
    + destruct (key_eqb k kx) eqn:E; [|eapply IH; eauto].
      apply key_eqb_eq in E. subst kx.
      apply keep_first_In in Hin as [_ (k' & Hk' & Hn)].
      rewrite Hk in Hk'. injection Hk' as <-. apply set_mem_In in M. contradiction.
    + destruct Hin as [<-|Hin].
      * rewrite K in Hk. injection Hk as ->. now rewrite key_eqb_refl.
      * destruct (key_eqb k kx) eqn:E; [|eapply IH; eauto].
        apply key_eqb_eq in E. subst kx.
        apply keep_first_In in Hin as [_ (k' & Hk' & Hn)].
        rewrite Hk in Hk'. injection Hk' as <-. exfalso. apply Hn. now left.
  - eapply IH; eauto.
Qed.

(** Running the loop on what it kept keeps everything. *)
Lemma keep_first_fixed items : forall seen seen',
  (forall k, In k seen' -> In k seen) ->
  keep_first seen' (keep_first seen items) = keep_first seen items.
Proof.
  induction items as [|x rest IH]; simpl; intros seen seen' Hsub; [reflexivity|].
  destruct (item_key x) as [k|] eqn:K; [|now apply IH].
  destruct (set_mem k seen) eqn:M; [now apply IH|].
  simpl. rewrite K.
  destruct (set_mem k seen') eqn:M'.
  - apply set_mem_In in M'. apply Hsub in M'. apply set_mem_In in M'. congruence.
  - f_equal. apply IH. intros k' [->|Hin]; [now left | right; auto].
Qed.

Lemma keep_first_record_ok items : forall seen,
  forallb record_ok (keep_first seen items) = true.
Proof.
  intros seen. apply forallb_forall. intros r Hr.
  apply keep_first_In in Hr as [_ (k & Hk & _)].
  apply item_key_record_key in Hk as [Hk _].
  unfold record_key in Hk. unfold record_ok.
  destruct r as [| | | | |d]; try discriminate.
  destruct (py_hash (dict_get (u "id") d)); [|discriminate].
  apply orb_true_r.
Qed.

Lemma unique_records_spec field d rs :
  unique_records field d = Ret rs ->
  rs = keep_first [] (records field (VDict d)).
Proof.
  unfold unique_records, records.
  destruct (dict_get_default field (VList []) d) as [| | |s|l|e]; simpl;
    try discriminate.
  - destruct s; simpl; [now intros [= <-] | discriminate].
  - destruct (dedup_loop ([], []) l) as [st|] eqn:L; simpl; [|discriminate].
    intros [= <-]. now apply dedup_loop_spec in L.
  - destruct e; simpl; [now intros [= <-] | discriminate].
Qed.

Lemma unique_records_ok field d :
  field_ok field d = true -> exists rs, unique_records field d = Ret rs.
Proof.
  unfold field_ok, unique_records, dict_get_default.
  destruct (dict_lookup field d) as [v|]; simpl.
  - destruct v; try discriminate. intros H. simpl.
    destruct (dedup_loop_ok l ([], []) H) as [st E]. rewrite E. simpl. eauto.
  - eauto.
Qed.

(** On a collection the loop produced, the loop changes nothing. *)
Lemma unique_records_fixed field d rs :
  dict_lookup field d = Some (VList (keep_first [] rs)) ->
  unique_records field d = Ret (keep_first [] rs).
Proof.
  intros H. unfold unique_records, dict_get_default. rewrite H. simpl.
  destruct (dedup_loop_ok (keep_first [] rs) ([], []) (keep_first_record_ok _ _))
    as [st E].
  rewrite E. simpl. apply dedup_loop_spec in E. rewrite E. simpl.
  f_equal. apply keep_first_fixed. auto.
Qed.

Lemma chats_neq_composers : u "chats" <> u "composers".
Proof. discriminate. Qed.

Lemma records_set_same field v d :
  records field (VDict (dict_set field (VList v) d)) = v.
Proof.
  unfold records, dict_get_default. now rewrite dict_lookup_set_same.
Qed.

Lemma records_set_other field field' v d :
  field <> field' ->
  records field (VDict (dict_set field' v d)) = records field (VDict d).
Proof.
  intros H. unfold records, dict_get_default. now rewrite dict_lookup_set_other.
Qed.

(** The result of [remove_duplicates], when it returns. *)
Lemma remove_duplicates_spec data out :
  remove_duplicates data = Ret out ->
  exists d,
    data = VDict d /\
    out = VDict (dict_set (u "composers")
                   (VList (keep_first [] (records (u "composers") data)))
                   (dict_set (u "chats")
                      (VList (keep_first [] (records (u "chats") data))) d)).
Proof.
  unfold remove_duplicates.
  destruct data as [| | | | |d]; simpl; try discriminate.
  destruct (unique_records (u "chats") d) as [cs|] eqn:C; cbn [bind]; [|discriminate].
  destruct (unique_records (u "composers") (dict_set (u "chats") (VList cs) d))
    as [ps|] eqn:P; cbn [bind]; [|discriminate].
  intros [= <-]. exists d. split; [reflexivity|].
  apply unique_records_spec in C, P. subst cs.
  rewrite records_set_other in P by (intros E; symmetry in E; revert E; apply chats_neq_composers).
  now subst ps.
Qed.

Lemma remove_duplicates_records data out field :
  remove_duplicates data = Ret out ->
  field = u "chats" \/ field = u "composers" ->
  records field out = keep_first [] (records field data).
Proof.
  intros H F. apply remove_duplicates_spec in H as (d & -> & ->).
  destruct F as [-> | ->].
  - rewrite records_set_other by apply chats_neq_composers.
    apply records_set_same.
  - apply records_set_same.
Qed.

Lemma remove_duplicates_returns data :
  well_formed data = true -> exists out, remove_duplicates data = Ret out.
Proof.
  unfold well_formed, remove_duplicates.
  destruct data as [| | | | |d]; try discriminate.
  intros H. apply andb_true_iff in H as [Hc Hp]. simpl.
  destruct (unique_records_ok _ _ Hc) as [cs C]. rewrite C. cbn [bind].
  assert (Hp' : field_ok (u "composers") (dict_set (u "chats") (VList cs) d) = true).
  { unfold field_ok. rewrite dict_lookup_set_other; [exact Hp|].
    intros E; symmetry in E; revert E; apply chats_neq_composers. }
  destruct (unique_records_ok _ _ Hp') as [ps P]. rewrite P. cbn [bind]. eauto.
Qed.

Lemma remove_duplicates_fixed data out :
  remove_duplicates data = Ret out -> remove_duplicates out = Ret out.
Proof.
  intros H. apply remove_duplicates_spec in H as (d & -> & ->).
  unfold remove_duplicates. cbn [as_dict bind].
  set (cs := keep_first [] (records (u "chats") (VDict d))).
  set (ps := keep_first [] (records (u "composers") (VDict d))).
  set (d1 := dict_set (u "chats") (VList cs) d).
  set (d2 := dict_set (u "composers") (VList ps) d1).
  assert (L1 : dict_lookup (u "chats") d2 = Some (VList cs)).
  { unfold d2. rewrite dict_lookup_set_other by apply chats_neq_composers.
    apply dict_lookup_set_same. }
  rewrite (unique_records_fixed _ _ _ L1). cbn [bind]. fold cs.
  rewrite (dict_set_same _ _ _ L1).
  assert (L2 : dict_lookup (u "composers") d2 = Some (VList ps))
    by apply dict_lookup_set_same.
  rewrite (unique_records_fixed _ _ _ L2). cbn [bind]. fold ps.
  now rewrite (dict_set_same _ _ _ L2).
Qed.

(** C2, as amended: deduplication is idempotent; every non-empty id
    that occurs among the input chats (resp. composers) is carried by
    exactly one output record; the output is the input with records
    left out, order kept, and the record kept for an id is the first
    input record with that id. *)
Theorem remove_duplicates_idempotent_unique_ordered (data : value) :
  (well_formed data = true -> exists out, remove_duplicates data = Ret out) /\
  forall out, remove_duplicates data = Ret out ->
    remove_duplicates out = Ret out /\
    forall field, field = u "chats" \/ field = u "composers" ->
      (forall r k, In r (records field data) -> record_key r = Some k ->
                   nonempty_key k = true ->
                   count_id k (records field out) = 1) /\
      subseq (records field out) (records field data) /\
      (forall r k, In r (records field out) -> record_key r = Some k ->
                   first_with k (records field data) = Some r).
Proof.
  split; [apply remove_duplicates_returns|].
  intros out H. split; [now apply (remove_duplicates_fixed data)|].
  intros field F. rewrite (remove_duplicates_records _ _ _ H F).
  split; [|split].
  - intros r k Hin Hk Hne. apply count_id_keep_first; [auto|].
    exists r. split; [assumption|]. now apply item_key_record_key.
  - apply keep_first_subseq.
  - intros r k Hin Hk.
    pose proof (keep_first_In _ _ _ Hin) as [_ (k' & Hk' & _)].
    assert (k' = k) as ->.
    { apply item_key_record_key in Hk' as [Hk' _]. congruence. }
    eapply keep_first_first; eauto.
Qed.

Lemma remove_duplicates_idempotent_unique_ordered_witness :
  exists out, remove_duplicates dup_sample = Ret out /\
              remove_duplicates out = Ret out.
Proof.
  destruct (remove_duplicates_idempotent_unique_ordered dup_sample) as [Hex Hall].
  destruct (Hex eq_refl) as [out Hout].
  exists out. split; [exact Hout | exact (proj1 (Hall out Hout))].
Defined.

(** C2, as stated, fails: the id [""] occurs in the input and no
    record with that id survives. *)
Lemma remove_duplicates_empty_id_lost :
  exists out,
    remove_duplicates empty_id_sample = Ret out /\
    ~ one_survivor_per_id (records (u "chats") empty_id_sample)
                          (records (u "chats") out).
Proof.
  exists (VDict [(u "chats", VList []); (u "composers", VList [])]).
  split; [reflexivity|].
  intros H.
  specialize (H (VDict [(u "id", VStr [])]) (KStr []) (or_introl eq_refl) eq_refl).
  discriminate H.
Qed.

(** C9: every chat and every composer in the output of
    [remove_duplicates] is a record with a non-empty id, so a record
    whose id is absent, null or the empty string is never kept,
    duplicate or not. *)
Theorem remove_duplicates_drops_empty_ids (data : value) :
  (well_formed data = true -> exists out, remove_duplicates data = Ret out) /\
  forall out, remove_duplicates data = Ret out ->
    forall field, field = u "chats" \/ field = u "composers" ->
      (forall r, In r (records field out) ->
         exists d, r = VDict d /\ truthy (dict_get (u "id") d) = true) /\
      (forall d, In (VDict d) (records field data) ->
         truthy (dict_get (u "id") d) = false ->
         ~ In (VDict d) (records field out)).
Proof.
  split; [apply remove_duplicates_returns|].
  intros out H field F. rewrite (remove_duplicates_records _ _ _ H F).
  assert (K : forall r, In r (keep_first [] (records field data)) ->
                exists d, r = VDict d /\ truthy (dict_get (u "id") d) = true).
  { intros r Hin. apply keep_first_In in Hin as [_ (k & Hk & _)].
    apply item_key_record_key in Hk as [Hk Hne].
    unfold record_key in Hk. destruct r as [| | | | |d]; try discriminate.
    exists d. split; [reflexivity|].
    destruct (py_hash (dict_get (u "id") d)) as [k'|] eqn:E; [|discriminate].
    injection Hk as ->. now rewrite <- (nonempty_key_hash _ _ E). }
  split; [exact K|].
  intros d _ Hf Hin. apply K in Hin as (d' & [= <-] & Ht). congruence.
Qed.

Lemma remove_duplicates_drops_empty_ids_witness :
  exists out, remove_duplicates no_id_sample = Ret out /\
    forall r, In r (records (u "chats") out) ->
      exists d, r = VDict d /\ truthy (dict_get (u "id") d) = true.
Proof.
  destruct (remove_duplicates_drops_empty_ids no_id_sample) as [Hex Hall].
  destruct (Hex eq_refl) as [out Hout].
  exists out. split; [exact Hout|].
  exact (proj1 (Hall out Hout (u "chats") (or_introl eq_refl))).
Defined.

(** C10: [remove_duplicates] changes only the entries ["chats"] and
    ["composers"] of the extraction result: every other field, such as
    [workspace_id] and [workspace_path], reads the same before and
    after. *)
Theorem remove_duplicates_frame (data : value) :
  (well_formed data = true -> exists out, remove_duplicates data = Ret out) /\
  forall out, remove_duplicates data = Ret out ->
    exists d d', data = VDict d /\ out = VDict d' /\
      (forall k, k <> u "chats" -> k <> u "composers" ->
                 dict_lookup k d' = dict_lookup k d) /\
      dict_lookup (u "workspace_id") d' = dict_lookup (u "workspace_id") d /\
      dict_lookup (u "workspace_path") d' = dict_lookup (u "workspace_path") d.
Proof.
  split; [apply remove_duplicates_returns|].
  intros out H. apply remove_duplicates_spec in H as (d & -> & ->).
  eexists _, _. split; [reflexivity|]. split; [reflexivity|].
  assert (K : forall k, k <> u "chats" -> k <> u "composers" ->
     dict_lookup k (dict_set (u "composers")
        (VList (keep_first [] (records (u "composers") (VDict d))))
        (dict_set (u "chats") (VList (keep_first [] (records (u "chats") (VDict d)))) d))
     = dict_lookup k d).
  { intros k H1 H2. now rewrite !dict_lookup_set_other. }
  split; [exact K|]. split; apply K; discriminate.
Qed.

Lemma remove_duplicates_frame_witness :
  exists out d', remove_duplicates dup_sample = Ret out /\ out = VDict d' /\
    dict_lookup (u "workspace_id") d' = Some (VStr (u "ws")).
Proof.
  destruct (remove_duplicates_frame dup_sample) as [Hex Hall].
  destruct (Hex eq_refl) as [out Hout].
  destruct (Hall out Hout) as (d & d' & Hd & Hd' & _ & Hid & _).
  exists out, d'. split; [exact Hout|]. split; [exact Hd'|].
  injection Hd as <-. exact Hid.
Defined.

End DedupFacts.

(** ** The tolerant parser *)

Section JsonFacts.

Import Json JsonUtils Samples.

Lemma loads_empty h : exists e, loads h [] = Raise (JSONDecodeError e).
Proof.
  unfold loads. cbn [skip_ws]. destruct (recursion_limit h); cbn; eauto.
Qed.

Lemma closer_not_space c : is_closer c = true -> is_space c = false.
Proof.
  unfold is_closer. intros H. apply orb_true_iff in H as [H|H];
    apply N.eqb_eq in H; subst c; reflexivity.
Qed.

Lemma comma_not_closer : is_closer COMMA = false.
Proof. reflexivity. Qed.

Lemma comma_not_space : is_space COMMA = false.
Proof. reflexivity. Qed.

(** A match never runs over a comma. *)
Lemma match_ws_closer_before_comma p rest :
  match_ws_closer (p ++ COMMA :: rest) = match_ws_closer p.
Proof.
  induction p as [|c p IH]; cbn [app match_ws_closer].
  - now rewrite comma_not_closer, comma_not_space.
  - now rewrite IH.
Qed.

Lemma match_ws_closer_length s cl n :
  match_ws_closer s = Some (cl, n) -> (n <= List.length s)%nat.
Proof.
  revert n. induction s as [|c s IH]; cbn [match_ws_closer]; intros n; [discriminate|].
  destruct (is_closer c).
  - intros [= _ <-]. simpl. lia.
  - destruct (is_space c); [|discriminate].
    destruct (match_ws_closer s) as [[cl' m]|]; [|discriminate].
    intros [= -> <-]. specialize (IH m eq_refl). simpl. lia.
Qed.

Lemma match_ws_closer_spaces ws c post :
  forallb is_space ws = true -> is_closer c = true ->
  match_ws_closer (ws ++ c :: post) = Some (c, S (List.length ws)).
Proof.
  intros Hws Hc. induction ws as [|w ws IH]; cbn [app match_ws_closer].
  - now rewrite Hc.
  - cbn [forallb] in Hws. apply andb_true_iff in Hws as [Hw Hws].
    destruct (is_closer w) eqn:E.
    + apply closer_not_space in E. congruence.
    + rewrite Hw, (IH Hws). reflexivity.
Qed.

(** The scan of a text up to a comma does not depend on what follows
    the comma. *)
Lemma sub_trailing_commas_app pre rest : forall k,
  (k <= List.length pre)%nat ->
  sub_trailing_commas k (pre ++ COMMA :: rest) =
  sub_trailing_commas k pre ++ sub_trailing_commas O (COMMA :: rest).
Proof.
  induction pre as [|c pre IH]; intros k Hk.
  - simpl in Hk. replace k with O by lia. reflexivity.
  - cbn [app sub_trailing_commas]. destruct k as [|k].
    + destruct (c =? COMMA)%N.
      * rewrite match_ws_closer_before_comma.
        destruct (match_ws_closer pre) as [[cl n]|] eqn:M.
        -- apply match_ws_closer_length in M. now rewrite IH.
        -- rewrite IH by lia. reflexivity.
      * rewrite IH by lia. reflexivity.
    + apply IH. simpl in Hk. lia.
Qed.

Lemma sub_trailing_commas_skip l rest :
  sub_trailing_commas (List.length l) (l ++ rest) = sub_trailing_commas O rest.
Proof.
  induction l as [|c l IH]; [reflexivity|]. cbn [List.length app sub_trailing_commas].
  exact IH.
Qed.

(** One trailing comma and nothing else for the pattern to match:
    the substitution deletes the comma and the whitespace after it. *)
Lemma strip_single_trailing_comma pre ws c post :
  is_closer c = true -> forallb is_space ws = true ->
  strip_trailing_commas pre = pre -> strip_trailing_commas post = post ->
  strip_trailing_commas (pre ++ COMMA :: ws ++ c :: post) = pre ++ c :: post.
Proof.
  unfold strip_trailing_commas. intros Hc Hws Hpre Hpost.
  rewrite sub_trailing_commas_app by lia. rewrite Hpre. f_equal.
  cbn [sub_trailing_commas]. rewrite N.eqb_refl.
  rewrite (match_ws_closer_spaces ws c post Hws Hc). f_equal.
  replace (S (List.length ws)) with (List.length (ws ++ [c]))
    by (rewrite length_app; simpl; lia).
  replace (ws ++ c :: post) with ((ws ++ [c]) ++ post)
    by (rewrite <- app_assoc; reflexivity).
  rewrite sub_trailing_commas_skip. exact Hpost.
Qed.

(** C4: on a string that the strict decoder accepts with value [v],
    [safe_parse_json] returns [(v, None)]. The empty string is not
    valid JSON. *)
Theorem safe_parse_json_valid
  (loads : pystr -> outcome value) (json_str : pystr) (v : value) :
  (forall v', loads [] <> Ret v') ->
  loads json_str = Ret v ->
  safe_parse_json loads json_str = Ret (v, VNone).
Proof.
  intros Hempty Hv. unfold safe_parse_json.
  destruct json_str as [|c r].
  - exfalso. exact (Hempty v Hv).
  - cbn [truthy negb]. now rewrite Hv.
Qed.

Lemma safe_parse_json_valid_witness :
  safe_parse_json strict_loads valid_doc =
  Ret (VDict [(u "key", VStr (u "value")); (u "number", VInt 42);
              (u "array", VList [VInt 1; VInt 2; VInt 3])], VNone).
Proof.
  apply (safe_parse_json_valid strict_loads valid_doc).
  - intros v' H. vm_compute in H. discriminate H.
  - vm_compute. reflexivity.
Defined.

(** C5, as stated, fails: with a comma and a closer inside a string
    literal, the repair also rewrites the literal, and the result is
    not the value of the comma-free text. *)
Lemma safe_parse_json_rewrites_string_literal :
  ~ repairs_to_comma_free strict_loads comma_in_string_doc comma_in_string_fixed.
Proof.
  intros (v & Hv & Hs). vm_compute in Hv, Hs.
  injection Hv as <-. discriminate Hs.
Qed.

(** C5, as amended: the input has a comma, then whitespace, then a
    closing brace or bracket; the pattern matches nowhere else in it;
    the strict decoder rejects it as it is and accepts, with value [v],
    the text without that comma and the whitespace after it.  Then
    [safe_parse_json] returns [(v, None)]. *)
Theorem safe_parse_json_trailing_comma
  (loads : pystr -> outcome value) (pre ws post e : pystr) (c : N) (v : value) :
  is_closer c = true ->
  forallb is_space ws = true ->
  strip_trailing_commas pre = pre ->
  strip_trailing_commas post = post ->
  loads (pre ++ COMMA :: ws ++ c :: post) = Raise (JSONDecodeError e) ->
  loads (pre ++ c :: post) = Ret v ->
  safe_parse_json loads (pre ++ COMMA :: ws ++ c :: post) = Ret (v, VNone).
Proof.
  intros Hc Hws Hpre Hpost Hraw Hclean. unfold safe_parse_json.
  assert (T : truthy (VStr (pre ++ COMMA :: ws ++ c :: post)) = true)
    by (destruct pre; reflexivity).
  rewrite T. cbn [negb]. rewrite Hraw.
  rewrite (strip_single_trailing_comma pre ws c post Hc Hws Hpre Hpost).
  now rewrite Hclean.
Qed.

Lemma safe_parse_json_trailing_comma_witness :
  safe_parse_json strict_loads (u "[1, 2, 3" ++ COMMA :: u " " ++ RBRACK :: []) =
  Ret (VList [VInt 1; VInt 2; VInt 3], VNone).
Proof.
  apply (safe_parse_json_trailing_comma strict_loads (u "[1, 2, 3") (u " ") []
           (u "Expecting value: line 1 column 11 (char 10)") RBRACK).
  - reflexivity.
  - reflexivity.
  - reflexivity.
  - reflexivity.
  - vm_compute. reflexivity.
  - vm_compute. reflexivity.
Defined.

End JsonFacts.

(** ** Timestamps and file names *)

Section FileFacts.

Import Platform PyTime FileUtils Samples.

Lemma digit_is_digit n : Json.is_ascii_digit (digit n) = true.
Proof.
  unfold Json.is_ascii_digit, digit.
  pose proof (Z.mod_pos_bound n 10 ltac:(lia)) as B.
  apply andb_true_iff. split; apply N.leb_le; lia.
Qed.

Lemma format_year_pad4 E y :
  pads_year E = true \/ (1000 <= y)%Z -> format_year E y = pad4 y.
Proof.
  unfold format_year. intros [-> | H]; [reflexivity|].
  apply Z.leb_le in H. rewrite H. now rewrite orb_true_r.
Qed.

Lemma format_year_length E y : (List.length (format_year E y) <= 4)%nat.
Proof.
  unfold format_year.
  destruct (pads_year E || (1000 <=? y)%Z); [simpl; lia|].
  destruct (y <? 10)%Z; [simpl; lia|].
  destruct (y <? 100)%Z; simpl; lia.
Qed.

Lemma strftime_full_shape E dt :
  pads_year E = true \/ (1000 <= year dt)%Z ->
  is_full_format (strftime_full E dt) = true.
Proof.
  intros H. unfold strftime_full. rewrite (format_year_pad4 E _ H).
  unfold pad4, pad2, is_full_format. cbn [app u map list_ascii_of_string].
  cbn [forallb]. rewrite !digit_is_digit. reflexivity.
Qed.

Lemma strftime_ymd_length E dt : (List.length (strftime_ymd E dt) <= 8)%nat.
Proof.
  unfold strftime_ymd. rewrite !length_app.
  pose proof (format_year_length E (year dt)). simpl. lia.
Qed.

(** What [fromtimestamp] returns is the local date and time, with
    its year in range. *)
Lemma local_ret E t dt :
  local E t = Ret dt -> dt = local_datetime E t /\ (1 <= year dt <= 9999)%Z.
Proof.
  unfold local.
  destruct (localtime_ok E t); cbn [negb]; [|discriminate].
  destruct (in_year_range (local_datetime E t)) eqn:R; cbn [negb]; [|discriminate].
  intros [= <-]. split; [reflexivity|].
  apply andb_true_iff in R as [Hlo Hhi]. apply Z.leb_le in Hlo, Hhi. lia.
Qed.

Lemma fromtimestamp_local E secs dt :
  fromtimestamp E secs = Ret dt -> local E secs = Ret dt.
Proof.
  unfold fromtimestamp.
  generalize (local E (secs - max_fold_seconds)).
  generalize (local E (secs + (utc_offset E secs
                                 - utc_offset E (secs - max_fold_seconds)))).
  intros probe2 probe1.
  destruct (local E secs) as [dt'|]; cbn [bind]; [|discriminate].
  destruct (windows E && (secs - max_fold_seconds <=? 0)%Z); [trivial|].
  destruct probe1; cbn [bind]; [|discriminate].
  destruct (_ <? 0)%Z; [|trivial].
  destruct probe2; cbn [bind]; [trivial | discriminate].
Qed.

Lemma fromtimestamp_ret E secs dt :
  fromtimestamp E secs = Ret dt ->
  dt = local_datetime E secs /\ (1 <= year dt <= 9999)%Z.
Proof.
  intros H. apply local_ret. now apply fromtimestamp_local.
Qed.

(** When the offset from UTC did not drop during the day before and
    both instants convert, [fromtimestamp] returns. *)
Lemma fromtimestamp_returns E secs :
  (utc_offset E (secs - max_fold_seconds) <= utc_offset E secs)%Z ->
  localtime_ok E secs = true ->
  localtime_ok E (secs - max_fold_seconds) = true ->
  in_year_range (local_datetime E secs) = true ->
  in_year_range (local_datetime E (secs - max_fold_seconds)) = true ->
  fromtimestamp E secs = Ret (local_datetime E secs).
Proof.
  intros Hoff L0 L1 R0 R1. unfold fromtimestamp, local.
  rewrite L0, R0. cbn [negb bind].
  destruct (windows E && _); [reflexivity|].
  rewrite L1, R1. cbn [negb bind].
  replace (_ <? 0)%Z with false; [reflexivity|].
  symmetry. apply Z.ltb_ge. lia.
Qed.

(** *** The calendar *)

Ltac div_lia := Z.div_mod_to_equations; lia.

(** The date computed for a day number is the date of that day. *)
Lemma days_from_civil_from_days z :
  let '(y, m, d) := civil_from_days z in days_from_civil y m d = z.
Proof.
  unfold civil_from_days, days_from_civil.
  set (z' := (z + 719468)%Z).
  set (era := (z' / 146097)%Z).
  set (doe := (z' - era * 146097)%Z).
  assert (Hdoe : (0 <= doe <= 146096)%Z).
  { unfold doe, era. pose proof (Z.div_mod z' 146097 ltac:(lia)).
    pose proof (Z.mod_pos_bound z' 146097 ltac:(lia)). lia. }
  assert (Hz : (z = era * 146097 + doe - 719468)%Z) by (unfold doe, z'; lia).
  clearbody doe. clearbody era. clear z'.
  set (yoe := ((doe - doe / 1460 + doe / 36524 - doe / 146096) / 365)%Z).
  assert (Hyoe : (0 <= yoe <= 399)%Z) by (unfold yoe; div_lia).
  set (doy := (doe - (365 * yoe + yoe / 4 - yoe / 100))%Z).
  assert (Hdoy : (0 <= doy <= 365)%Z) by (unfold doy, yoe; div_lia).
  assert (Hsum : (doe = yoe * 365 + yoe / 4 - yoe / 100 + doy)%Z)
    by (unfold doy; lia).
  clearbody doy. clearbody yoe.
  set (mp := ((5 * doy + 2) / 153)%Z).
  assert (Hmp : (0 <= mp <= 11)%Z) by (unfold mp; div_lia).
  assert (Hd : ((153 * mp + 2) / 5 <= doy < (153 * (mp + 1) + 2) / 5)%Z)
    by (unfold mp; div_lia).
  clearbody mp.
  destruct (mp <? 10)%Z eqn:M; [apply Z.ltb_lt in M | apply Z.ltb_ge in M].
  - replace (mp + 3 <=? 2)%Z with false by (symmetry; apply Z.leb_gt; lia).
    replace (2 <? mp + 3)%Z with true by (symmetry; apply Z.ltb_lt; lia).
    replace ((yoe + era * 400 + 0) / 400)%Z with era by div_lia.
    replace (mp + 3 - 3)%Z with mp by lia.
    replace (yoe + era * 400 + 0 - era * 400)%Z with yoe by lia. lia.
  - replace (mp - 9 <=? 2)%Z with true by (symmetry; apply Z.leb_le; lia).
    replace (2 <? mp - 9)%Z with false by (symmetry; apply Z.ltb_ge; lia).
    replace (yoe + era * 400 + 1 - 1)%Z with (yoe + era * 400)%Z by lia.
    replace ((yoe + era * 400) / 400)%Z with era by div_lia.
    replace (mp - 9 + 9)%Z with mp by lia.
    replace (yoe + era * 400 - era * 400)%Z with yoe by lia. lia.
Qed.

Lemma civil_from_days_range z y m d :
  civil_from_days z = (y, m, d) -> (1 <= m <= 12 /\ 1 <= d <= 31)%Z.
Proof.
  unfold civil_from_days. intros H.
  set (z' := (z + 719468)%Z) in *.
  set (era := (z' / 146097)%Z) in *.
  set (doe := (z' - era * 146097)%Z) in *.
  assert (Hdoe : (0 <= doe <= 146096)%Z).
  { unfold doe, era. pose proof (Z.div_mod z' 146097 ltac:(lia)).
    pose proof (Z.mod_pos_bound z' 146097 ltac:(lia)). lia. }
  clearbody doe.
  set (yoe := ((doe - doe / 1460 + doe / 36524 - doe / 146096) / 365)%Z) in *.
  set (doy := (doe - (365 * yoe + yoe / 4 - yoe / 100))%Z) in *.
  assert (Hdoy : (0 <= doy <= 365)%Z) by (unfold doy, yoe; div_lia).
  clearbody doy.
  set (mp := ((5 * doy + 2) / 153)%Z) in *.
  assert (Hmp : (0 <= mp <= 11)%Z) by (unfold mp; div_lia).
  apply pair_equal_spec in H as [H Hd]. apply pair_equal_spec in H as [_ Hm].
  split.
  - subst m. destruct (mp <? 10)%Z eqn:M;
      [apply Z.ltb_lt in M | apply Z.ltb_ge in M]; lia.
  - subst d. unfold mp. div_lia.
Qed.

(** Every field but the year fits its two digits. *)
Lemma of_seconds_fields t :
  let dt := of_seconds t in
  (1 <= month dt <= 12 /\ 1 <= day dt <= 31 /\ 0 <= hour dt <= 23 /\
   0 <= minute dt <= 59 /\ 0 <= second dt <= 59)%Z.
Proof.
  unfold of_seconds.
  destruct (civil_from_days (t / 86400)) as [[y m] d] eqn:C.
  apply civil_from_days_range in C. cbn [month day hour minute second].
  pose proof (Z.mod_pos_bound t 86400 ltac:(lia)).
  repeat split; try tauto; div_lia.
Qed.

(** C6, as amended: an absent or empty timestamp (None, the empty
    string, 0) renders as the text for unknown; a non-zero number of
    milliseconds that [datetime.fromtimestamp] converts, its local
    year between 1 and 9999, renders as that local date and time, in
    the fixed shape YYYY-MM-DD HH:MM:SS from the year 1000 on; any
    other value renders as its own [str]. *)
Theorem format_time_renders (E : env) (timestamp : value) :
  (truthy timestamp = false -> format_time E timestamp = unknown_text) /\
  (forall ms dt,
      truthy timestamp = true ->
      as_number timestamp = Some ms ->
      fromtimestamp E (ms / 1000) = Ret dt ->
      dt = local_datetime E (ms / 1000) /\
      (1 <= year dt <= 9999)%Z /\
      format_time E timestamp = strftime_full E dt /\
      (pads_year E = true \/ (1000 <= year dt)%Z ->
       is_full_format (format_time E timestamp) = true)) /\
  (truthy timestamp = true ->
   (as_number timestamp = None \/
    exists ms e, as_number timestamp = Some ms /\
                 fromtimestamp E (ms / 1000) = Raise e) ->
   format_time E timestamp = py_str E timestamp).
Proof.
  unfold format_time, fromtimestamp_ms. split; [|split].
  - intros ->. reflexivity.
  - intros ms dt Ht Hms Hdt. rewrite Ht, Hms, Hdt. cbn [negb].
    destruct (fromtimestamp_ret E _ _ Hdt) as [Hl Hy].
    repeat split; try assumption; try lia.
    apply strftime_full_shape.
  - intros -> [-> | (ms & e & -> & ->)]; reflexivity.
Qed.

Lemma format_time_renders_witness :
  format_time sample_env (VInt 1616161616161) = u "2021-03-19 13:46:56" /\
  format_time sample_env (VStr []) = unknown_text /\
  format_time sample_env (VStr (u "abc")) = u "abc".
Proof.
  destruct (format_time_renders sample_env (VInt 1616161616161)) as (_ & H & _).
  destruct (format_time_renders sample_env (VStr [])) as (H0 & _ & _).
  destruct (format_time_renders sample_env (VStr (u "abc"))) as (_ & _ & H1).
  split; [|split].
  - destruct (H 1616161616161%Z _ eq_refl eq_refl eq_refl) as (_ & _ & R & _).
    exact R.
  - exact (H0 eq_refl).
  - exact (H1 eq_refl (or_introl eq_refl)).
Defined.

(** C6, as stated, fails: a value that is no timestamp renders as
    itself, not as the text for unknown. *)
Lemma format_time_invalid_not_unknown :
  fromtimestamp_ms sample_env (VStr (u "abc")) = Raise TypeError /\
  format_time sample_env (VStr (u "abc")) = u "abc" /\
  format_time sample_env (VStr (u "abc")) <> unknown_text.
Proof. repeat split. discriminate. Qed.

(** *** The parts of the file name *)

Lemma search_some {A} (at_head : pystr -> option A) s x :
  search at_head s = Some x -> exists s', at_head s' = Some x.
Proof.
  induction s as [|c s IH]; cbn [search].
  - destruct (at_head []) eqn:E; [intros [= <-]; eauto | discriminate].
  - destruct (at_head (c :: s)) eqn:E; [intros [= <-]; eauto | exact IH].
Qed.

Lemma opt_sep_some {A} (k : pystr -> option A) s x :
  opt_sep k s = Some x -> exists s', k s' = Some x.
Proof.
  unfold opt_sep. destruct s as [|c r]; [eauto|].
  destruct (is_date_sep c); [|eauto].
  destruct (k r) eqn:E; [intros [= <-]; eauto | eauto].
Qed.

Lemma two_digits_some {A} E (k : pystr -> pystr -> option A) s x :
  two_digits E k s = Some x ->
  exists dd r, List.length dd = 2%nat /\ k dd r = Some x.
Proof.
  unfold two_digits. destruct s as [|a [|b r]]; try discriminate.
  destruct (unicode_decimal E a && unicode_decimal E b); [|discriminate].
  intros H. exists [a; b], r. auto.
Qed.

Lemma year_at_some {A} E (k : pystr -> pystr -> option A) s x :
  year_at E k s = Some x ->
  exists y r, List.length y = 4%nat /\ k y r = Some x.
Proof.
  unfold year_at. destruct s as [|a [|b r]]; try discriminate.
  destruct ((a =? 50) && (b =? 48))%N; [|discriminate].
  intros H. apply two_digits_some in H as (dd & r' & Hl & Hk).
  exists (a :: b :: dd), r'. split; [simpl; now rewrite Hl | exact Hk].
Qed.

Lemma date_at_lengths E s y m d :
  date_at E s = Some (y, m, d) ->
  List.length y = 4%nat /\ List.length m = 2%nat /\ List.length d = 2%nat.
Proof.
  unfold date_at. intros H.
  apply year_at_some in H as (y' & r1 & Hy & H).
  apply opt_sep_some in H as (s1 & H).
  apply two_digits_some in H as (m' & r2 & Hm & H).
  apply opt_sep_some in H as (s2 & H).
  apply two_digits_some in H as (d' & r3 & Hd & H).
  injection H as <- <- <-. auto.
Qed.

Lemma chat_date_length E v ts :
  chat_date E v = Some ts -> (List.length ts <= 8)%nat.
Proof.
  unfold chat_date. destruct (as_number v) as [secs|].
  - destruct (fromtimestamp E secs); [|discriminate].
    intros [= <-]. apply strftime_ymd_length.
  - destruct v as [| | |s| |]; try discriminate.
    destruct (contains (u "20") s); [|discriminate].
    destruct (search (date_at E) s) as [[[y m] d]|] eqn:D; [|discriminate].
    destruct (search (year_at E (fun y _ => Some y)) s) as [year|] eqn:Y;
      [|discriminate].
    intros [= <-].
    apply search_some in D as (s1 & D). apply date_at_lengths in D as (_ & Hm & Hd).
    apply search_some in Y as (s2 & Y).
    apply year_at_some in Y as (y' & r & Hy & [= ->]).
    rewrite !length_app, Hy, Hm, Hd. simpl. lia.
Qed.

Lemma composer_date_length E v ts :
  composer_date E v = Some ts -> (List.length ts <= 8)%nat.
Proof.
  unfold composer_date. destruct v as [| | |s| |]; try discriminate.
  destruct (truthy (VStr s) && contains (u "20") s); [|discriminate].
  destruct (search (date_at E) s) as [[[y m] d]|] eqn:D; [|discriminate].
  intros [= <-]. apply search_some in D as (s1 & D).
  apply date_at_lengths in D as (Hy & Hm & Hd).
  rewrite !length_app, Hy, Hm, Hd. simpl. lia.
Qed.

Lemma chats_timestamp_length E chats ts :
  chats_timestamp E chats = Ret (Some ts) -> (List.length ts <= 8)%nat.
Proof.
  induction chats as [|chat rest IH]; cbn [chats_timestamp]; [discriminate|].
  destruct (as_dict chat) as [d|]; cbn [bind]; [|discriminate].
  destruct (truthy (dict_get (u "created_at") d)); [|exact IH].
  destruct (chat_date E (dict_get (u "created_at") d)) as [ts'|] eqn:C; [|exact IH].
  intros [= <-]. eapply chat_date_length; eauto.
Qed.

Lemma composers_timestamp_length E composers ts :
  composers_timestamp E composers = Ret (Some ts) -> (List.length ts <= 8)%nat.
Proof.
  induction composers as [|c rest IH]; cbn [composers_timestamp]; [discriminate|].
  destruct (as_dict c) as [d|]; cbn [bind]; [|discriminate].
  destruct (composer_date E (dict_get (u "created_at") d)) as [ts'|] eqn:C; [|exact IH].
  intros [= <-]. eapply composer_date_length; eauto.
Qed.

(** The date part has at most eight characters. *)
Lemma file_timestamp_length E data ts :
  file_timestamp E data = Ret ts -> (List.length ts <= 8)%nat.
Proof.
  unfold file_timestamp.
  destruct (py_iter (dict_get_default (u "chats") (VList []) data)) as [chats|];
    cbn [bind]; [|discriminate].
  destruct (chats_timestamp E chats) as [[ts1|]|] eqn:C; cbn [bind]; try discriminate.
  - intros [= <-]. eapply chats_timestamp_length; eauto.
  - destruct (py_iter (dict_get_default (u "composers") (VList []) data))
      as [composers|]; cbn [bind]; [|discriminate].
    destruct (composers_timestamp E composers) as [[ts2|]|] eqn:P; cbn [bind];
      try discriminate.
    + intros [= <-]. eapply composers_timestamp_length; eauto.
    + destruct (fromtimestamp E (now E)); cbn [bind]; [|discriminate].
      intros [= <-]. apply strftime_ymd_length.
Qed.

Lemma last_part_id_length E parts :
  (List.length (last_part_id E parts) <= 21)%nat.
Proof.
  induction parts as [|part rest IH]; cbn [last_part_id]; [simpl; lia|].
  destruct (truthy (VStr part) && negb (str_eqb part (u ".") || str_eqb part (u "..")));
    [|exact IH].
  rewrite length_app, length_firstn. change (List.length (u "_")) with 1%nat. lia.
Qed.

Lemma path_id_length E workspace_path :
  (List.length (path_id E workspace_path) <= 21)%nat.
Proof.
  unfold path_id.
  destruct (truthy workspace_path && negb (py_eq_str workspace_path (u "Unknown")));
    [|simpl; lia].
  destruct workspace_path; try (simpl; lia). apply last_part_id_length.
Qed.

(** The length half of C3 holds: the file name has at most 200
    characters (in fact at most 37). *)
Lemma output_filename_length E data name :
  output_filename E data = Ret name -> (List.length name <= 37)%nat.
Proof.
  unfold output_filename.
  destruct (file_timestamp E data) as [ts|] eqn:T; cbn [bind]; [|discriminate].
  intros [= <-]. apply file_timestamp_length in T.
  pose proof (path_id_length E
    (dict_get_default (u "workspace_path") (VStr (u "unknown")) data)) as P.
  unfold make_filename, short_name.
  destruct (200 <? _)%nat; rewrite !length_app; simpl; lia.
Qed.

(** C3, the character half, at the repository's own test path: the
    pattern class [\w] keeps every Unicode letter, so the katakana of
    the last path segment reach the file name, although the comments
    of the code announce that non-ASCII characters are removed. *)
Theorem output_filename_keeps_non_ascii (E : env) (name : pystr) :
  Forall (fun c => unicode_alnum E c = true) katakana_test ->
  output_filename E katakana_path_data = Ret name ->
  (exists ts, name = u "ws_" ++ ts ++ u "_" ++ katakana_test ++ u ".json") /\
  (List.length name <= 200)%nat /\
  forallb filename_char name = false.
Proof.
  intros Hal Hname.
  pose proof (output_filename_length _ _ _ Hname) as Hlen.
  unfold output_filename in Hname.
  destruct (file_timestamp E katakana_path_data) as [ts|] eqn:T;
    cbn [bind] in Hname; [|discriminate].
  apply file_timestamp_length in T.
  assert (P : path_id E (dict_get_default (u "workspace_path") (VStr (u "unknown"))
                            katakana_path_data) = u "_" ++ katakana_test).
  { inversion Hal as [|c1 l1 H1 Hal1]; subst.
    inversion Hal1 as [|c2 l2 H2 Hal2]; subst.
    inversion Hal2 as [|c3 l3 H3 _]; subst.
    cbv - [unicode_alnum]. cbv in H1, H2, H3 |- *.
    unfold is_word. rewrite H1, H2, H3. reflexivity. }
  rewrite P in Hname. unfold make_filename in Hname.
  assert (L : (200 <? List.length (u "ws_" ++ ts ++ (u "_" ++ katakana_test) ++ u ".json"))%nat
              = false).
  { apply Nat.ltb_ge. rewrite !length_app. simpl. lia. }
  rewrite L in Hname. injection Hname as <-.
  split; [exists ts; reflexivity|]. split; [lia|].
  cbn [forallb]. rewrite forallb_app. cbn. apply andb_false_r.
Qed.

Lemma output_filename_keeps_non_ascii_witness :
  output_filename sample_env katakana_path_data =
    Ret (u "ws_20210701_" ++ katakana_test ++ u ".json") /\
  forallb filename_char (u "ws_20210701_" ++ katakana_test ++ u ".json") = false.
Proof.
  split; [reflexivity|].
  refine (proj2 (proj2 (output_filename_keeps_non_ascii sample_env _ _ eq_refl))).
  repeat constructor.
Defined.

End FileFacts.

(** ** The normaliser *)

Section ExtractorFacts.

Import Platform FileUtils Extractor DedupSpec Samples.

(** *** Chats *)











Lemma process_tabs_app E tabs : forall chats,
  process_tabs E tabs chats = chats ++ process_tabs E tabs [].
Proof.
  induction tabs as [|tab rest IH]; cbn [process_tabs]; intros chats.
  - now rewrite app_nil_r.
  - destruct (chat_info_of_tab E tab) as [chat|].
    + rewrite (IH (chats ++ [chat])), (IH ([] ++ [chat])).
      now rewrite <- app_assoc.
    + now rewrite app_nil_r.
Qed.





(** *** The rows *)




(** *** Composers *)

(** A conversation entry that is a non-empty dict is never skipped. *)
Lemma composer_message_kept E (msg : dict) :
  msg <> [] ->
  composer_message E (VDict msg) = Ret (Some (resolved_message E msg)).
Proof.
  intros H. unfold composer_message. destruct msg; [contradiction|]. reflexivity.
Qed.

Lemma dict_lookup_nonempty k (d : dict) v : dict_lookup k d = Some v -> d <> [].
Proof. destruct d; [discriminate | discriminate]. Qed.

Lemma dict_has_lookup k (d : dict) :
  dict_has k d = match dict_lookup k d with Some _ => true | None => false end.
Proof. reflexivity. Qed.

Lemma composer_message_entry E v :
  composer_message E v =
  match v with
  | VDict (e :: d) => Ret (Some (resolved_message E (e :: d)))
  | VDict [] | VNone | VBool false | VStr [] | VList [] => Ret None
  | VInt z => if (z =? 0)%Z then Ret None else Raise AttributeError
  | _ => Raise AttributeError
  end.
Proof.
  unfold composer_message.
  destruct v as [|[|]|z|[|c s]|[|x l]|[|e d]]; try reflexivity.
  cbn [truthy]. now destruct (z =? 0)%Z.
Qed.

(** The conversation of the result: the resolved entries, in order. *)
Lemma conversation_messages_spec E conversation : forall messages out,
  conversation_messages E conversation messages = Ret out ->
  out = messages ++ map (resolved_message E) (entries conversation).
Proof.
  induction conversation as [|v rest IH]; cbn [conversation_messages entries flat_map];
    intros messages out.
  - intros [= <-]. now rewrite app_nil_r.
  - rewrite composer_message_entry.
    destruct v as [|[|]|z|[|c s]|[|x l]|[|e d]]; cbn [bind app];
      try discriminate; try (apply IH).
    + destruct (z =? 0)%Z; cbn [bind]; [apply IH | discriminate].
    + intros H. apply IH in H. rewrite H, <- app_assoc. reflexivity.
Qed.
















(** *** The claims *)








(** The composer of the repository's tests, through the whole
    normaliser: the roles are user and assistant. *)
Lemma typed_composer_roles :
  exists composer,
    extract_composers sample_env false no_details typed_composer_data =
      ([composer], Kept) /\
    map message_role (list_field (u "conversation") composer) =
      [VStr (u "user"); VStr (u "assistant")].
Proof. eexists. split; reflexivity. Qed.

End ExtractorFacts.
(** ** The safe accessor *)

Section DbFacts.

Import DbUtils Samples.

(** The accessor never raises: an exception of the checks is turned
    into the signal. *)
Lemma safe_db_connection_returns f :
  exists conn, safe_db_connection f = Ret conn.
Proof.
  unfold safe_db_connection. destruct (get_db_connection f); eauto.
Qed.

(** C8: for a path that does not exist, is unreadable or names a
    file of size zero, the accessor returns the signal for an
    unavailable database, a null connection, and raises nothing: the
    body of the [with] statement runs with that null connection. *)
Theorem safe_db_connection_rejects (f : db_file) :
  rejected f ->
  get_db_connection f = Ret None /\
  safe_db_connection f = Ret None /\
  forall (A : Type) (body : option connection -> outcome A) (a : A),
    body None = Ret a -> with_safe_db_connection f body = Ret a.
Proof.
  intros H.
  assert (G : get_db_connection f = Ret None).
  { unfold get_db_connection.
    destruct (file_exists f) eqn:X; cbn [negb]; [|reflexivity].
    destruct (readable f) eqn:R; cbn [negb]; [|reflexivity].
    destruct H as [H | [H | H]]; try congruence.
    rewrite H. reflexivity. }
  assert (S : safe_db_connection f = Ret None).
  { unfold safe_db_connection. now rewrite G. }
  repeat split; [exact G | exact S |].
  intros A body a Hb. unfold with_safe_db_connection.
  rewrite S. cbn [bind]. now rewrite Hb.
Qed.

Lemma safe_db_connection_rejects_witness :
  safe_db_connection empty_db_file = Ret None.
Proof.
  refine (proj1 (proj2 (safe_db_connection_rejects empty_db_file _))).
  right. right. reflexivity.
Defined.

End DbFacts.

(* ================================================================= *)
(** * Further properties *)

(** ** Deduplication *)

Section DedupMoreFacts.

Import Dedup DedupSpec DedupMore Samples.

Lemma keep_first_keys_NoDup items : forall seen,
  NoDup (map record_key (keep_first seen items)).
Proof.
  induction items as [|x rest IH]; cbn [keep_first]; intros seen; [constructor|].
  destruct (item_key x) as [k|] eqn:K; [|apply IH].
  destruct (set_mem k seen); [apply IH|].
  cbn [map]. constructor; [|apply IH].
  apply item_key_record_key in K as [K _]. rewrite K.
  intros Hin. apply in_map_iff in Hin as (r & Hr & Hin).
  apply keep_first_In in Hin as [_ (k' & Hk' & Hn)].
  apply item_key_record_key in Hk' as [Hk' _].
  rewrite Hk' in Hr. injection Hr as ->. apply Hn. now left.
Qed.

(** X1: after deduplication no two chats, and no two composers,
    share an id. *)
Theorem remove_duplicates_ids_distinct (data out : value) (field : pystr) :
  remove_duplicates data = Ret out ->
  field = u "chats" \/ field = u "composers" ->
  NoDup (map record_key (records field out)).
Proof.
  intros H F. rewrite (remove_duplicates_records _ _ _ H F).
  apply keep_first_keys_NoDup.
Qed.

Lemma remove_duplicates_ids_distinct_witness :
  exists out, remove_duplicates dup_sample = Ret out /\
              NoDup (map record_key (records (u "chats") out)).
Proof.
  eexists. split; [reflexivity|].
  refine (remove_duplicates_ids_distinct dup_sample _ (u "chats") eq_refl
            (or_introl eq_refl)).
Defined.

(** The state of the loop after it ran through. *)
Lemma dedup_loop_seen items : forall unique seen st,
  dedup_loop (unique, seen) items = Ret st ->
  forallb record_ok items = true /\
  (forall k, In k seen -> In k (snd st)) /\
  (forall x k, In x items -> item_key x = Some k -> In k (snd st)).
Proof.
  induction items as [|x rest IH]; cbn [dedup_loop forallb]; intros unique seen st H.
  - injection H as <-. repeat split; auto. intros x k [].
  - destruct (dedup_step (unique, seen) x) as [st'|] eqn:S; cbn [bind] in H;
      [|discriminate].
    assert (Hok : record_ok x = true).
    { unfold dedup_step in S. unfold record_ok.
      destruct x as [| | | | |d]; try discriminate. cbn [as_dict bind] in S.
      destruct (truthy (dict_get (u "id") d)); [|reflexivity].
      destruct (py_hash (dict_get (u "id") d)); [reflexivity | discriminate]. }
    apply dedup_step_spec in S.
    rewrite Hok. cbn [andb].
    destruct (item_key x) as [kx|] eqn:K; [destruct (set_mem kx seen) eqn:M|];
      subst st'; destruct (IH _ _ _ H) as (Hrest & Hseen & Hkeys);
      (split; [exact Hrest|]); split.
    + exact Hseen.
    + intros y k [<-|Hy] Hk; [|eauto].
      apply Hseen. rewrite K in Hk. injection Hk as <-. now apply set_mem_In.
    + intros k Hk. apply Hseen. now right.
    + intros y k [<-|Hy] Hk; [|eauto].
      apply Hseen. rewrite K in Hk. injection Hk as <-. now left.
    + exact Hseen.
    + intros y k [<-|Hy] Hk; [congruence | eauto].
Qed.

(** Records whose ids were all seen leave the state as it is. *)
Lemma dedup_loop_all_seen items : forall unique seen,
  forallb record_ok items = true ->
  (forall x k, In x items -> item_key x = Some k -> In k seen) ->
  dedup_loop (unique, seen) items = Ret (unique, seen).
Proof.
  induction items as [|x rest IH]; cbn [dedup_loop forallb]; intros unique seen Hok Hin;
    [reflexivity|].
  apply andb_true_iff in Hok as [Hx Hrest].
  destruct (dedup_step_ok unique seen x Hx) as [st S]. rewrite S. cbn [bind].
  apply dedup_step_spec in S. subst st.
  destruct (item_key x) as [k|] eqn:K.
  - assert (M : set_mem k seen = true).
    { apply set_mem_In. apply (Hin x k); [now left | exact K]. }
    rewrite M. apply IH; [exact Hrest|]. intros y k' Hy. apply Hin. now right.
  - apply IH; [exact Hrest|]. intros y k' Hy. apply Hin. now right.
Qed.

Lemma dedup_loop_app items more : forall st,
  dedup_loop st (items ++ more) =
  (st' <- dedup_loop st items ;; dedup_loop st' more).
Proof.
  induction items as [|x rest IH]; intros st; cbn [app dedup_loop bind]; [reflexivity|].
  destruct (dedup_step st x) as [st'|]; cbn [bind]; [apply IH | reflexivity].
Qed.

Lemma dedup_loop_twice items :
  dedup_loop ([], []) (items ++ items) = dedup_loop ([], []) items.
Proof.
  rewrite dedup_loop_app.
  destruct (dedup_loop ([], []) items) as [[unique seen]|e] eqn:L; cbn [bind];
    [|reflexivity].
  destruct (dedup_loop_seen _ _ _ _ L) as (Hok & _ & Hkeys).
  apply dedup_loop_all_seen; [exact Hok | exact Hkeys].
Qed.

Lemma unique_records_twice field d items :
  unique_records field (dict_set field (VList (items ++ items)) d) =
  unique_records field (dict_set field (VList items) d).
Proof.
  unfold unique_records, dict_get_default.
  rewrite !dict_lookup_set_same. cbn [py_iter bind].
  now rewrite dedup_loop_twice.
Qed.

Lemma dict_set_twice k v v' d : dict_set k v (dict_set k v' d) = dict_set k v d.
Proof.
  induction d as [|[k0 v0] d IH]; cbn [dict_set].
  - now rewrite str_eqb_refl.
  - destruct (str_eqb k k0) eqn:E; cbn [dict_set]; rewrite E; [reflexivity|].
    now rewrite IH.
Qed.

Lemma dict_set_swap k k' v v' d :
  k <> k' ->
  dict_lookup k d <> None ->
  dict_set k v (dict_set k' v' d) = dict_set k' v' (dict_set k v d).
Proof.
  intros Hne. induction d as [|[k0 v0] d IH]; cbn [dict_set dict_lookup];
    [congruence|].
  destruct (str_eqb k k0) eqn:E; destruct (str_eqb k' k0) eqn:E'.
  - apply str_eqb_eq in E, E'. congruence.
  - intros _. cbn [dict_set]. now rewrite E, E'.
  - intros _. cbn [dict_set]. now rewrite E, E'.
  - intros H. cbn [dict_set]. rewrite E, E'. now rewrite IH.
Qed.

(** X2: the chats and composers of two identical extraction runs,
    put one after the other, deduplicate to what one run gives: the
    same result, or the same exception. *)
Theorem remove_duplicates_merged_runs (rest : dict) (chats composers : list value) :
  remove_duplicates (with_collections rest (chats ++ chats) (composers ++ composers)) =
  remove_duplicates (with_collections rest chats composers).
Proof.
  unfold remove_duplicates, with_collections. cbn [as_dict bind].
  set (dc := fun cs => dict_set (u "chats") (VList cs) rest).
  change (dict_set (u "chats") (VList (chats ++ chats)) rest) with (dc (chats ++ chats)).
  change (dict_set (u "chats") (VList chats) rest) with (dc chats).
  assert (U : forall cs ps,
    unique_records (u "chats") (dict_set (u "composers") (VList ps) (dc cs)) =
    unique_records (u "chats") (dc cs)).
  { intros cs ps. unfold unique_records, dict_get_default.
    rewrite dict_lookup_set_other by apply chats_neq_composers. reflexivity. }
  rewrite !U.
  assert (T : unique_records (u "chats") (dc (chats ++ chats)) =
              unique_records (u "chats") (dc chats))
    by apply unique_records_twice.
  rewrite T.
  destruct (unique_records (u "chats") (dc chats)) as [cs|]; cbn [bind]; [|reflexivity].
  assert (R : forall cs0 ps,
    dict_set (u "chats") (VList cs) (dict_set (u "composers") (VList ps) (dc cs0)) =
    dict_set (u "composers") (VList ps) (dc cs)).
  { intros cs0 ps. rewrite dict_set_swap.
    - unfold dc. now rewrite dict_set_twice.
    - apply chats_neq_composers.
    - unfold dc. rewrite dict_lookup_set_same. discriminate. }
  rewrite !R. rewrite unique_records_twice.
  destruct (unique_records (u "composers") _) as [ps|]; cbn [bind]; [|reflexivity].
  now rewrite !dict_set_twice.
Qed.

Lemma unique_records_runs field d :
  (exists rs, unique_records field d = Ret rs) <-> field_runs field d = true.
Proof.
  unfold unique_records, field_runs.
  destruct (py_iter (dict_get_default field (VList []) d)) as [items|]; cbn [bind].
  - split.
    + intros (rs & H).
      destruct (dedup_loop ([], []) items) as [st|] eqn:L; cbn [bind] in H;
        [|discriminate].
      now apply dedup_loop_seen in L.
    + intros H. destruct (dedup_loop_ok items ([], []) H) as [st L].
      rewrite L. cbn [bind]. eauto.
  - split; [intros (rs & H); discriminate | discriminate].
Qed.

Lemma field_runs_set_other field field' v d :
  field <> field' -> field_runs field (dict_set field' v d) = field_runs field d.
Proof.
  intros H. unfold field_runs, dict_get_default.
  now rewrite dict_lookup_set_other.
Qed.

(** X3: [remove_duplicates] returns exactly when its argument is a
    dict whose chats and composers, where present, can be iterated
    and hold only dicts with an empty or hashable id; otherwise it
    raises. *)
Theorem remove_duplicates_returns_iff (data : value) :
  (exists out, remove_duplicates data = Ret out) <-> runs_through data = true.
Proof.
  unfold remove_duplicates, runs_through.
  destruct data as [| | | | |d]; cbn [as_dict bind];
    try (split; [intros (out & H); discriminate | discriminate]).
  assert (Hne : u "composers" <> u "chats")
    by (intros E; symmetry in E; exact (chats_neq_composers E)).
  split.
  - intros (out & H).
    destruct (unique_records (u "chats") d) as [cs|] eqn:C; cbn [bind] in H;
      [|discriminate].
    destruct (unique_records (u "composers") _) as [ps|] eqn:P; cbn [bind] in H;
      [|discriminate].
    apply andb_true_iff. split.
    + apply unique_records_runs. eauto.
    + rewrite <- (field_runs_set_other _ (u "chats") (VList cs) d Hne).
      apply unique_records_runs. eauto.
  - intros H. apply andb_true_iff in H as [Hc Hp].
    apply unique_records_runs in Hc as (cs & C). rewrite C. cbn [bind].
    rewrite <- (field_runs_set_other _ (u "chats") (VList cs) d Hne) in Hp.
    apply unique_records_runs in Hp as (ps & P). rewrite P. cbn [bind]. eauto.
Qed.

Lemma keep_first_all items : forall seen,
  all_identified items ->
  NoDup (map record_key items) ->
  (forall r k, In r items -> item_key r = Some k -> ~ In k seen) ->
  keep_first seen items = items.
Proof.
  induction items as [|x rest IH]; cbn [keep_first map]; intros seen Hid Hnd Hseen;
    [reflexivity|].
  inversion Hid as [|? ? (k & K) Hid']; subst.
  inversion Hnd as [|? ? Hx Hnd']; subst.
  rewrite K.
  assert (M : set_mem k seen = false).
  { destruct (set_mem k seen) eqn:M; [|reflexivity].
    apply set_mem_In in M. exfalso. exact (Hseen x k (or_introl eq_refl) K M). }
  rewrite M. f_equal. apply IH; [exact Hid' | exact Hnd' |].
  intros r k' Hr Hk' [<-|Hin].
  - apply Hx. apply in_map_iff. exists r. split; [|exact Hr].
    apply item_key_record_key in K as [K _].
    apply item_key_record_key in Hk' as [Hk' _]. congruence.
  - exact (Hseen r k' (or_intror Hr) Hk' Hin).
Qed.

(** X4: an extraction result whose chats all have a non-empty id, no
    two the same, and likewise its composers, is returned as it
    is. *)
Theorem remove_duplicates_unique_unchanged
  (d : dict) (chats composers : list value) :
  dict_lookup (u "chats") d = Some (VList chats) ->
  dict_lookup (u "composers") d = Some (VList composers) ->
  all_identified chats -> NoDup (map record_key chats) ->
  all_identified composers -> NoDup (map record_key composers) ->
  remove_duplicates (VDict d) = Ret (VDict d).
Proof.
  intros Lc Lp Ic Nc Ip Np.
  assert (Kc : keep_first [] chats = chats)
    by (apply keep_first_all; auto).
  assert (Kp : keep_first [] composers = composers)
    by (apply keep_first_all; auto).
  unfold remove_duplicates. cbn [as_dict bind].
  rewrite <- Kc in Lc. rewrite (unique_records_fixed _ _ _ Lc). cbn [bind].
  rewrite (dict_set_same _ _ _ Lc).
  rewrite <- Kp in Lp. rewrite (unique_records_fixed _ _ _ Lp). cbn [bind].
  now rewrite (dict_set_same _ _ _ Lp).
Qed.

Lemma remove_duplicates_unique_unchanged_witness :
  remove_duplicates unique_sample = Ret unique_sample.
Proof.
  refine (remove_duplicates_unique_unchanged unique_fields
            [VDict [(u "id", VStr (u "a"))]; VDict [(u "id", VInt 7)]]
            [VDict [(u "id", VStr (u "a")); (u "title", VStr (u "t"))]]
            eq_refl eq_refl _ _ _ _).
  - repeat constructor; eexists; reflexivity.
  - repeat constructor; cbn; intuition discriminate.
  - repeat constructor; eexists; reflexivity.
  - repeat constructor; cbn; intuition discriminate.
Defined.

End DedupMoreFacts.

(** ** The tolerant parser *)

Section JsonMoreFacts.

Import Json JsonUtils JsonMore Samples.

(** X5: [safe_parse_json] raises only what the first [json.loads]
    raises, and never a decoding error; when it returns, either the
    error is null, or the value is null and the error is the message
    for an empty input or carries the message of the first decoding
    error. *)
Theorem safe_parse_json_outcomes (loads : pystr -> outcome value) (json_str : pystr) :
  (forall e, safe_parse_json loads json_str = Raise e ->
     loads json_str = Raise e /\ forall m, e <> JSONDecodeError m) /\
  (forall v err, safe_parse_json loads json_str = Ret (v, err) ->
     err = VNone \/
     (v = VNone /\
      ((json_str = [] /\ err = VStr empty_message) \/
       exists m, loads json_str = Raise (JSONDecodeError m) /\
                 err = VStr (error_prefix ++ m)))).
Proof.
  unfold safe_parse_json.
  destruct json_str as [|c r]; cbn [truthy negb].
  - split; [discriminate|]. intros v err [= <- <-]. right. auto.
  - destruct (loads (c :: r)) as [v0|e0] eqn:L0.
    + split; [discriminate|]. intros v err [= <- <-]. now left.
    + destruct e0 as [| | | | | | |m];
        try (split; [intros e [= <-]; split; [reflexivity | discriminate]
                    | discriminate]).
      split.
      * intros e.
        destruct (loads (strip_trailing_commas (c :: r))); [discriminate|].
        match goal with |- context [match ?t with _ => _ end] => destruct t end;
          intros H; discriminate H.
      * intros v err.
        destruct (loads (strip_trailing_commas (c :: r)));
          [intros [= <- <-]; now left|].
        match goal with |- context [match ?t with _ => _ end] => destruct t end;
          intros [= <- <-]; [now left|].
        right. split; [reflexivity|]. right. exists m. auto.
Qed.

Lemma safe_parse_json_outcomes_witness :
  exists m, strict_loads unclosed_doc = Raise (JSONDecodeError m) /\
    safe_parse_json strict_loads unclosed_doc = Ret (VNone, VStr (error_prefix ++ m)).
Proof.
  destruct (safe_parse_json_outcomes strict_loads unclosed_doc) as [_ H].
  destruct (safe_parse_json strict_loads unclosed_doc) as [[v err]|e] eqn:P;
    [|vm_compute in P; discriminate P].
  destruct (H v err eq_refl) as [-> | (-> & [[E _] | (m & Hm & ->)])].
  - vm_compute in P. discriminate P.
  - vm_compute in E. discriminate E.
  - exists m. split; [exact Hm | reflexivity].
Defined.

Lemma match_ws_closer_some s cl n :
  match_ws_closer s = Some (cl, n) ->
  exists ws rest,
    s = ws ++ cl :: rest /\ forallb is_space ws = true /\
    is_closer cl = true /\ n = S (List.length ws).
Proof.
  revert n. induction s as [|c s IH]; cbn [match_ws_closer]; intros n; [discriminate|].
  destruct (is_closer c) eqn:C.
  - intros [= <- <-]. exists [], s. auto.
  - destruct (is_space c) eqn:W; [|discriminate].
    destruct (match_ws_closer s) as [[cl' m]|]; [|discriminate].
    intros [= -> <-]. destruct (IH m eq_refl) as (ws & rest & -> & Hws & Hcl & ->).
    exists (c :: ws), rest. cbn [forallb]. rewrite W, Hws. auto.
Qed.

(** A matched trailing comma: the comma and the whitespace go, the
    closer stays, and the scan goes on after it. *)
Lemma strip_at_comma ws c post :
  forallb is_space ws = true -> is_closer c = true ->
  strip_trailing_commas (COMMA :: ws ++ c :: post) = c :: strip_trailing_commas post.
Proof.
  intros Hws Hc. unfold strip_trailing_commas. cbn [sub_trailing_commas].
  rewrite N.eqb_refl, (match_ws_closer_spaces ws c post Hws Hc). f_equal.
  replace (S (List.length ws)) with (List.length (ws ++ [c]))
    by (rewrite length_app; simpl; lia).
  replace (ws ++ c :: post) with ((ws ++ [c]) ++ post)
    by (rewrite <- app_assoc; reflexivity).
  apply sub_trailing_commas_skip.
Qed.

(** X6: the repair of a trailing comma does not depend on the text
    around it: the substitution on a text with a comma, whitespace and
    a closer is the substitution on what precedes, the closer, and the
    substitution on what follows, so that any number of trailing
    commas go in one pass. *)
Theorem strip_trailing_commas_local (pre ws post : pystr) (c : N) :
  is_closer c = true ->
  forallb is_space ws = true ->
  strip_trailing_commas (pre ++ COMMA :: ws ++ c :: post) =
  strip_trailing_commas pre ++ c :: strip_trailing_commas post.
Proof.
  intros Hc Hws. unfold strip_trailing_commas.
  rewrite sub_trailing_commas_app by lia. f_equal.
  now apply strip_at_comma.
Qed.

Lemma strip_trailing_commas_local_witness :
  strip_trailing_commas two_commas_doc = u "{" ++ quoted (u "a") ++ u ":[1,2]}" /\
  safe_parse_json strict_loads two_commas_doc =
    Ret (VDict [(u "a", VList [VInt 1; VInt 2])], VNone).
Proof.
  split; [|vm_compute; reflexivity].
  unfold two_commas_doc.
  replace (u "{" ++ quoted (u "a") ++ u ":[1,2" ++ COMMA :: u " " ++ RBRACK ::
             (COMMA :: [] ++ RBRACE :: []))
    with ((u "{" ++ quoted (u "a") ++ u ":[1,2") ++ COMMA :: u " " ++ RBRACK ::
             (COMMA :: [] ++ RBRACE :: [])) by reflexivity.
  rewrite (strip_trailing_commas_local _ (u " ") _ RBRACK eq_refl eq_refl).
  reflexivity.
Defined.

Lemma significant_app a b : significant (a ++ b) = significant a ++ significant b.
Proof. apply filter_app. Qed.

Lemma significant_spaces ws : forallb is_space ws = true -> significant ws = [].
Proof.
  induction ws as [|w ws IH]; cbn [forallb significant filter]; [reflexivity|].
  intros H. apply andb_true_iff in H as [Hw Hws]. rewrite Hw, orb_true_r.
  cbn [negb]. now apply IH.
Qed.

Lemma strip_significant_bounded n : forall s,
  (List.length s <= n)%nat ->
  significant (strip_trailing_commas s) = significant s.
Proof.
  induction n as [|n IH]; intros s Hn.
  - destruct s; [reflexivity | simpl in Hn; lia].
  - destruct s as [|c r]; [reflexivity|].
    cbn [List.length] in Hn.
    unfold strip_trailing_commas. cbn [sub_trailing_commas].
    destruct (c =? COMMA)%N eqn:E.
    + apply N.eqb_eq in E. subst c.
      destruct (match_ws_closer r) as [[cl k]|] eqn:M.
      * apply match_ws_closer_some in M as (ws & rest & -> & Hws & Hcl & ->).
        fold (strip_trailing_commas (COMMA :: ws ++ cl :: rest)).
        replace (cl :: sub_trailing_commas (S (List.length ws)) (ws ++ cl :: rest))
          with (strip_trailing_commas (COMMA :: ws ++ cl :: rest)).
        2:{ unfold strip_trailing_commas. cbn [sub_trailing_commas].
            now rewrite N.eqb_refl, (match_ws_closer_spaces ws cl rest Hws Hcl). }
        rewrite (strip_at_comma ws cl rest Hws Hcl).
        change (COMMA :: ws ++ cl :: rest) with ([COMMA] ++ ws ++ cl :: rest).
        rewrite !significant_app, (significant_spaces ws Hws).
        change (cl :: strip_trailing_commas rest)
          with ([cl] ++ strip_trailing_commas rest).
        change (cl :: rest) with ([cl] ++ rest).
        rewrite !significant_app. cbn [app].
        rewrite IH; [reflexivity|].
        rewrite length_app in Hn. simpl in Hn. lia.
      * cbn [significant filter]. rewrite N.eqb_refl. cbn [orb negb].
        apply IH. lia.
    + cbn [significant filter]. rewrite E. cbn [orb].
      destruct (negb (is_space c)); [f_equal|]; apply IH; lia.
Qed.

(** X7: the repair deletes nothing but commas and whitespace: the
    text before and the text after hold the same other characters in
    the same order, and the text does not grow. *)
Theorem strip_trailing_commas_keeps_significant (s : pystr) :
  significant (strip_trailing_commas s) = significant s /\
  (List.length (strip_trailing_commas s) <= List.length s)%nat.
Proof.
  split; [apply (strip_significant_bounded (List.length s)); lia|].
  unfold strip_trailing_commas.
  assert (G : forall s k, (List.length (sub_trailing_commas k s) <= List.length s)%nat).
  { clear s. induction s as [|c r IH]; intros k; cbn [sub_trailing_commas List.length];
      [lia|].
    destruct k as [|k]; [|specialize (IH k); lia].
    destruct (c =? COMMA)%N; [destruct (match_ws_closer r) as [[cl n]|]|];
      cbn [List.length]; [specialize (IH n) | specialize (IH O) | specialize (IH O)];
      lia. }
  apply G.
Qed.

End JsonMoreFacts.

(** ** File names *)

Section FileMoreFacts.

Import Platform PyTime FileUtils FileMore Samples.

Lemma ascii_digit_filename_char c :
  Json.is_ascii_digit c = true -> filename_char c = true.
Proof.
  unfold Json.is_ascii_digit, filename_char. intros ->. reflexivity.
Qed.

Lemma ascii_alnum_filename_char c : ascii_alnum c = true -> filename_char c = true.
Proof.
  unfold ascii_alnum, filename_char. intros ->. reflexivity.
Qed.

Lemma allowed_of_decimal E c :
  ascii_sound E -> unicode_decimal E c = true -> allowed_or_unicode E c.
Proof.
  intros HE Hc. destruct (N.lt_ge_cases c 128) as [Hlt|Hge].
  - left. apply ascii_digit_filename_char. now apply (HE c Hlt).
  - right. auto.
Qed.

Lemma allowed_of_alnum E c :
  ascii_sound E -> unicode_alnum E c = true -> allowed_or_unicode E c.
Proof.
  intros HE Hc. destruct (N.lt_ge_cases c 128) as [Hlt|Hge].
  - left. apply ascii_alnum_filename_char. now apply (HE c Hlt).
  - right. auto.
Qed.

Lemma allowed_literal E s :
  forallb filename_char s = true -> Forall (allowed_or_unicode E) s.
Proof.
  intros H. apply Forall_forall. intros c Hc. left.
  rewrite forallb_forall in H. now apply H.
Qed.

Lemma format_year_chars E y : forallb filename_char (format_year E y) = true.
Proof.
  unfold format_year.
  destruct (pads_year E || (1000 <=? y)%Z);
    [|destruct (y <? 10)%Z; [|destruct (y <? 100)%Z]];
    cbn [pad4 forallb]; rewrite ?(ascii_digit_filename_char _ (digit_is_digit _));
    reflexivity.
Qed.

Lemma strftime_ymd_chars E dt : forallb filename_char (strftime_ymd E dt) = true.
Proof.
  unfold strftime_ymd. rewrite !forallb_app, format_year_chars.
  cbn [pad2 forallb]. rewrite !(ascii_digit_filename_char _ (digit_is_digit _)).
  reflexivity.
Qed.

Lemma two_digits_chars {A} E (k : pystr -> pystr -> option A) s x :
  two_digits E k s = Some x ->
  exists dd r, forallb (unicode_decimal E) dd = true /\ k dd r = Some x.
Proof.
  unfold two_digits. destruct s as [|a [|b r]]; try discriminate.
  destruct (unicode_decimal E a) eqn:Da; [|discriminate].
  destruct (unicode_decimal E b) eqn:Db; [|discriminate].
  intros H. exists [a; b], r. cbn [forallb]. rewrite Da, Db. auto.
Qed.

Lemma year_at_chars {A} E (k : pystr -> pystr -> option A) s x :
  year_at E k s = Some x ->
  exists dd r, forallb (unicode_decimal E) dd = true /\
               k (50%N :: 48%N :: dd) r = Some x.
Proof.
  unfold year_at. destruct s as [|a [|b r]]; try discriminate.
  destruct ((a =? 50) && (b =? 48))%N eqn:Y; [|discriminate].
  apply andb_true_iff in Y as [Ya Yb]. apply N.eqb_eq in Ya, Yb. subst a b.
  intros H. now apply two_digits_chars in H.
Qed.

Lemma allowed_decimals E dd :
  ascii_sound E -> forallb (unicode_decimal E) dd = true ->
  Forall (allowed_or_unicode E) dd.
Proof.
  intros HE H. apply Forall_forall. intros c Hc.
  rewrite forallb_forall in H. apply (allowed_of_decimal E c HE). now apply H.
Qed.

Lemma allowed_year E dd :
  ascii_sound E -> forallb (unicode_decimal E) dd = true ->
  Forall (allowed_or_unicode E) (50%N :: 48%N :: dd).
Proof.
  intros HE H. constructor; [now left|]. constructor; [now left|].
  now apply allowed_decimals.
Qed.

Lemma date_at_chars E s y m d :
  ascii_sound E -> date_at E s = Some (y, m, d) ->
  Forall (allowed_or_unicode E) y /\ Forall (allowed_or_unicode E) m /\
  Forall (allowed_or_unicode E) d.
Proof.
  intros HE H. unfold date_at in H.
  apply year_at_chars in H as (yy & r1 & Hy & H).
  apply opt_sep_some in H as (s1 & H).
  apply two_digits_chars in H as (m' & r2 & Hm & H).
  apply opt_sep_some in H as (s2 & H).
  apply two_digits_chars in H as (d' & r3 & Hd & H).
  injection H as <- <- <-.
  auto using allowed_year, allowed_decimals.
Qed.

Lemma chat_date_chars E v ts :
  ascii_sound E -> chat_date E v = Some ts -> Forall (allowed_or_unicode E) ts.
Proof.
  intros HE. unfold chat_date. destruct (as_number v) as [secs|].
  - destruct (fromtimestamp E secs); [|discriminate].
    intros [= <-]. apply allowed_literal, strftime_ymd_chars.
  - destruct v as [| | |s| |]; try discriminate.
    destruct (contains (u "20") s); [|discriminate].
    destruct (search (date_at E) s) as [[[y m] d]|] eqn:D; [|discriminate].
    destruct (search (year_at E (fun y _ => Some y)) s) as [year|] eqn:Y;
      [|discriminate].
    intros [= <-].
    apply search_some in D as (s1 & D).
    apply (date_at_chars E _ _ _ _ HE) in D as (_ & Hm & Hd).
    apply search_some in Y as (s2 & Y).
    apply year_at_chars in Y as (dd & r & Hdd & [= <-]).
    rewrite !Forall_app. auto using allowed_year.
Qed.

Lemma composer_date_chars E v ts :
  ascii_sound E -> composer_date E v = Some ts -> Forall (allowed_or_unicode E) ts.
Proof.
  intros HE. unfold composer_date. destruct v as [| | |s| |]; try discriminate.
  destruct (truthy (VStr s) && contains (u "20") s); [|discriminate].
  destruct (search (date_at E) s) as [[[y m] d]|] eqn:D; [|discriminate].
  intros [= <-]. apply search_some in D as (s1 & D).
  apply (date_at_chars E _ _ _ _ HE) in D as (Hy & Hm & Hd).
  rewrite !Forall_app. auto.
Qed.

Lemma chats_timestamp_chars E chats ts :
  ascii_sound E -> chats_timestamp E chats = Ret (Some ts) ->
  Forall (allowed_or_unicode E) ts.
Proof.
  intros HE. induction chats as [|chat rest IH]; cbn [chats_timestamp]; [discriminate|].
  destruct (as_dict chat) as [d|]; cbn [bind]; [|discriminate].
  destruct (truthy (dict_get (u "created_at") d)); [|exact IH].
  destruct (chat_date E (dict_get (u "created_at") d)) as [ts'|] eqn:C; [|exact IH].
  intros [= <-]. eapply chat_date_chars; eauto.
Qed.

Lemma composers_timestamp_chars E composers ts :
  ascii_sound E -> composers_timestamp E composers = Ret (Some ts) ->
  Forall (allowed_or_unicode E) ts.
Proof.
  intros HE.
  induction composers as [|c rest IH]; cbn [composers_timestamp]; [discriminate|].
  destruct (as_dict c) as [d|]; cbn [bind]; [|discriminate].
  destruct (composer_date E (dict_get (u "created_at") d)) as [ts'|] eqn:C; [|exact IH].
  intros [= <-]. eapply composer_date_chars; eauto.
Qed.

Lemma file_timestamp_chars E data ts :
  ascii_sound E -> file_timestamp E data = Ret ts -> Forall (allowed_or_unicode E) ts.
Proof.
  intros HE. unfold file_timestamp.
  destruct (py_iter (dict_get_default (u "chats") (VList []) data)) as [chats|];
    cbn [bind]; [|discriminate].
  destruct (chats_timestamp E chats) as [[ts1|]|] eqn:C; cbn [bind]; try discriminate.
  - intros [= <-]. eapply chats_timestamp_chars; eauto.
  - destruct (py_iter (dict_get_default (u "composers") (VList []) data))
      as [composers|]; cbn [bind]; [|discriminate].
    destruct (composers_timestamp E composers) as [[ts2|]|] eqn:P; cbn [bind];
      try discriminate.
    + intros [= <-]. eapply composers_timestamp_chars; eauto.
    + destruct (fromtimestamp E (now E)); cbn [bind]; [|discriminate].
      intros [= <-]. apply allowed_literal, strftime_ymd_chars.
Qed.

Lemma safe_chars_allowed E part :
  ascii_sound E -> Forall (allowed_or_unicode E) (safe_chars E part).
Proof.
  intros HE. apply Forall_forall. intros c Hc.
  apply filter_In in Hc as [_ Hc]. unfold is_word in Hc.
  apply orb_true_iff in Hc as [Hc|Hc]; [apply orb_true_iff in Hc as [Hc|Hc]|].
  - now apply allowed_of_alnum.
  - apply N.eqb_eq in Hc. subst c. now left.
  - apply N.eqb_eq in Hc. subst c. now left.
Qed.

Lemma Forall_firstn {A} (P : A -> Prop) n : forall l,
  Forall P l -> Forall P (firstn n l).
Proof.
  induction n as [|n IH]; intros l H; [constructor|].
  destruct H as [|x l Hx Hl]; cbn [firstn]; constructor; auto.
Qed.

Lemma last_part_id_chars E parts :
  ascii_sound E -> Forall (allowed_or_unicode E) (last_part_id E parts).
Proof.
  intros HE. induction parts as [|part rest IH]; cbn [last_part_id]; [constructor|].
  destruct (truthy (VStr part) && negb (str_eqb part (u ".") || str_eqb part (u "..")));
    [|exact IH].
  apply Forall_app. split; [apply allowed_literal; reflexivity|].
  apply Forall_firstn. now apply safe_chars_allowed.
Qed.

Lemma path_id_chars E workspace_path :
  ascii_sound E -> Forall (allowed_or_unicode E) (path_id E workspace_path).
Proof.
  intros HE. unfold path_id.
  destruct (truthy workspace_path && negb (py_eq_str workspace_path (u "Unknown")));
    [|constructor].
  destruct workspace_path; try (apply allowed_literal; reflexivity).
  now apply last_part_id_chars.
Qed.

Lemma last_part_id_part E parts : is_path_part (last_part_id E parts).
Proof.
  induction parts as [|part rest IH]; cbn [last_part_id]; [now left|].
  destruct (truthy (VStr part) && negb (str_eqb part (u ".") || str_eqb part (u "..")));
    [|exact IH].
  right. eexists. split; [reflexivity|]. rewrite length_firstn. lia.
Qed.

Lemma path_id_part E workspace_path : is_path_part (path_id E workspace_path).
Proof.
  unfold path_id.
  destruct (truthy workspace_path && negb (py_eq_str workspace_path (u "Unknown")));
    [|now left].
  destruct workspace_path; try (right; exists (u "unknown"); split; [reflexivity|simpl; lia]).
  apply last_part_id_part.
Qed.

(** The cap of 200 characters never applies: the name is always the
    full one. *)
Lemma make_filename_full E data ts :
  file_timestamp E data = Ret ts ->
  forall workspace_path,
    make_filename ts (path_id E workspace_path) =
    u "ws_" ++ ts ++ path_id E workspace_path ++ u ".json".
Proof.
  intros T workspace_path. unfold make_filename.
  apply file_timestamp_length in T.
  pose proof (path_id_length E workspace_path) as P.
  replace (200 <? _)%nat with false; [reflexivity|].
  symmetry. apply Nat.ltb_ge. rewrite !length_app. simpl. lia.
Qed.

(** X8: on a platform whose Unicode tables are right about ASCII,
    every character of the file name is a letter, a digit, an
    underscore, a dot or a hyphen of ASCII, or else a letter or digit
    of Unicode outside ASCII, which the patterns of the code let
    through. *)
Theorem output_filename_chars (E : env) (data : dict) (name : pystr) :
  ascii_sound E ->
  output_filename E data = Ret name ->
  Forall (allowed_or_unicode E) name.
Proof.
  intros HE. unfold output_filename.
  destruct (file_timestamp E data) as [ts|] eqn:T; cbn [bind]; [|discriminate].
  intros [= <-]. rewrite (make_filename_full E data ts T).
  rewrite !Forall_app. repeat split.
  - apply allowed_literal. reflexivity.
  - now apply (file_timestamp_chars E data).
  - now apply path_id_chars.
  - apply allowed_literal. reflexivity.
Qed.

Lemma sample_env_ascii_sound : ascii_sound sample_env.
Proof.
  intros c Hc. cbn [unicode_alnum unicode_decimal sample_env].
  unfold sample_alnum, sample_decimal, ascii_alnum, Json.is_ascii_digit.
  split; intros H.
  - repeat (apply orb_true_iff in H as [H|H]); try (rewrite H; reflexivity).
    + rewrite H. now rewrite ?orb_true_r.
    + rewrite H. now rewrite ?orb_true_r.
    + apply andb_true_iff in H as [H _]. apply N.leb_le in H. lia.
    + apply andb_true_iff in H as [H _]. apply N.leb_le in H. lia.
    + apply N.eqb_eq in H. lia.
    + apply andb_true_iff in H as [H _]. apply N.leb_le in H. lia.
    + apply andb_true_iff in H as [H _]. apply N.leb_le in H. lia.
  - apply orb_true_iff in H as [H|H]; [exact H|].
    apply andb_true_iff in H as [H _]. apply N.leb_le in H. lia.
Qed.

Lemma output_filename_chars_witness :
  Forall (allowed_or_unicode sample_env) (u "ws_20210701_" ++ katakana_test ++ u ".json").
Proof.
  exact (output_filename_chars sample_env katakana_path_data _
           sample_env_ascii_sound eq_refl).
Defined.

(** X9: the file name is [ws_], a date part of at most eight
    characters, a path part that is empty or an underscore with at
    most twenty characters, and [.json]; it has at most 37 characters,
    so that the cap of 200 never applies. *)
Theorem output_filename_shape (E : env) (data : dict) (name : pystr) :
  output_filename E data = Ret name ->
  exists ts part,
    file_timestamp E data = Ret ts /\
    name = u "ws_" ++ ts ++ part ++ u ".json" /\
    (List.length ts <= 8)%nat /\
    is_path_part part /\
    (List.length name <= 37)%nat.
Proof.
  intros H. pose proof (output_filename_length E data name H) as L.
  unfold output_filename in H.
  destruct (file_timestamp E data) as [ts|] eqn:T; cbn [bind] in H; [|discriminate].
  injection H as <-. rewrite (make_filename_full E data ts T) in *.
  eexists ts, _. split; [reflexivity|]. split; [reflexivity|].
  split; [now apply (file_timestamp_length E data)|].
  split; [apply path_id_part | exact L].
Qed.

Lemma output_filename_shape_witness :
  exists ts part,
    u "ws_20210701_" ++ katakana_test ++ u ".json" =
      u "ws_" ++ ts ++ part ++ u ".json" /\
    (List.length ts <= 8)%nat /\ is_path_part part.
Proof.
  destruct (output_filename_shape sample_env katakana_path_data _ eq_refl)
    as (ts & part & _ & Hn & Ht & Hp & _).
  exists ts, part. auto.
Defined.

(** X10: [save_json_file] reports a path only if the file under it
    could be written, and that file is the computed name inside the
    output directory or the short name without the path part; it
    reports nothing only if the short name could not be written; it
    raises only if reading the dates raised or the output directory
    could not be made. *)
Theorem save_json_file_reports (E : env) (data : value) :
  (forall path, save_json_file E data = Ret (Some path) ->
     can_write E path = true /\
     exists d ts name,
       data = VDict d /\ file_timestamp E d = Ret ts /\
       output_filename E d = Ret name /\
       (path = u "json" ++ sep E :: name \/ path = short_name ts)) /\
  (save_json_file E data = Ret None ->
     exists d ts, data = VDict d /\ file_timestamp E d = Ret ts /\
                  can_write E (short_name ts) = false) /\
  (forall e, save_json_file E data = Raise e ->
     (exists d, data = VDict d /\ file_timestamp E d = Raise e) \/
     (e = OSError /\ makedirs_ok E = false) \/
     (e = AttributeError /\ forall d, data <> VDict d)).
Proof.
  unfold save_json_file.
  destruct data as [| | | | |d]; cbn [as_dict bind];
    try (split; [discriminate | split; [discriminate|]];
         intros e [= <-]; right; right; split; [reflexivity | discriminate]).
  destruct (file_timestamp E d) as [ts|e0] eqn:T; cbn [bind].
  2:{ split; [discriminate | split; [discriminate|]].
      intros e [= <-]. left. eauto. }
  assert (N : output_filename E d =
              Ret (make_filename ts (path_id E
                (dict_get_default (u "workspace_path") (VStr (u "unknown")) d)))).
  { unfold output_filename. now rewrite T. }
  destruct (makedirs_ok E) eqn:M; cbn [negb].
  2:{ split; [discriminate | split; [discriminate|]].
      intros e [= <-]. right. left. auto. }
  destruct (dir_exists E).
  - destruct (can_write E (u "json" ++ sep E :: _)) eqn:W1.
    + split; [|split; discriminate].
      intros path [= <-]. split; [exact W1|].
      exists d, ts. eexists. repeat split; eauto.
    + destruct (can_write E (short_name ts)) eqn:W2.
      * split; [|split; discriminate].
        intros path [= <-]. split; [exact W2|].
        exists d, ts. eexists. repeat split; eauto.
      * split; [discriminate|]. split; [|discriminate]. intros _. eauto.
  - destruct (can_write E (short_name ts)) eqn:W2.
    + split; [|split; discriminate].
      intros path [= <-]. split; [exact W2|].
      exists d, ts. eexists. repeat split; eauto.
    + split; [discriminate|]. split; [|discriminate]. intros _. eauto.
Qed.

Lemma save_json_file_reports_witness :
  can_write sample_env (u "json/ws_20210701_" ++ katakana_test ++ u ".json") = true.
Proof.
  exact (proj1 (proj1 (save_json_file_reports sample_env (VDict katakana_path_data))
                  (u "json/ws_20210701_" ++ katakana_test ++ u ".json") eq_refl)).
Defined.

End FileMoreFacts.

(** ** The storage locator *)

Section LocatorFacts.

Import Locator Samples.

Lemma first_existing_exists h candidates p :
  first_existing h candidates = Some p ->
  In p candidates /\ path_exists h p = true.
Proof.
  induction candidates as [|c rest IH]; cbn [first_existing]; [discriminate|].
  destruct (path_exists h c) eqn:X.
  - intros [= <-]. split; [now left | exact X].
  - intros H. apply IH in H as [Hin Hx]. split; [now right | exact Hx].
Qed.

Lemma first_existing_none h candidates :
  first_existing h candidates = None <->
  Forall (fun p => path_exists h p = false) candidates.
Proof.
  induction candidates as [|c rest IH]; cbn [first_existing].
  - split; [constructor | reflexivity].
  - destruct (path_exists h c) eqn:X.
    + split; [discriminate|]. intros H. inversion H; congruence.
    + rewrite IH. split; [now constructor | intros H; now inversion H].
Qed.

(** X11: on Linux a storage directory that the locator returns
    exists, and the locator returns none exactly when neither
    candidate exists; on Windows and macOS the workspace directory and
    the global directory are found together and lie in the same
    directory. *)
Theorem storage_dirs_located (h : host) :
  (system_name h = u "Linux" ->
   forall leaf,
     (forall p, storage_dir h leaf = Some p -> path_exists h p = true) /\
     (storage_dir h leaf = None <->
      path_exists h (join (home h) [u ".config"; u "Cursor"; u "User"; leaf]) = false /\
      path_exists h (join (home h) [u ".cursor"; u "User"; leaf]) = false)) /\
  (system_name h = u "Windows" \/ system_name h = u "Darwin" ->
   (get_workspace_storage_dir h = None <-> get_global_storage_dir h = None) /\
   forall w g,
     get_workspace_storage_dir h = Some w -> get_global_storage_dir h = Some g ->
     parent w = parent g).
Proof.
  split.
  - intros L leaf. unfold storage_dir. rewrite L.
    change (str_eqb (u "Linux") (u "Windows")) with false.
    change (str_eqb (u "Linux") (u "Darwin")) with false.
    change (str_eqb (u "Linux") (u "Linux")) with true. cbn iota.
    split.
    + intros p H. now apply first_existing_exists in H.
    + rewrite first_existing_none. split.
      * intros H. inversion H as [|? ? H1 H2]; subst.
        inversion H2; subst. auto.
      * intros [H1 H2]. repeat constructor; assumption.
  - intros S. unfold get_workspace_storage_dir, get_global_storage_dir, storage_dir.
    destruct S as [S|S]; rewrite S.
    + change (str_eqb (u "Windows") (u "Windows")) with true. cbn iota.
      destruct (appdata h) as [base|]; [|split; [tauto | discriminate]].
      destruct (truthy (VStr base)); [|split; [tauto | discriminate]].
      split; [split; discriminate|]. intros w g [= <-] [= <-]. reflexivity.
    + change (str_eqb (u "Darwin") (u "Windows")) with false.
      change (str_eqb (u "Darwin") (u "Darwin")) with true. cbn iota.
      split; [split; discriminate|]. intros w g [= <-] [= <-]. reflexivity.
Qed.

Lemma storage_dirs_located_witness :
  get_workspace_storage_dir linux_host =
    Some (join (u "/home/user") [u ".config"; u "Cursor"; u "User"; u "workspaceStorage"]) /\
  path_exists linux_host
    (join (u "/home/user") [u ".config"; u "Cursor"; u "User"; u "workspaceStorage"]) = true.
Proof.
  split; [reflexivity|].
  exact (proj1 (proj1 (storage_dirs_located linux_host) eq_refl (u "workspaceStorage"))
           _ eq_refl).
Defined.

Lemma starts_with_app p s rest :
  Json.starts_with p s = Some rest -> s = p ++ rest.
Proof.
  revert s. induction p as [|a p IH]; intros s; cbn [Json.starts_with].
  - now intros [= ->].
  - destruct s as [|b s]; [discriminate|].
    destruct (a =? b)%N eqn:E; [|discriminate].
    apply N.eqb_eq in E. subst b. intros H. cbn [app]. f_equal. now apply IH.
Qed.

Lemma starts_with_prefix p rest : Json.starts_with p (p ++ rest) = Some rest.
Proof.
  induction p as [|a p IH]; cbn [Json.starts_with app]; [reflexivity|].
  now rewrite N.eqb_refl.
Qed.

Lemma starts_with_none p s :
  Json.starts_with p s = None -> forall rest, s <> p ++ rest.
Proof.
  intros H rest ->. rewrite starts_with_prefix in H. discriminate H.
Qed.

(** The folder entry decides the result. *)
Lemma get_workspace_path_folder loads windows text d :
  loads text = Ret (VDict d) ->
  get_workspace_path loads windows (Some (Ret text)) =
  match dict_lookup (u "folder") d with
  | Some (VStr uri) =>
      if truthy (VStr uri) then
        match Json.starts_with file_scheme uri with
        | Some path =>
            if windows && JsonUtils.startswith 47 path then tl path else path
        | None => uri
        end
      else unknown_path
  | _ => unknown_path
  end.
Proof.
  intros L. unfold get_workspace_path, folder_of. cbn [bind]. rewrite L.
  cbn [as_dict bind]. unfold dict_get, dict_get_default.
  destruct (dict_lookup (u "folder") d) as [folder|]; [|reflexivity].
  destruct (truthy folder) eqn:T.
  - destruct folder as [| | |uri| |]; try reflexivity. rewrite T.
    destruct (Json.starts_with file_scheme uri) as [path|]; [|reflexivity].
    now destruct (windows && JsonUtils.startswith 47 path).
  - destruct folder as [| | |uri| |]; try reflexivity. now rewrite T.
Qed.

(** X12: [get_workspace_path] never fails, and its result is this.
    It is the text Unknown when [workspace.json] is missing, when it
    cannot be read or decoded, when it holds no object, and when the
    object has no folder entry that is a non-empty string.  For a
    folder entry that is a non-empty string it is: the entry itself
    when it does not begin with the scheme of a file URI; what follows
    the scheme when it does, on Windows without one leading slash.
    Nothing is decoded. *)
Theorem get_workspace_path_result
  (loads : pystr -> outcome value) (windows : bool) :
  get_workspace_path loads windows None = unknown_path /\
  (forall e, get_workspace_path loads windows (Some (Raise e)) = unknown_path) /\
  (forall text e,
      loads text = Raise e ->
      get_workspace_path loads windows (Some (Ret text)) = unknown_path) /\
  (forall text data,
      loads text = Ret data ->
      (forall d, data <> VDict d) ->
      get_workspace_path loads windows (Some (Ret text)) = unknown_path) /\
  (forall text d,
      loads text = Ret (VDict d) ->
      (forall uri, uri <> [] -> dict_lookup (u "folder") d <> Some (VStr uri)) ->
      get_workspace_path loads windows (Some (Ret text)) = unknown_path) /\
  (forall text d uri,
      loads text = Ret (VDict d) ->
      dict_lookup (u "folder") d = Some (VStr uri) ->
      uri <> [] ->
      (forall path, uri <> file_scheme ++ path) ->
      get_workspace_path loads windows (Some (Ret text)) = uri) /\
  (forall text d path,
      loads text = Ret (VDict d) ->
      dict_lookup (u "folder") d = Some (VStr (file_scheme ++ path)) ->
      windows = false \/ (forall rest, path <> u "/" ++ rest) ->
      get_workspace_path loads windows (Some (Ret text)) = path) /\
  (forall text d path,
      loads text = Ret (VDict d) ->
      dict_lookup (u "folder") d = Some (VStr (file_scheme ++ u "/" ++ path)) ->
      windows = true ->
      get_workspace_path loads windows (Some (Ret text)) = path).
Proof.
  repeat split.
  - intros text e L. unfold get_workspace_path, folder_of. cbn [bind].
    now rewrite L.
  - intros text data L N. unfold get_workspace_path, folder_of. cbn [bind].
    rewrite L. cbn [bind].
    destruct data as [| | | | |d]; try reflexivity. now destruct (N d).
  - intros text d L N. rewrite (get_workspace_path_folder _ _ _ _ L).
    destruct (dict_lookup (u "folder") d) as [[| | |[|c uri]| |]|] eqn:F;
      try reflexivity.
    now destruct (N (c :: uri) ltac:(discriminate)).
  - intros text d uri L F N S. rewrite (get_workspace_path_folder _ _ _ _ L), F.
    destruct uri as [|c uri]; [contradiction|]. cbn [truthy].
    destruct (Json.starts_with file_scheme (c :: uri)) as [path|] eqn:P;
      [|reflexivity].
    apply starts_with_app in P. now destruct (S path).
  - intros text d path L F W. rewrite (get_workspace_path_folder _ _ _ _ L), F.
    change (truthy (VStr (file_scheme ++ path))) with true. cbv iota.
    rewrite starts_with_prefix.
    destruct W as [-> | W]; [reflexivity|].
    destruct path as [|c path]; [now rewrite andb_false_r|].
    cbn [JsonUtils.startswith]. destruct (c =? 47)%N eqn:C;
      [|now rewrite andb_false_r].
    apply N.eqb_eq in C. subst c. now destruct (W path).
  - intros text d path L F ->. rewrite (get_workspace_path_folder _ _ _ _ L), F.
    change (truthy (VStr (file_scheme ++ u "/" ++ path))) with true. cbv iota.
    rewrite starts_with_prefix. reflexivity.
Qed.

Lemma get_workspace_path_result_witness :
  get_workspace_path strict_loads false (Some (Ret workspace_json_doc)) =
    u "home/user/projects/demo" /\
  get_workspace_path strict_loads true (Some (Ret workspace_json_doc)) =
    u "home/user/projects/demo" /\
  get_workspace_path strict_loads true (Some (Ret windows_json_doc)) =
    u "c%3A/Users/me/demo" /\
  get_workspace_path strict_loads true (Some (Ret share_json_doc)) =
    u "host/share/demo" /\
  get_workspace_path strict_loads false (Some (Ret share_json_doc)) =
    u "/host/share/demo" /\
  get_workspace_path strict_loads false (Some (Ret remote_json_doc)) =
    u "vscode-remote://ssh/demo" /\
  get_workspace_path strict_loads false (Some (Ret (u "{}"))) = unknown_path.
Proof.
  destruct (get_workspace_path_result strict_loads false)
    as (_ & _ & _ & _ & None_l & Other_l & Rest_l & _).
  destruct (get_workspace_path_result strict_loads true)
    as (_ & _ & _ & _ & _ & _ & Rest_w & Slash_w).
  repeat apply conj.
  - apply (Rest_l workspace_json_doc
             [(u "folder", VStr (u "file:///home/user/projects/demo"))]
             (u "home/user/projects/demo")).
    + vm_compute. reflexivity.
    + reflexivity.
    + now left.
  - apply (Rest_w workspace_json_doc
             [(u "folder", VStr (u "file:///home/user/projects/demo"))]
             (u "home/user/projects/demo")).
    + vm_compute. reflexivity.
    + reflexivity.
    + right. intros rest. discriminate.
  - apply (Rest_w windows_json_doc
             [(u "folder", VStr (u "file:///c%3A/Users/me/demo"))]
             (u "c%3A/Users/me/demo")).
    + vm_compute. reflexivity.
    + reflexivity.
    + right. intros rest. discriminate.
  - apply (Slash_w share_json_doc
             [(u "folder", VStr (u "file:////host/share/demo"))]
             (u "host/share/demo")).
    + vm_compute. reflexivity.
    + reflexivity.
    + reflexivity.
  - apply (Rest_l share_json_doc
             [(u "folder", VStr (u "file:////host/share/demo"))]
             (u "/host/share/demo")).
    + vm_compute. reflexivity.
    + reflexivity.
    + now left.
  - apply (Other_l remote_json_doc
             [(u "folder", VStr (u "vscode-remote://ssh/demo"))]
             (u "vscode-remote://ssh/demo")).
    + vm_compute. reflexivity.
    + reflexivity.
    + discriminate.
    + intros path. discriminate.
  - apply (None_l (u "{}") []).
    + vm_compute. reflexivity.
    + intros uri _. discriminate.
Defined.

End LocatorFacts.

(** ** The normaliser, further *)

Section ExtractorMoreFacts.

Import Platform FileUtils Extractor Dedup DedupSpec DedupMore ExtractorMore Samples.

Lemma process_tabs_prefix E tabs :
  exists good,
    Forall2 (fun tab chat => chat_info_of_tab E tab = Ret chat)
      good (process_tabs E tabs []) /\
    (good = tabs \/
     exists bad rest e,
       tabs = good ++ bad :: rest /\ chat_info_of_tab E bad = Raise e).
Proof.
  induction tabs as [|tab rest (good & F & H)]; cbn [process_tabs].
  - exists []. split; [constructor | now left].
  - destruct (chat_info_of_tab E tab) as [chat|e] eqn:C.
    + rewrite process_tabs_app. exists (tab :: good). split.
      * cbn [app]. constructor; assumption.
      * destruct H as [-> | (bad & rest' & e & -> & B)]; [now left|].
        right. exists bad, rest', e. split; [reflexivity | exact B].
    + exists []. split; [constructor|].
      right. exists tab, rest, e. split; [reflexivity | exact C].
Qed.

(** X13: the chats of the result are built from the tabs in order, up
    to the first tab whose processing raises: that tab and every tab
    after it are left out, the chats before it are kept. *)
Theorem extract_chats_until_first_failure (E : env) (d : dict) (tabs : list value) :
  dict_lookup (u "tabs") d = Some (VList tabs) ->
  exists good,
    Forall2 (fun tab chat => chat_info_of_tab E tab = Ret chat)
      good (extract_chats E (VDict d)) /\
    (good = tabs \/
     exists bad rest e,
       tabs = good ++ bad :: rest /\ chat_info_of_tab E bad = Raise e).
Proof.
  intros H. unfold extract_chats.
  rewrite dict_has_lookup. unfold dict_get, dict_get_default. rewrite H.
  destruct d as [|kv d]; [discriminate|]. cbn [truthy andb].
  apply process_tabs_prefix.
Qed.

Lemma extract_chats_until_first_failure_witness :
  dict_lookup (u "tabs") broken_tab_fields = Some (VList broken_tabs) /\
  exists good,
    Forall2 (fun tab chat => chat_info_of_tab sample_env tab = Ret chat)
      good (extract_chats sample_env (VDict broken_tab_fields)) /\
    (good = broken_tabs \/
     exists bad rest e,
       broken_tabs = good ++ bad :: rest /\
       chat_info_of_tab sample_env bad = Raise e).
Proof.
  split; [reflexivity|].
  exact (extract_chats_until_first_failure sample_env broken_tab_fields
           broken_tabs eq_refl).
Defined.

Lemma bubble_message_shape E bubble message :
  bubble_message E bubble = Ret (Some message) -> is_message message.
Proof.
  unfold bubble_message. destruct (truthy bubble); cbn [negb]; [|discriminate].
  destruct (as_dict bubble) as [b|]; cbn [bind]; [|discriminate].
  destruct (truthy (dict_get_default (u "text") (VStr []) b)); [|discriminate].
  intros [= <-]. eexists _, _, _. reflexivity.
Qed.

Lemma bubble_messages_shape E bubbles : forall messages out,
  Forall is_message messages ->
  bubble_messages E bubbles messages = Ret out ->
  Forall is_message out.
Proof.
  induction bubbles as [|bubble rest IH]; cbn [bubble_messages]; intros messages out Hm.
  - now intros [= <-].
  - destruct (bubble_message E bubble) as [[message|]|] eqn:B; cbn [bind];
      [| now apply IH | discriminate].
    apply IH. apply Forall_app. split; [assumption|].
    constructor; [|constructor]. eapply bubble_message_shape; eauto.
Qed.

Lemma chat_info_shape E tab chat :
  chat_info_of_tab E tab = Ret chat -> is_chat chat.
Proof.
  unfold chat_info_of_tab.
  destruct (as_dict tab) as [t|]; cbn [bind]; [|discriminate].
  destruct (py_slice 8 _) as [id_head|]; cbn [bind]; [|discriminate].
  destruct (py_iter _) as [bubbles|]; cbn [bind]; [|discriminate].
  destruct (bubble_messages E bubbles []) as [messages|] eqn:B; cbn [bind];
    [|discriminate].
  intros [= <-]. eexists _, _, _, _, _. split; [reflexivity|].
  eapply bubble_messages_shape; [|exact B]. constructor.
Qed.

Lemma process_tabs_shape E tabs : forall chats,
  Forall is_chat chats -> Forall is_chat (process_tabs E tabs chats).
Proof.
  induction tabs as [|tab rest IH]; cbn [process_tabs]; intros chats H; [exact H|].
  destruct (chat_info_of_tab E tab) as [chat|] eqn:C; [|exact H].
  apply IH. apply Forall_app. split; [exact H|].
  constructor; [|constructor]. eapply chat_info_shape; eauto.
Qed.

Lemma extract_chats_shape E chat_data :
  Forall is_chat (extract_chats E chat_data).
Proof.
  unfold extract_chats. destruct chat_data; try constructor.
  destruct (truthy _ && dict_has _ _); [|constructor].
  destruct (dict_get _ _); try constructor.
  apply process_tabs_shape. constructor.
Qed.

Lemma resolved_message_shape E msg : is_message (resolved_message E msg).
Proof. eexists _, _, _. reflexivity. Qed.

Lemma conversation_messages_shape E conversation out :
  conversation_messages E conversation [] = Ret out -> Forall is_message out.
Proof.
  intros H. apply conversation_messages_spec in H. subst out. cbn [app].
  apply Forall_forall. intros m Hm. apply in_map_iff in Hm as (msg & <- & _).
  apply resolved_message_shape.
Qed.

Lemma truthy_firstn_str n s :
  truthy (VStr s) = true -> truthy (VStr (firstn (S n) s)) = true.
Proof. destruct s; [discriminate | reflexivity]. Qed.

Lemma composer_title_truthy E c composer_id title :
  composer_title E c composer_id = Ret title -> truthy title = true.
Proof.
  unfold composer_title.
  destruct (truthy (dict_get_default (u "name") (VStr []) c)) eqn:N; cbn [negb].
  - now intros [= <-].
  - destruct (truthy (dict_get_default (u "text") (VStr []) c)) eqn:T.
    + destruct (dict_get_default (u "text") (VStr []) c) as [| | |s|l|]; cbn [py_slice];
        try discriminate; intros [= <-].
      * destruct s; [discriminate | reflexivity].
      * destruct l; [discriminate | reflexivity].
    + destruct (py_slice 8 composer_id); cbn [bind]; [|discriminate].
      now intros [= <-].
Qed.

Lemma details_get_hash details composer_id detail :
  details_get details composer_id = Ret detail ->
  exists k, py_hash composer_id = Ret k.
Proof.
  unfold details_get. destruct (py_hash composer_id) as [k|]; cbn [bind];
    [eauto | discriminate].
Qed.

Lemma composer_info_shape E safe details composer info :
  composer_info_of E safe details composer = Ret (Some info) ->
  is_composer safe info.
Proof.
  unfold composer_info_of.
  destruct (as_dict composer) as [c|]; cbn [bind]; [|discriminate].
  destruct (truthy (dict_get_default (u "composerId") (VStr []) c)) eqn:I;
    cbn [negb]; [|discriminate].
  destruct (details_get details _) as [detail|] eqn:D; cbn [bind]; [|discriminate].
  apply details_get_hash in D.
  match goal with
  | |- context [bind ?m _] => destruct m as [c'|]; cbn [bind]; [|discriminate]
  end.
  destruct (composer_title E c' _) as [title|] eqn:T; cbn [bind]; [|discriminate].
  apply composer_title_truthy in T.
  destruct safe.
  - intros [= <-]. eexists _, _, _, _, _, _. split; [reflexivity|].
    repeat split; auto.
  - destruct (conversation_messages E _ []) as [messages|] eqn:M; cbn [bind];
      [|discriminate].
    intros [= <-]. eexists _, _, _, _, _, _. split; [reflexivity|].
    repeat split; auto.
    + eapply conversation_messages_shape; eauto.
    + discriminate.
Qed.

Lemma process_composers_shape E safe details result all : forall composers,
  Forall (is_composer safe) composers ->
  Forall (is_composer safe) (process_composers E safe details result all composers).
Proof.
  induction all as [|composer rest IH]; cbn [process_composers]; intros composers H;
    [exact H|].
  destruct (composer_info_of E safe details composer) as [[info|]|] eqn:C;
    [| now apply IH | exact H].
  destruct result; [|exact H].
  apply IH. apply Forall_app. split; [exact H|].
  constructor; [|constructor]. eapply composer_info_shape; eauto.
Qed.

Lemma extract_composers_shape E safe fetch composer_data :
  Forall (is_composer safe) (fst (extract_composers E safe fetch composer_data)).
Proof.
  unfold extract_composers. destruct composer_data; try constructor.
  destruct (truthy _ && dict_has _ _); [|constructor].
  destruct (dict_get _ _); try constructor.
  destruct (missing_data _) as [missing|]; [|constructor].
  destruct (composer_details _) as [details|]; [|constructor].
  apply process_composers_shape. constructor.
Qed.

Lemma get_chat_data_returned E safe_mode loads fetch workspace_id workspace_path
  chat_row composer_row :
  get_chat_data E safe_mode loads fetch workspace_id workspace_path
    chat_row composer_row =
  returned_result (snd (composers_read E safe_mode loads fetch composer_row))
    (result_of workspace_id workspace_path
       match parsed_row loads chat_row with
       | Some chat_data => extract_chats E chat_data
       | None => []
       end
       (fst (composers_read E safe_mode loads fetch composer_row))).
Proof.
  unfold get_chat_data, composers_read.
  now destruct (match parsed_row loads composer_row with
                | Some composer_data =>
                    extract_composers E safe_mode fetch composer_data
                | None => ([], Kept)
                end).
Qed.

Lemma composers_read_shape E safe_mode loads fetch composer_row :
  Forall (is_composer safe_mode)
    (fst (composers_read E safe_mode loads fetch composer_row)).
Proof.
  unfold composers_read.
  destruct (parsed_row loads composer_row);
    [apply extract_composers_shape | constructor].
Qed.

(** [result] is rebound exactly by a lookup that is made and rebinds
    it. *)
Lemma extract_composers_rebound E safe_mode fetch composer_data row :
  snd (extract_composers E safe_mode fetch composer_data) = Rebound row <->
  safe_mode = false /\
  needs_details composer_data = true /\
  exists d all,
    composer_data = VDict d /\
    dict_lookup (u "allComposers") d = Some (VList all) /\
    result_after (fetch all) = Rebound row.
Proof.
  unfold extract_composers, needs_details. split.
  - destruct composer_data as [| | | | |d]; try discriminate.
    rewrite dict_has_lookup. unfold dict_get, dict_get_default.
    destruct (dict_lookup (u "allComposers") d) as [v|] eqn:L;
      [|rewrite andb_false_r; discriminate].
    destruct (truthy (VDict d)); cbn [andb]; [|discriminate].
    destruct v as [| | | |all|]; try discriminate.
    destruct (missing_data all) as [[|]|]; try discriminate;
      destruct safe_mode; cbn [negb andb];
      try (cbn [no_lookup composer_details result_after]; discriminate).
    intros H. split; [reflexivity|]. split; [reflexivity|].
    exists d, all. split; [reflexivity|]. split; [exact L|].
    destruct (composer_details (fetch all)); exact H.
  - intros (-> & N & d & all & -> & L & R).
    rewrite dict_has_lookup. unfold dict_get, dict_get_default in *.
    rewrite L in *.
    assert (T : truthy (VDict d) = true) by (destruct d; [discriminate L | reflexivity]).
    rewrite T. cbn [andb negb].
    destruct (missing_data all) as [[|]|]; try discriminate N.
    now destruct (composer_details (fetch all)).
Qed.

(** X14: what [get_chat_data] returns is the dict it has built unless
    the lookup of the detail records has rebound [result].  In the
    dict every chat has the five fields id, title, timestamp,
    created_at and messages, every composer the six fields id, title,
    text, created_at, updated_at and conversation, every message a
    type, a text and a timestamp; the formatted times are strings; the
    id of a composer is not empty and hashable and its title is not
    empty; in the conservative mode every conversation is empty.
    What is returned is instead the row that the fallback on
    [ItemTable] last fetched, exactly when, outside the conservative
    mode, the row of composers parses to a dict with a list of
    composers of which one has neither text nor name, and the lookup
    made for them rebinds [result]. *)
Theorem extraction_result_shape (E : env) (safe_mode : bool)
  (loads : pystr -> outcome value) (fetch : list value -> lookup)
  (workspace_id workspace_path : pystr) (chat_row composer_row : option pystr) :
  (forall result,
      get_chat_data E safe_mode loads fetch workspace_id workspace_path
        chat_row composer_row = Extracted result ->
      exists chats composers,
        result = result_of workspace_id workspace_path chats composers /\
        Forall is_chat chats /\
        Forall (is_composer safe_mode) composers) /\
  (forall row,
      get_chat_data E safe_mode loads fetch workspace_id workspace_path
        chat_row composer_row = Replaced row <->
      safe_mode = false /\
      exists d all,
        parsed_row loads composer_row = Some (VDict d) /\
        needs_details (VDict d) = true /\
        dict_lookup (u "allComposers") d = Some (VList all) /\
        result_after (fetch all) = Rebound row).
Proof.
  rewrite get_chat_data_returned.
  pose proof (composers_read_shape E safe_mode loads fetch composer_row) as Hp.
  split.
  - intros result H. destruct (snd (composers_read _ _ _ _ _)); [|discriminate H].
    injection H as <-. eexists _, _. split; [reflexivity|]. split; [|exact Hp].
    destruct (parsed_row loads chat_row); [apply extract_chats_shape | constructor].
  - intros row. unfold composers_read.
    destruct (parsed_row loads composer_row) as [composer_data|].
    + split.
      * intros H.
        assert (R : snd (extract_composers E safe_mode fetch composer_data) =
                    Rebound row).
        { destruct (snd (extract_composers _ _ _ _)); [discriminate H|].
          now injection H as <-. }
        apply extract_composers_rebound in R
          as (-> & N & d & all & -> & L & R).
        split; [reflexivity|]. exists d, all. auto.
      * intros (-> & d & all & [= ->] & N & L & R).
        assert (X : snd (extract_composers E false fetch (VDict d)) = Rebound row).
        { apply extract_composers_rebound. split; [reflexivity|].
          split; [exact N|]. exists d, all. auto. }
        now rewrite X.
    + split; [discriminate|]. intros (_ & d & all & H & _). discriminate H.
Qed.

Lemma extraction_result_shape_witness :
  get_chat_data sample_env false strict_loads fallback_lookup (u "ws") (u "/p")
    (Some one_tab_doc) (Some bare_composer_row) = Replaced None /\
  exists result,
    get_chat_data sample_env false strict_loads no_details (u "ws") (u "/p")
      (Some one_tab_doc) (Some bare_composer_row) = Extracted result.
Proof.
  split.
  - apply (proj2 (extraction_result_shape sample_env false strict_loads
                    fallback_lookup (u "ws") (u "/p")
                    (Some one_tab_doc) (Some bare_composer_row))).
    split; [reflexivity|].
    exists [(u "allComposers", VList [VDict [(u "composerId", VStr (u "c1"))]])],
      [VDict [(u "composerId", VStr (u "c1"))]].
    split; [vm_compute; reflexivity|]. split; [reflexivity|]. split; reflexivity.
  - assert (H : forall row,
      get_chat_data sample_env false strict_loads no_details (u "ws") (u "/p")
        (Some one_tab_doc) (Some bare_composer_row) <> Replaced row).
    { intros row H.
      apply (proj2 (extraction_result_shape sample_env false strict_loads
                      no_details (u "ws") (u "/p")
                      (Some one_tab_doc) (Some bare_composer_row))) in H
        as (_ & d & all & _ & _ & _ & R).
      discriminate R. }
    destruct (get_chat_data _ _ _ _ _ _ _ _) as [result|row]; [eauto|].
    now destruct (H row).
Defined.

Lemma missing_data_found all :
  missing_data all = Ret true ->
  exists c, In (VDict c) all /\
    truthy (dict_get (u "text") c) = false /\
    truthy (dict_get (u "name") c) = false.
Proof.
  induction all as [|composer rest IH]; cbn [missing_data]; [discriminate|].
  destruct composer as [| | | | |c]; cbn [as_dict bind]; try discriminate.
  destruct (truthy (dict_get (u "text") c)) eqn:T; cbn [negb andb].
  - intros H. destruct (IH H) as (c' & I & H'). exists c'. split; [now right | exact H'].
  - destruct (truthy (dict_get (u "name") c)) eqn:N; cbn [negb].
    + intros H. destruct (IH H) as (c' & I & H'). exists c'. split; [now right | exact H'].
    + intros _. exists c. split; [now left | split; assumption].
Qed.

(** X15: the detail records of the global database are read only
    outside the conservative mode and only when some composer has
    neither text nor name: in every other case the composers of the
    result do not depend on that database. *)
Theorem details_read_only_when_needed (E : env) (safe_mode : bool)
  (composer_data : value) :
  (safe_mode = true \/ needs_details composer_data = false ->
   forall fetch fetch',
     extract_composers E safe_mode fetch composer_data =
     extract_composers E safe_mode fetch' composer_data) /\
  (needs_details composer_data = true ->
   exists d all c,
     composer_data = VDict d /\
     dict_lookup (u "allComposers") d = Some (VList all) /\
     In (VDict c) all /\
     truthy (dict_get (u "text") c) = false /\
     truthy (dict_get (u "name") c) = false).
Proof.
  split.
  - intros H fetch fetch'. unfold extract_composers, needs_details in *.
    destruct composer_data as [| | | | |d]; try reflexivity.
    destruct (truthy (VDict d) && dict_has (u "allComposers") d); [|reflexivity].
    destruct (dict_get (u "allComposers") d) as [| | | |all|]; try reflexivity.
    destruct (missing_data all) as [[|]|]; rewrite ?andb_false_r;
      try reflexivity.
    destruct H as [-> | H]; [reflexivity | discriminate].
  - unfold needs_details. destruct composer_data as [| | | | |d]; try discriminate.
    unfold dict_get at 1, dict_get_default.
    destruct (dict_lookup (u "allComposers") d) as [[| | | |all|]|] eqn:L;
      try discriminate.
    destruct (missing_data all) as [[|]|] eqn:M; try discriminate.
    intros _. destruct (missing_data_found all M) as (c & I & H).
    exists d, all, c. repeat split; auto; apply H.
Qed.

Lemma details_read_only_when_needed_witness :
  extract_composers sample_env false no_details typed_composer_data =
  extract_composers sample_env false failing_lookup typed_composer_data.
Proof.
  exact (proj1 (details_read_only_when_needed sample_env false typed_composer_data)
           (or_intror eq_refl) no_details failing_lookup).
Defined.

Lemma dict_lookup_absent k (d : dict) :
  ~ In k (map fst d) -> dict_lookup k d = None.
Proof.
  induction d as [|[k' v] d IH]; cbn [dict_lookup map fst In]; [reflexivity|].
  intros H. destruct (str_eqb k k') eqn:E.
  - apply str_eqb_eq in E. subst. exfalso. apply H. now left.
  - apply IH. intros I. apply H. now right.
Qed.

(** X16: merging a detail record onto a composer makes every field
    of the detail record a field of the composer, with the value of
    the detail record, and leaves the other fields of the composer as
    they are. *)
Theorem merge_detail_lookup (detail composer : dict) (k : pystr) :
  NoDup (map fst detail) ->
  dict_lookup k (merge_detail detail composer) =
    match dict_lookup k detail with
    | Some v => Some v
    | None => dict_lookup k composer
    end.
Proof.
  unfold merge_detail. revert composer.
  induction detail as [|[k' v'] rest IH]; intros composer N; [reflexivity|].
  cbn [fold_left fst snd map] in *. inversion N as [|? ? Hn Hr]; subst.
  rewrite (IH _ Hr). cbn [dict_lookup].
  destruct (str_eqb k k') eqn:E.
  - apply str_eqb_eq in E. subst k'.
    rewrite (dict_lookup_absent _ _ Hn). apply dict_lookup_set_same.
  - destruct (dict_lookup k rest); [reflexivity|].
    apply dict_lookup_set_other. intros ->. now rewrite str_eqb_refl in E.
Qed.

Lemma merge_detail_lookup_witness :
  dict_lookup (u "name")
    (merge_detail [(u "name", VStr (u "detail")); (u "conversation", VList [])]
       [(u "composerId", VStr (u "c1")); (u "name", VStr [])]) =
    Some (VStr (u "detail")) /\
  dict_lookup (u "composerId")
    (merge_detail [(u "name", VStr (u "detail")); (u "conversation", VList [])]
       [(u "composerId", VStr (u "c1")); (u "name", VStr [])]) =
    Some (VStr (u "c1")).
Proof.
  assert (N : NoDup (map fst [(u "name", VStr (u "detail"));
                              (u "conversation", VList [])])).
  { repeat constructor; cbn; intuition discriminate. }
  split.
  - exact (merge_detail_lookup _ [(u "composerId", VStr (u "c1")); (u "name", VStr [])]
             (u "name") N).
  - exact (merge_detail_lookup _ [(u "composerId", VStr (u "c1")); (u "name", VStr [])]
             (u "composerId") N).
Defined.

Lemma chat_info_id E tab chat :
  chat_info_of_tab E tab = Ret chat ->
  exists d, chat = VDict d /\
    ((exists s, dict_get (u "id") d = VStr s) \/
     (exists l, dict_get (u "id") d = VList l)).
Proof.
  unfold chat_info_of_tab.
  destruct (as_dict tab) as [t|]; cbn [bind]; [|discriminate].
  destruct (py_slice 8 _) as [id_head|] eqn:S; cbn [bind]; [|discriminate].
  destruct (py_iter _) as [bubbles|]; cbn [bind]; [|discriminate].
  destruct (bubble_messages E bubbles []) as [messages|]; cbn [bind]; [|discriminate].
  intros [= <-]. eexists. split; [reflexivity|].
  change (dict_get (u "id") ((u "id", ?v) :: _)) with v.
  destruct (dict_get_default (u "tabId") (VStr []) t); try discriminate S; eauto.
Qed.

Lemma process_tabs_ids E tabs : forall chats,
  Forall (fun chat => record_ok chat = negb (list_id chat)) chats ->
  Forall (fun chat => record_ok chat = negb (list_id chat))
    (process_tabs E tabs chats).
Proof.
  induction tabs as [|tab rest IH]; cbn [process_tabs]; intros chats H; [exact H|].
  destruct (chat_info_of_tab E tab) as [chat|] eqn:C; [|exact H].
  apply IH. apply Forall_app. split; [exact H|].
  constructor; [|constructor].
  apply chat_info_id in C as (d & -> & [(s & I) | (l & I)]);
    unfold list_id, record_id; cbn [record_ok]; rewrite I; cbn [py_hash].
  - now rewrite orb_true_r.
  - destruct l; reflexivity.
Qed.

Lemma extract_chats_ids E chat_data :
  Forall (fun chat => record_ok chat = negb (list_id chat))
    (extract_chats E chat_data).
Proof.
  unfold extract_chats. destruct chat_data; try constructor.
  destruct (truthy _ && dict_has _ _); [|constructor].
  destruct (dict_get _ _); try constructor.
  apply process_tabs_ids. constructor.
Qed.

Lemma is_composer_identified safe composer :
  is_composer safe composer ->
  record_ok composer = true /\ exists k, item_key composer = Some k.
Proof.
  intros (id & title & text & c & p & conv & -> & T & (k & H) & _).
  split.
  - cbn [record_ok]. change (dict_get (u "id") ((u "id", id) :: _)) with id.
    rewrite H. apply orb_true_r.
  - exists k. apply item_key_record_key. split.
    + cbn [record_key]. change (dict_get (u "id") ((u "id", id) :: _)) with id.
      now rewrite H.
    + now rewrite (nonempty_key_hash _ _ H).
Qed.

Lemma dedup_step_raises st r e :
  dedup_step st r = Raise e -> record_ok r = false.
Proof.
  destruct st as [unique seen]. unfold dedup_step.
  destruct r as [| | | | |d]; cbn [as_dict bind record_ok]; try reflexivity.
  destruct (truthy (dict_get (u "id") d)); cbn [negb orb]; [|discriminate].
  destruct (py_hash (dict_get (u "id") d)) as [k|]; cbn [bind]; [|reflexivity].
  destruct (set_mem k seen); discriminate.
Qed.

Lemma dedup_step_type_error st r e :
  (exists d, r = VDict d) -> dedup_step st r = Raise e -> e = TypeError.
Proof.
  intros (d & ->). destruct st as [unique seen]. unfold dedup_step.
  cbn [as_dict bind].
  destruct (truthy (dict_get (u "id") d)); [|discriminate].
  destruct (dict_get (u "id") d); cbn [py_hash bind];
    try (destruct (set_mem _ seen); discriminate); now intros [= <-].
Qed.

Lemma dedup_loop_raises items : forall st e,
  dedup_loop st items = Raise e ->
  existsb (fun r => negb (record_ok r)) items = true /\
  (Forall (fun r => exists d, r = VDict d) items -> e = TypeError).
Proof.
  induction items as [|r rest IH]; cbn [dedup_loop existsb]; intros st e;
    [discriminate|].
  destruct (dedup_step st r) as [st'|e'] eqn:D; cbn [bind].
  - intros H. apply IH in H as [X T]. split.
    + rewrite X. apply orb_true_r.
    + intros F. inversion F; subst. auto.
  - intros [= ->]. split.
    + now rewrite (dedup_step_raises _ _ _ D).
    + intros F. inversion F as [|? ? Hd _]; subst.
      eapply dedup_step_type_error; eauto.
Qed.

Lemma remove_duplicates_outcome d chats composers :
  dict_lookup (u "chats") d = Some (VList chats) ->
  dict_lookup (u "composers") d = Some (VList composers) ->
  forallb record_ok composers = true ->
  match remove_duplicates (VDict d) with
  | Ret _ => forallb record_ok chats = true
  | Raise e =>
      existsb (fun r => negb (record_ok r)) chats = true /\
      (Forall (fun r => exists c, r = VDict c) chats -> e = TypeError)
  end.
Proof.
  intros Hc Hp Pok. unfold remove_duplicates. cbn [as_dict bind].
  unfold unique_records at 1.
  rewrite (dict_get_default_some _ (VList []) _ _ Hc). cbn [py_iter bind].
  destruct (dedup_loop ([], []) chats) as [st|e] eqn:L; cbn [bind].
  - unfold unique_records.
    assert (Hp' : dict_lookup (u "composers")
                    (dict_set (u "chats") (VList (fst st)) d) =
                  Some (VList composers)).
    { rewrite dict_lookup_set_other; [exact Hp|].
      intros X. symmetry in X. exact (chats_neq_composers X). }
    rewrite (dict_get_default_some _ (VList []) _ _ Hp'). cbn [py_iter bind].
    destruct (dedup_loop_ok composers ([], []) Pok) as [st' L']. rewrite L'.
    cbn [bind]. now apply dedup_loop_seen in L.
  - now apply dedup_loop_raises in L.
Qed.

(** X17: [main] passes what [get_chat_data] returned to
    [remove_duplicates].  On the dict of an extraction it drops no
    composer for want of an id, it returns whenever no chat has a
    non-empty list as id, and when it raises it raises a [TypeError]
    and the id of some chat, taken from the tab, is a non-empty list.
    On the row that a rebound [result] holds it raises an
    [AttributeError]. *)
Theorem remove_duplicates_after_extraction (E : env) (safe_mode : bool)
  (loads : pystr -> outcome value) (fetch : list value -> lookup)
  (workspace_id workspace_path : pystr) (chat_row composer_row : option pystr) :
  (forall result,
      get_chat_data E safe_mode loads fetch workspace_id workspace_path
        chat_row composer_row = Extracted result ->
      all_identified (records (u "composers") result) /\
      (existsb list_id (records (u "chats") result) = false ->
       exists out,
         deduplicated
           (get_chat_data E safe_mode loads fetch workspace_id workspace_path
              chat_row composer_row) = Ret out) /\
      (forall e,
         deduplicated
           (get_chat_data E safe_mode loads fetch workspace_id workspace_path
              chat_row composer_row) = Raise e ->
         e = TypeError /\ existsb list_id (records (u "chats") result) = true)) /\
  (forall row,
      get_chat_data E safe_mode loads fetch workspace_id workspace_path
        chat_row composer_row = Replaced row ->
      deduplicated
        (get_chat_data E safe_mode loads fetch workspace_id workspace_path
           chat_row composer_row) = Raise AttributeError).
Proof.
  rewrite get_chat_data_returned.
  pose proof (composers_read_shape E safe_mode loads fetch composer_row) as Hp.
  set (chats := match parsed_row loads chat_row with
                | Some chat_data => extract_chats E chat_data
                | None => []
                end).
  assert (Hc : Forall is_chat chats).
  { subst chats. destruct (parsed_row loads chat_row);
      [apply extract_chats_shape | constructor]. }
  assert (Hi : Forall (fun chat => record_ok chat = negb (list_id chat)) chats).
  { subst chats. destruct (parsed_row loads chat_row);
      [apply extract_chats_ids | constructor]. }
  destruct (composers_read E safe_mode loads fetch composer_row)
    as [composers [|rebound]]; cbn [fst snd returned_result] in *.
  2:{ split; [discriminate|]. intros row _. reflexivity. }
  split; [|discriminate].
  intros result [= <-]. cbn [deduplicated].
  change (records (u "chats") (result_of _ _ chats composers)) with chats.
  change (records (u "composers") (result_of _ _ chats composers)) with composers.
  assert (Pok : forallb record_ok composers = true).
  { apply forallb_forall. intros r I.
    eapply Forall_forall in Hp; [|exact I].
    now apply is_composer_identified in Hp. }
  assert (Cex : existsb (fun r => negb (record_ok r)) chats = existsb list_id chats).
  { clear - Hi. induction Hi as [|c l H _ IH]; [reflexivity|].
    cbn [existsb]. rewrite H, IH. now destruct (list_id c). }
  assert (Cd : Forall (fun r => exists d, r = VDict d) chats).
  { eapply Forall_impl; [|exact Hc].
    intros c (i & t & ts & cr & ms & -> & _). eauto. }
  pose proof (remove_duplicates_outcome
                [(u "workspace_id", VStr workspace_id);
                 (u "workspace_path", VStr workspace_path);
                 (u "chats", VList chats); (u "composers", VList composers)]
                chats composers eq_refl eq_refl Pok) as R.
  unfold result_of.
  split; [|split].
  - apply Forall_forall. intros r I.
    eapply Forall_forall in Hp; [|exact I].
    now apply is_composer_identified in Hp.
  - intros X.
    destruct (remove_duplicates _) as [out|e]; [eauto|].
    destruct R as [R _]. rewrite Cex, X in R. discriminate R.
  - intros e H. rewrite H in R. destruct R as [R T].
    split; [auto | now rewrite <- Cex].
Qed.

Lemma remove_duplicates_after_extraction_witness :
  (exists out,
     deduplicated
       (get_chat_data sample_env false strict_loads no_details (u "ws") (u "/p")
          (Some one_tab_doc) None) = Ret out) /\
  deduplicated
    (get_chat_data sample_env false strict_loads no_details (u "ws") (u "/p")
       (Some list_id_doc) None) = Raise TypeError /\
  deduplicated
    (get_chat_data sample_env false strict_loads fallback_lookup (u "ws") (u "/p")
       (Some one_tab_doc) (Some bare_composer_row)) = Raise AttributeError.
Proof.
  split; [|split].
  - destruct (proj1 (remove_duplicates_after_extraction sample_env false
                       strict_loads no_details (u "ws") (u "/p")
                       (Some one_tab_doc) None) _ eq_refl) as (_ & H & _).
    apply H. vm_compute. reflexivity.
  - destruct (proj1 (remove_duplicates_after_extraction sample_env false
                       strict_loads no_details (u "ws") (u "/p")
                       (Some list_id_doc) None) _ eq_refl) as (_ & _ & H).
    destruct (deduplicated _) as [out|e] eqn:D.
    + vm_compute in D. discriminate D.
    + now destruct (H e eq_refl) as [-> _].
  - apply (proj2 (remove_duplicates_after_extraction sample_env false
                    strict_loads fallback_lookup (u "ws") (u "/p")
                    (Some one_tab_doc) (Some bare_composer_row)) None).
    vm_compute. reflexivity.
Defined.

End ExtractorMoreFacts.

(** ** The retries *)

Section RetryFacts.

Import Platform FileUtils Extractor Dedup DedupSpec DedupMore Retry Samples.

Lemma retry_loop_slept E safe loads fetch world remaining :
  forall attempt delay chats slept,
  exists n, n <= remaining /\
    snd (retry_loop E safe loads fetch world remaining (S attempt) delay chats slept) =
    slept ++ backoff n delay.
Proof.
  induction remaining as [|r IH]; intros attempt delay chats slept; cbn [retry_loop].
  - exists 0. split; [lia|]. cbn [snd backoff]. now rewrite app_nil_r.
  - cbn [Nat.eqb].
    destruct (attempt_body _ _ _ _ _ _ _) as [chats'|chats' composers|fetched].
    + destruct (IH (S attempt) (next_delay delay) chats' (slept ++ [delay]))
        as (n & Hn & H).
      exists (S n). split; [lia|]. rewrite H. cbn [backoff].
      now rewrite <- app_assoc.
    + exists 1. split; [lia|]. reflexivity.
    + exists 1. split; [lia|]. reflexivity.
Qed.

Lemma retry_loop_slept_first E safe loads fetch world remaining delay chats :
  exists n, n <= Nat.pred remaining /\
    snd (retry_loop E safe loads fetch world remaining 0 delay chats []) =
    backoff n delay.
Proof.
  destruct remaining as [|r]; cbn [retry_loop Nat.eqb Nat.pred].
  - exists 0. split; [lia | reflexivity].
  - destruct (attempt_body _ _ _ _ _ _ _) as [chats'|chats' composers|fetched].
    + destruct (retry_loop_slept E safe loads fetch world r 0 delay chats' [])
        as (n & Hn & H).
      exists n. split; [exact Hn | exact H].
    + exists 0. split; [lia | reflexivity].
    + exists 0. split; [lia | reflexivity].
Qed.

Lemma get_chat_data_slept E safe loads fetch world wid wjson :
  snd (get_chat_data E safe loads fetch world wid wjson) =
  snd (retry_loop E safe loads fetch world (max_retries safe) 0 first_delay [] []).
Proof.
  unfold get_chat_data.
  destruct (retry_loop _ _ _ _ _ _ _ _ _ _) as [result slept].
  reflexivity.
Qed.

(** X18: the extraction waits before the second and every later
    attempt, half a second first and half as much again each time, and
    makes at most five attempts in the conservative mode and three
    otherwise: in all it sleeps at most 65/16 seconds, resp. 5/4
    seconds. *)
Theorem retry_backoff_bounded (E : env) (safe_mode : bool)
  (loads : pystr -> outcome value) (fetch : list value -> lookup)
  (world : nat -> attempt) (workspace_id : pystr)
  (workspace_json : option (outcome pystr)) :
  exists n,
    n < max_retries safe_mode /\
    snd (get_chat_data E safe_mode loads fetch world workspace_id workspace_json) =
      backoff n first_delay /\
    QArith_base.Qle (total (snd (get_chat_data E safe_mode loads fetch world workspace_id
                       workspace_json)))
        (if safe_mode then QArith_base.Qmake 65 16 else QArith_base.Qmake 5 4).
Proof.
  rewrite get_chat_data_slept.
  destruct (retry_loop_slept_first E safe_mode loads fetch world
              (max_retries safe_mode) first_delay []) as (n & Hn & H).
  exists n. rewrite H. split; [|split; [reflexivity|]].
  - destruct safe_mode; cbn [max_retries Nat.pred] in *; lia.
  - destruct safe_mode; cbn [max_retries Nat.pred] in Hn.
    + do 5 (destruct n as [|n]; [vm_compute; discriminate|]). lia.
    + do 3 (destruct n as [|n]; [vm_compute; discriminate|]). lia.
Qed.

Lemma retry_loop_unavailable E safe loads fetch world remaining :
  forall attempt delay chats slept,
  (forall i, attempt <= i < attempt + remaining ->
     DbUtils.safe_db_connection (file (world i)) = Ret None) ->
  retry_loop E safe loads fetch world remaining attempt delay chats slept =
  (Built chats [],
   slept ++ match attempt with
            | O => backoff (Nat.pred remaining) delay
            | S _ => backoff remaining delay
            end).
Proof.
  induction remaining as [|r IH]; intros attempt delay chats slept H;
    cbn [retry_loop].
  - destruct attempt; cbn [Nat.pred backoff]; now rewrite app_nil_r.
  - unfold attempt_body. rewrite (H attempt) by lia.
    rewrite IH by (intros i Hi; apply H; lia).
    destruct attempt as [|a]; cbn [Nat.eqb Nat.pred backoff].
    + reflexivity.
    + now rewrite <- app_assoc.
Qed.

(** X19: when the accessor reports the database unavailable at every
    attempt, the extraction gives up after the last one: it returns
    the result without chats and composers, having slept before each
    attempt but the first. *)
Theorem unavailable_database_empty_result (E : env) (safe_mode : bool)
  (loads : pystr -> outcome value) (fetch : list value -> lookup)
  (world : nat -> attempt) (workspace_id : pystr)
  (workspace_json : option (outcome pystr)) :
  (forall i, i < max_retries safe_mode ->
     DbUtils.safe_db_connection (file (world i)) = Ret None) ->
  get_chat_data E safe_mode loads fetch world workspace_id workspace_json =
    (Extracted
       (empty_result workspace_id
          (Locator.get_workspace_path loads (windows E) workspace_json)),
     backoff (max_retries safe_mode - 1) first_delay).
Proof.
  intros H. unfold get_chat_data.
  rewrite retry_loop_unavailable by (intros i Hi; apply H; lia).
  cbn [app]. now rewrite Nat.sub_1_r.
Qed.

Lemma unavailable_database_empty_result_witness :
  get_chat_data sample_env true strict_loads no_details locked_world
    (u "ws") None =
  (Extracted (empty_result (u "ws") (u "Unknown")),
   [QArith_base.Qmake 1 2; QArith_base.Qmake 3 4; QArith_base.Qmake 9 8;
    QArith_base.Qmake 27 16]).
Proof.
  exact (unavailable_database_empty_result sample_env true strict_loads no_details
           locked_world (u "ws") None (fun i _ => eq_refl)).
Defined.

Lemma keep_first_app items : forall seen,
  exists seen',
    (forall k, In k seen -> In k seen') /\
    (forall x k, In x items -> item_key x = Some k -> In k seen') /\
    forall more,
      keep_first seen (items ++ more) = keep_first seen items ++ keep_first seen' more.
Proof.
  induction items as [|x rest IH]; intros seen; cbn [keep_first app].
  - exists seen. repeat split; auto. intros x k [].
  - destruct (item_key x) as [k|] eqn:K.
    + destruct (set_mem k seen) eqn:M.
      * destruct (IH seen) as (seen' & H1 & H2 & H3).
        exists seen'. repeat split; auto.
        intros y k' [<- | I] Hy; [|eauto].
        rewrite K in Hy. injection Hy as <-. apply H1. now apply set_mem_In.
      * destruct (IH (k :: seen)) as (seen' & H1 & H2 & H3).
        exists seen'. repeat split.
        -- intros k' I. apply H1. now right.
        -- intros y k' [<- | I] Hy; [|eauto].
           rewrite K in Hy. injection Hy as <-. apply H1. now left.
        -- intros more. cbn [app]. now rewrite H3.
    + destruct (IH seen) as (seen' & H1 & H2 & H3).
      exists seen'. repeat split; auto.
      intros y k' [<- | I] Hy; [congruence | eauto].
Qed.

Lemma keep_first_covered items : forall seen,
  (forall x k, In x items -> item_key x = Some k -> In k seen) ->
  keep_first seen items = [].
Proof.
  induction items as [|x rest IH]; intros seen H; cbn [keep_first]; [reflexivity|].
  destruct (item_key x) as [k|] eqn:K.
  - assert (M : set_mem k seen = true) by (apply set_mem_In; apply (H x); [now left | exact K]).
    rewrite M. apply IH. intros y k' I. apply H. now right.
  - apply IH. intros y k' I. apply H. now right.
Qed.

Lemma keep_first_repeated items more :
  (forall x, In x more -> In x items) ->
  keep_first [] (items ++ more) = keep_first [] items.
Proof.
  intros H. destruct (keep_first_app items []) as (seen' & _ & H2 & H3).
  rewrite H3, (keep_first_covered more seen'); [apply app_nil_r|].
  intros x k I. apply H2. now apply H.
Qed.

Lemma In_concat_repeat {A} (x : A) l k : In x (List.concat (repeat l k)) -> In x l.
Proof.
  induction k as [|k IH]; cbn [repeat List.concat]; [intros []|].
  intros I. apply in_app_or in I as [I | I]; auto.
Qed.

Lemma concat_repeat_snoc {A} (l : list A) k :
  List.concat (repeat l k) ++ l = List.concat (repeat l (S k)).
Proof.
  induction k as [|k IH]; cbn [repeat List.concat] in *.
  - now rewrite app_nil_r.
  - now rewrite <- app_assoc, IH.
Qed.

(** What an attempt leaves in the chats of the result. *)
Lemma attempt_body_chats E safe loads fetch retry a chats :
  match attempt_body E safe loads fetch retry a chats with
  | Continue chats' => chats' = chats ++ chats_read E loads a
  | Return chats' _ => chats' = chats ++ chats_read E loads a
  | ReturnRow _ => True
  end.
Proof.
  unfold attempt_body, composer_part, chats_read, reads_chats.
  destruct (DbUtils.safe_db_connection (file a)) as [[conn|]|];
    try now rewrite app_nil_r.
  destruct (cursor_opens a); cbn [andb]; [|now rewrite app_nil_r].
  destruct (chat_query a) as [row| | |]; try destruct retry;
    try destruct (composer_query a) as [composer_row| | |];
    try destruct retry;
    try destruct (composers_of E safe loads fetch composer_row) as [composers [|r]];
    try reflexivity; try now rewrite app_nil_r.
Qed.

(** What an attempt that returns leaves in the composers of the
    result, or instead of the result. *)
Lemma attempt_body_composers E safe loads fetch retry a chats :
  match attempt_body E safe loads fetch retry a chats with
  | Continue _ => True
  | Return _ composers =>
      composers = [] \/
      exists row,
        composer_query a = Fetched row /\
        composers_of E safe loads fetch row = (composers, Kept)
  | ReturnRow fetched =>
      exists row,
        composer_query a = Fetched row /\
        snd (composers_of E safe loads fetch row) = Rebound fetched
  end.
Proof.
  assert (P : forall chats',
    match composer_part E safe loads fetch retry a chats' with
    | Continue _ => True
    | Return _ composers =>
        composers = [] \/
        exists row,
          composer_query a = Fetched row /\
          composers_of E safe loads fetch row = (composers, Kept)
    | ReturnRow fetched =>
        exists row,
          composer_query a = Fetched row /\
          snd (composers_of E safe loads fetch row) = Rebound fetched
    end).
  { intros chats'. unfold composer_part.
    destruct (composer_query a) as [row| | |];
      [|destruct retry; auto|auto|auto].
    destruct (composers_of E safe loads fetch row) as [composers [|r]] eqn:C.
    - right. exists row. auto.
    - exists row. rewrite C. auto. }
  unfold attempt_body.
  destruct (DbUtils.safe_db_connection (file a)) as [[conn|]|]; auto.
  destruct (cursor_opens a); auto.
  destruct (chat_query a) as [row| | |]; try destruct retry; auto; apply P.
Qed.

Lemma chats_until E loads (world : nat -> attempt) (n : nat) chats :
  chats = List.concat (map (fun i => chats_read E loads (world i)) (seq 0 n)) ->
  chats ++ chats_read E loads (world n) =
  List.concat (map (fun i => chats_read E loads (world i)) (seq 0 (S n))).
Proof.
  intros ->. rewrite seq_S, map_app, concat_app. cbn [Nat.add map List.concat].
  now rewrite app_nil_r.
Qed.

(** The loop from an attempt on, the delays of the earlier attempts
    having been slept. *)
Lemma retry_loop_result E safe loads fetch (world : nat -> attempt) remaining :
  forall attempt delay chats slept,
  List.length slept = Nat.pred attempt ->
  (attempt = 0 -> 0 < remaining) ->
  chats = List.concat (map (fun i => chats_read E loads (world i)) (seq 0 attempt)) ->
  match retry_loop E safe loads fetch world remaining attempt delay chats slept with
  | (Built chats' composers, slept') =>
      chats' = List.concat (map (fun i => chats_read E loads (world i))
                              (attempts_made slept')) /\
      (composers = [] \/
       exists row,
         composer_query (world (List.length slept')) = Fetched row /\
         composers_of E safe loads fetch row = (composers, Kept))
  | (Row fetched, slept') =>
      exists row,
        composer_query (world (List.length slept')) = Fetched row /\
        snd (composers_of E safe loads fetch row) = Rebound fetched
  end.
Proof.
  induction remaining as [|r IH]; intros attempt delay chats slept L P C;
    cbn [retry_loop].
  - destruct attempt as [|a]; [specialize (P eq_refl); lia|].
    unfold attempts_made. rewrite L. cbn [Nat.pred]. split; [exact C | now left].
  - assert (L' : List.length
                   (if (attempt =? 0)%nat then slept else slept ++ [delay]) = attempt).
    { destruct attempt as [|a]; cbn [Nat.eqb Nat.pred] in *; [exact L|].
      rewrite length_app. cbn [List.length]. lia. }
    pose proof (attempt_body_chats E safe loads fetch (negb (r =? 0)%nat)
                  (world attempt) chats) as B.
    pose proof (attempt_body_composers E safe loads fetch (negb (r =? 0)%nat)
                  (world attempt) chats) as K.
    destruct (attempt_body _ _ _ _ _ _ _) as [chats'|chats' composers|fetched].
    + apply IH; [rewrite L'; reflexivity | discriminate |].
      subst chats'. now apply chats_until.
    + unfold attempts_made. rewrite L'. split; [|exact K].
      subst chats'. now apply chats_until.
    + rewrite L'. exact K.
Qed.

Lemma get_chat_data_result E safe loads fetch world wid wjson :
  match get_chat_data E safe loads fetch world wid wjson with
  | (Extracted result, slept) =>
      exists chats composers,
        result = result_of wid (Locator.get_workspace_path loads (windows E) wjson)
                   chats composers /\
        chats = List.concat (map (fun i => chats_read E loads (world i))
                               (attempts_made slept)) /\
        (composers = [] \/
         exists row,
           composer_query (world (List.length slept)) = Fetched row /\
           composers_of E safe loads fetch row = (composers, Kept))
  | (Replaced fetched, slept) =>
      exists row,
        composer_query (world (List.length slept)) = Fetched row /\
        snd (composers_of E safe loads fetch row) = Rebound fetched
  end.
Proof.
  unfold get_chat_data.
  pose proof (retry_loop_result E safe loads fetch world (max_retries safe)
                0 first_delay [] [] eq_refl
                ltac:(intros _; destruct safe; cbn [max_retries]; lia) eq_refl) as R.
  destruct (retry_loop _ _ _ _ _ _ _ _ _ _) as [[chats composers|fetched] slept].
  - destruct R as [C K]. exists chats, composers. auto.
  - exact R.
Qed.

Lemma chats_of_same_row E loads (world : nat -> attempt) chat_row attempts :
  (forall i row, In i attempts -> chat_query (world i) = Fetched row ->
     row = chat_row) ->
  List.concat (map (fun i => chats_read E loads (world i)) attempts) =
  List.concat
    (repeat (chats_of E loads chat_row)
       (List.length (filter (fun i => reads_chats (world i)) attempts))).
Proof.
  induction attempts as [|i rest IH]; intros H; [reflexivity|].
  cbn [map List.concat filter]. rewrite IH by (intros j row I; apply H; now right).
  unfold chats_read. destruct (reads_chats (world i)) eqn:R; [|reflexivity].
  cbn [List.length repeat List.concat].
  destruct (chat_query (world i)) as [row| | |] eqn:Q.
  - now rewrite (H i row (or_introl eq_refl) Q).
  - unfold reads_chats in R. rewrite Q in R.
    destruct (DbUtils.safe_db_connection _) as [[|]|]; try discriminate R.
    now rewrite andb_false_r in R.
  - unfold reads_chats in R. rewrite Q in R.
    destruct (DbUtils.safe_db_connection _) as [[|]|]; try discriminate R.
    now rewrite andb_false_r in R.
  - unfold reads_chats in R. rewrite Q in R.
    destruct (DbUtils.safe_db_connection _) as [[|]|]; try discriminate R.
    now rewrite andb_false_r in R.
Qed.

(** X20: the chats of the dict that the extraction returns are those
    that the attempts made have read, attempt after attempt: an
    attempt that read the row of chats and then had to be repeated has
    its chats appended again.  So when the row is the same at every
    attempt made, the chats are those of one reading, once for each
    attempt that read it, and [remove_duplicates] leaves the chats it
    leaves of one reading. *)
Theorem retried_chats_deduplicate (E : env) (safe_mode : bool)
  (loads : pystr -> outcome value) (fetch : list value -> lookup)
  (world : nat -> attempt) (workspace_id : pystr)
  (workspace_json : option (outcome pystr))
  (result : value) (slept : list seconds) :
  get_chat_data E safe_mode loads fetch world workspace_id workspace_json =
    (Extracted result, slept) ->
  records (u "chats") result =
    List.concat (map (fun i => chats_read E loads (world i)) (attempts_made slept)) /\
  forall chat_row,
    (forall i row, In i (attempts_made slept) ->
       chat_query (world i) = Fetched row -> row = chat_row) ->
    records (u "chats") result =
      List.concat
        (repeat (chats_of E loads chat_row)
           (List.length
              (filter (fun i => reads_chats (world i)) (attempts_made slept)))) /\
    forall out,
      remove_duplicates result = Ret out ->
      records (u "chats") out =
        match filter (fun i => reads_chats (world i)) (attempts_made slept) with
        | [] => []
        | _ :: _ => keep_first [] (chats_of E loads chat_row)
        end.
Proof.
  intros G.
  pose proof (get_chat_data_result E safe_mode loads fetch world workspace_id
                workspace_json) as R.
  rewrite G in R. destruct R as (chats & composers & -> & C & _).
  change (records (u "chats") (result_of _ _ chats composers)) with chats.
  split; [exact C|].
  intros chat_row H.
  pose proof (chats_of_same_row E loads world chat_row (attempts_made slept) H) as S.
  rewrite <- C in S. split; [exact S|].
  intros out D.
  rewrite (remove_duplicates_records _ _ (u "chats") D (or_introl eq_refl)).
  change (records (u "chats") (result_of _ _ chats composers)) with chats.
  rewrite S.
  destruct (filter _ _) as [|i readers]; [reflexivity|].
  cbn [List.length repeat List.concat]. apply keep_first_repeated.
  intros x. apply In_concat_repeat.
Qed.

Lemma retried_chats_deduplicate_witness :
  exists result,
    get_chat_data sample_env false strict_loads no_details locked_once_world
      (u "ws") None = (Extracted result, [first_delay]) /\
    records (u "chats") result =
      chats_of sample_env strict_loads (Some ExtractorMore.one_tab_doc) ++
      chats_of sample_env strict_loads (Some ExtractorMore.one_tab_doc) /\
    forall out,
      remove_duplicates result = Ret out ->
      records (u "chats") out =
        keep_first [] (chats_of sample_env strict_loads (Some ExtractorMore.one_tab_doc)).
Proof.
  destruct (get_chat_data sample_env false strict_loads no_details locked_once_world
              (u "ws") None) as [[result|fetched] slept] eqn:G;
    [|vm_compute in G; discriminate G].
  assert (S : slept = [first_delay])
    by (vm_compute in G; injection G as _ <-; reflexivity).
  subst slept. exists result. split; [reflexivity|].
  destruct (retried_chats_deduplicate sample_env false strict_loads no_details
              locked_once_world (u "ws") None result [first_delay] G) as (_ & H).
  destruct (H (Some ExtractorMore.one_tab_doc)) as (C & D).
  - intros i row _ Q. now injection Q as <-.
  - split.
    + rewrite C. vm_compute. reflexivity.
    + intros out O. rewrite (D out O). vm_compute. reflexivity.
Defined.

(** X21: the composers of the dict that the extraction returns are
    those of one reading of the row of composers, at the last attempt
    made, or there are none: the retries never append composers twice.
    When the extraction returns a row instead, it is the last attempt
    made that read the row of composers and rebound [result]. *)
Theorem composers_of_one_attempt (E : env) (safe_mode : bool)
  (loads : pystr -> outcome value) (fetch : list value -> lookup)
  (world : nat -> attempt) (workspace_id : pystr)
  (workspace_json : option (outcome pystr)) (slept : list seconds) :
  (forall result,
      get_chat_data E safe_mode loads fetch world workspace_id workspace_json =
        (Extracted result, slept) ->
      records (u "composers") result = [] \/
      exists row,
        composer_query (world (List.length slept)) = Fetched row /\
        composers_of E safe_mode loads fetch row =
          (records (u "composers") result, Kept)) /\
  (forall fetched,
      get_chat_data E safe_mode loads fetch world workspace_id workspace_json =
        (Replaced fetched, slept) ->
      exists row,
        composer_query (world (List.length slept)) = Fetched row /\
        snd (composers_of E safe_mode loads fetch row) = Rebound fetched).
Proof.
  pose proof (get_chat_data_result E safe_mode loads fetch world workspace_id
                workspace_json) as R.
  split.
  - intros result G. rewrite G in R.
    destruct R as (chats & composers & -> & _ & K). exact K.
  - intros fetched G. rewrite G in R. exact R.
Qed.

Lemma composers_of_one_attempt_witness :
  get_chat_data sample_env false strict_loads ExtractorMore.fallback_lookup
    bare_composer_world (u "ws") None = (Replaced None, []) /\
  exists row,
    composer_query (bare_composer_world 0) = Fetched row /\
    snd (composers_of sample_env false strict_loads ExtractorMore.fallback_lookup row) =
      Rebound None.
Proof.
  assert (G : get_chat_data sample_env false strict_loads
                ExtractorMore.fallback_lookup bare_composer_world (u "ws") None =
              (Replaced None, [])) by (vm_compute; reflexivity).
  split; [exact G|].
  exact (proj2 (composers_of_one_attempt sample_env false strict_loads
                  ExtractorMore.fallback_lookup bare_composer_world (u "ws") None [])
           None G).
Defined.

(** An attempt that connects and whose queries are answered gives
    what the normaliser gives on the two rows, without a retry. *)
Lemma first_attempt_answered E safe loads fetch (world : nat -> attempt) wid wjson
  conn chat_row composer_row :
  DbUtils.safe_db_connection (file (world 0)) = Ret (Some conn) ->
  cursor_opens (world 0) = true ->
  chat_query (world 0) = Fetched chat_row ->
  composer_query (world 0) = Fetched composer_row ->
  get_chat_data E safe loads fetch world wid wjson =
  (Extractor.get_chat_data E safe loads fetch wid
     (Locator.get_workspace_path loads (windows E) wjson) chat_row composer_row,
   []).
Proof.
  intros C O Q1 Q2. unfold get_chat_data, Extractor.get_chat_data.
  destruct safe; cbn [max_retries retry_loop Nat.eqb]; unfold attempt_body, composer_part;
    rewrite C, O, Q1, Q2; unfold composers_of, chats_of;
    destruct (match parsed_row loads composer_row with
              | Some composer_data => extract_composers E _ fetch composer_data
              | None => ([], Kept)
              end) as [composers [|fetched]]; reflexivity.
Qed.

End RetryFacts.

(** ** The accessor, further *)

Section DbMoreFacts.

Import DbUtils Samples Retry.



End DbMoreFacts.

(** ** The run *)

Section MainFacts.

Import Platform FileUtils Extractor Dedup DedupSpec DedupMore ExtractorMore Retry
  Main Samples.

Lemma chats_of_shape E loads row : Forall is_chat (chats_of E loads row).
Proof.
  unfold chats_of. destruct (parsed_row loads row);
    [apply extract_chats_shape | constructor].
Qed.

Lemma composers_of_shape E safe loads fetch row :
  Forall (is_composer safe) (fst (composers_of E safe loads fetch row)).
Proof.
  unfold composers_of. destruct (parsed_row loads row);
    [apply extract_composers_shape | constructor].
Qed.

Lemma chats_read_shape E loads a : Forall is_chat (chats_read E loads a).
Proof.
  unfold chats_read. destruct (reads_chats a); [|constructor].
  destruct (chat_query a); try constructor. apply chats_of_shape.
Qed.

(** The shape of the dict that the extraction returns. *)
Lemma get_chat_data_shape E safe loads fetch world wid wjson result :
  fst (Retry.get_chat_data E safe loads fetch world wid wjson) = Extracted result ->
  exists path chats composers,
    result = result_of wid path chats composers /\
    Forall is_chat chats /\ Forall (is_composer safe) composers.
Proof.
  pose proof (get_chat_data_result E safe loads fetch world wid wjson) as R.
  destruct (Retry.get_chat_data E safe loads fetch world wid wjson)
    as [[result'|fetched] slept]; cbn [fst]; [|discriminate].
  intros [= <-]. destruct R as (chats & composers & -> & C & K).
  eexists _, chats, composers. split; [reflexivity|]. split.
  - subst chats. apply Forall_concat. apply Forall_forall.
    intros l I. apply in_map_iff in I as (i & <- & _). apply chats_read_shape.
  - destruct K as [-> | (row & _ & K)]; [constructor|].
    pose proof (composers_of_shape E safe loads fetch row) as S.
    now rewrite K in S.
Qed.

(** The result of an extraction that the deduplication returns. *)
Lemma extraction_shape E safe loads fetch w out :
  extraction E safe loads fetch w = Ret out ->
  exists path chats composers,
    out = result_of (workspace_id w) path chats composers /\
    Forall is_chat chats /\ Forall (is_composer safe) composers /\
    NoDup (map record_key chats) /\ NoDup (map record_key composers).
Proof.
  unfold extraction.
  pose proof (get_chat_data_shape E safe loads fetch (attempts w) (workspace_id w)
                (workspace_json w)) as S.
  destruct (fst (Retry.get_chat_data _ _ _ _ _ _ _)) as [result|fetched];
    cbn [deduplicated]; [|discriminate].
  destruct (S result eq_refl) as (path & chats & composers & -> & Hc & Hp).
  intros H. apply remove_duplicates_spec in H as (d & [= <-] & ->).
  change (records (u "chats") (VDict [_; _; (_, VList chats); _])) with chats.
  change (records (u "composers") (VDict [_; _; _; (_, VList composers)]))
    with composers.
  eexists _, (keep_first [] chats), (keep_first [] composers).
  split; [reflexivity|].
  repeat split; try apply keep_first_keys_NoDup.
  - apply Forall_forall. intros c I. apply keep_first_In in I as [I _].
    eapply Forall_forall in Hc; eauto.
  - apply Forall_forall. intros c I. apply keep_first_In in I as [I _].
    eapply Forall_forall in Hp; eauto.
Qed.

Lemma shows_chat_spec chat :
  is_chat chat ->
  shows_chat chat = if title_prints chat then Some tt else None.
Proof.
  intros (id & title & ts & created & messages & -> & _).
  unfold shows_chat, title_prints, prints. cbn [getitem record_field].
  change (dict_lookup (u "title") _) with (Some title).
  change (dict_lookup (u "messages") _) with (Some (VList messages)).
  change (dict_get (u "title") _) with title.
  reflexivity.
Qed.

Lemma shows_chats chats :
  Forall is_chat chats ->
  shows_each shows_chat chats = if forallb title_prints chats then Some tt else None.
Proof.
  induction 1 as [|chat rest H _ IH]; cbn [shows_each forallb]; [reflexivity|].
  rewrite (shows_chat_spec _ H), IH.
  now destruct (title_prints chat).
Qed.

Lemma printable_app s t : printable (s ++ t) = printable s && printable t.
Proof. apply forallb_app. Qed.

Lemma preview_text text :
  match preview text with
  | Some shown => value_prints shown
  | None => false
  end =
  match text with
  | VStr s => printable (firstn 50 s)
  | VList l => (List.length l <=? 50)%nat
  | VDict d => (List.length d <=? 50)%nat
  | _ => false
  end.
Proof.
  unfold preview. destruct text as [| | |s|l|d]; cbn [py_len and_then]; try reflexivity.
  - destruct (50 <? List.length s)%nat eqn:L; cbn [value_prints].
    + rewrite printable_app. cbn. now rewrite andb_true_r.
    + apply Nat.ltb_ge in L. now rewrite firstn_all2.
  - rewrite Nat.leb_antisym. now destruct (50 <? List.length l)%nat.
  - rewrite Nat.leb_antisym. now destruct (50 <? List.length d)%nat.
Qed.

Lemma shows_composer_spec safe composer :
  is_composer safe composer ->
  shows_composer safe composer =
    if title_prints composer && (safe || previewable composer) then Some tt else None.
Proof.
  intros (id & title & text & created & updated & conversation & -> & _ & _ & _ & M & S).
  unfold shows_composer, get_list, previewable, title_prints, prints.
  cbn [as_dict returned and_then getitem record_field].
  change (dict_get_default (u "conversation") (VList []) _) with (VList conversation).
  change (dict_lookup (u "title") _) with (Some title).
  change (dict_get (u "title") _) with title.
  change (dict_lookup (u "conversation") _) with (Some (VList conversation)).
  change (list_field (u "conversation") _) with conversation.
  cbn [py_len and_then].
  destruct (value_prints title); cbn [and_then andb]; [|reflexivity].
  destruct conversation as [|first_msg rest]; cbn [List.length Nat.ltb Nat.leb andb].
  - now rewrite orb_true_r.
  - destruct safe; [now specialize (S eq_refl)|]. cbn [negb orb first_item and_then].
    inversion M as [|? ? (type & txt & ts & ->) _]; subst.
    cbn [getitem message_text message_role].
    change (dict_lookup (u "text") _) with (Some txt).
    change (dict_lookup (u "type") _) with (Some type).
    change (dict_get (u "text") _) with txt.
    change (dict_get (u "type") _) with type.
    cbn [and_then]. rewrite <- (preview_text txt).
    destruct (preview txt) as [shown|]; cbn [and_then]; [|reflexivity].
    destruct (value_prints type), (value_prints shown); reflexivity.
Qed.

Lemma shows_composers safe composers :
  Forall (is_composer safe) composers ->
  shows_each (shows_composer safe) composers =
    if forallb title_prints composers && (safe || forallb previewable composers)
    then Some tt else None.
Proof.
  induction 1 as [|composer rest H _ IH]; cbn [shows_each forallb].
  - now rewrite orb_true_r.
  - rewrite (shows_composer_spec _ _ H), IH.
    destruct (title_prints composer); [|reflexivity].
    destruct safe; cbn [orb andb and_then].
    + now destruct (forallb title_prints rest).
    + destruct (previewable composer); cbn [and_then andb]; [reflexivity|].
      now rewrite andb_false_r.
Qed.

Lemma shows_all_list shows items :
  shows_all shows (VList items) = shows_each shows items.
Proof.
  unfold shows_all. destruct items; reflexivity.
Qed.

Lemma displayed_shaped safe id path chats composers :
  Forall is_chat chats -> Forall (is_composer safe) composers ->
  displayed safe (result_of id path chats composers) =
    match chats, composers with
    | [], [] => Some false
    | _, _ =>
        if forallb title_prints chats && forallb title_prints composers
           && (safe || forallb previewable composers)
        then Some true else None
    end.
Proof.
  intros Hc Hp. unfold displayed, result_of. cbn [getitem].
  change (dict_lookup (u "chats") _) with (Some (VList chats)).
  change (dict_lookup (u "composers") _) with (Some (VList composers)).
  cbn [and_then py_len]. rewrite !shows_all_list.
  rewrite (shows_chats _ Hc), (shows_composers _ _ Hp).
  destruct chats as [|chat chats]; cbn [List.length Nat.eqb and_then].
  - destruct composers as [|composer composers];
      cbn [List.length Nat.eqb and_then forallb andb]; [reflexivity|].
    now destruct (title_prints composer && forallb title_prints composers
                  && (safe || (previewable composer && forallb previewable composers))).
  - destruct (forallb title_prints (chat :: chats)); cbn [and_then andb];
      [|reflexivity].
    now destruct (forallb title_prints composers
                  && (safe || forallb previewable composers)).
Qed.

(** X23: a result of the extraction and deduplication without chats
    and composers counts as without data.  Every other one is
    displayed when the title of every chat and of every composer can
    be printed and, outside the conservative mode, for every composer
    with a conversation the first message can be shown: its text is a
    string whose first fifty characters can be printed, or a list or
    dict of at most fifty entries, and its type can be printed.
    Otherwise the display raises, and the workspace is skipped. *)
Theorem displayed_extraction (E : env) (safe_mode : bool)
  (loads : pystr -> outcome value) (fetch : list value -> lookup)
  (w : workspace) (out : value) :
  extraction E safe_mode loads fetch w = Ret out ->
  displayed safe_mode out =
    match records (u "chats") out, records (u "composers") out with
    | [], [] => Some false
    | chats, composers =>
        if forallb title_prints chats && forallb title_prints composers
           && (safe_mode || forallb previewable composers)
        then Some true else None
    end.
Proof.
  intros H.
  apply extraction_shape in H
    as (path & chats & composers & -> & Hc & Hp & _ & _).
  change (records (u "chats") (result_of _ _ chats composers)) with chats.
  change (records (u "composers") (result_of _ _ chats composers)) with composers.
  rewrite (displayed_shaped _ _ _ _ _ Hc Hp).
  destruct chats, composers; reflexivity.
Qed.

Lemma displayed_extraction_witness :
  (exists out,
     extraction sample_env false strict_loads no_details
       (answering (u "ws1") None (Some numeric_text_doc)) = Ret out /\
     displayed false out = None) /\
  (exists out,
     extraction sample_env false strict_loads no_details
       (answering (u "ws1") (Some surrogate_title_doc) None) = Ret out /\
     displayed false out = None) /\
  (exists out,
     extraction sample_env false strict_loads no_details
       (answering (u "ws1") (Some one_tab_doc) (Some typed_composer_row)) = Ret out /\
     displayed false out = Some true).
Proof.
  assert (shown : forall w,
    (exists out, extraction sample_env false strict_loads no_details w = Ret out) ->
    exists out,
      extraction sample_env false strict_loads no_details w = Ret out /\
      displayed false out =
        match records (u "chats") out, records (u "composers") out with
        | [], [] => Some false
        | chats, composers =>
            if forallb title_prints chats && forallb title_prints composers
               && (false || forallb previewable composers)
            then Some true else None
        end).
  { intros w (out & H). exists out. split; [exact H|].
    exact (displayed_extraction _ _ _ _ _ _ H). }
  repeat apply conj.
  - destruct (shown (answering (u "ws1") None (Some numeric_text_doc)))
      as (out & H & D); [eexists; vm_compute; reflexivity|].
    exists out. split; [exact H|]. rewrite D.
    vm_compute in H. injection H as <-. vm_compute. reflexivity.
  - destruct (shown (answering (u "ws1") (Some surrogate_title_doc) None))
      as (out & H & D); [eexists; vm_compute; reflexivity|].
    exists out. split; [exact H|]. rewrite D.
    vm_compute in H. injection H as <-. vm_compute. reflexivity.
  - destruct (shown (answering (u "ws1") (Some one_tab_doc) (Some typed_composer_row)))
      as (out & H & D); [eexists; vm_compute; reflexivity|].
    exists out. split; [exact H|]. rewrite D.
    vm_compute in H. injection H as <-. vm_compute. reflexivity.
Defined.

Lemma examined_cases E safe loads fetch st w :
  examined E safe loads fetch st w = skip st w \/
  exists out,
    extraction E safe loads fetch w = Ret out /\
    displayed safe out = Some true /\
    examined E safe loads fetch st w = (fst st ++ [out], snd st).
Proof.
  unfold examined.
  destruct (negb (readable w)); [now left|].
  destruct (size w) as [n|]; [|now left].
  destruct (n =? 0)%N; [now left|].
  destruct (extraction E safe loads fetch w) as [out|]; cbn [returned and_then];
    [|now left].
  destruct (displayed safe out) as [[|]|] eqn:D; cbn [and_then]; try (now left).
  right. exists out. auto.
Qed.

(** The body of the loop ends the run exactly when the id of the
    workspace cannot be printed. *)
Lemma visit_cases E safe loads fetch running markers st w :
  (printable (workspace_id w) = false /\
   visit E safe loads fetch running markers st w = None) \/
  (printable (workspace_id w) = true /\
   (visit E safe loads fetch running markers st w = Some (skip st w) \/
    exists out,
      extraction E safe loads fetch w = Ret out /\
      displayed safe out = Some true /\
      visit E safe loads fetch running markers st w =
        Some (fst st ++ [out], snd st))).
Proof.
  unfold visit, prints. cbn [value_prints].
  destruct (printable (workspace_id w)); cbn [and_then].
  - right. split; [reflexivity|].
    destruct (possibly_active _ _ _); [now left|].
    destruct (examined_cases E safe loads fetch st w) as [-> | (out & X & D & ->)];
      [now left|].
    right. exists out. auto.
  - left. split; [reflexivity|]. now destruct (possibly_active _ _ _).
Qed.

Lemma visit_reported E safe loads fetch running markers st st' w :
  visit E safe loads fetch running markers st w = Some st' ->
  Permutation.Permutation
    (Some (VStr (workspace_id w)) ::
       map result_id (fst st) ++ map (fun id => Some (VStr id)) (snd st))
    (map result_id (fst st') ++ map (fun id => Some (VStr id)) (snd st')).
Proof.
  destruct (visit_cases E safe loads fetch running markers st w)
    as [(_ & ->) | (_ & [-> | (out & X & _ & ->)])];
    [discriminate | |]; intros [= <-]; cbn [skip fst snd].
  - rewrite map_app. cbn [map]. rewrite app_assoc.
    apply Permutation.Permutation_cons_append.
  - rewrite map_app. cbn [map].
    apply extraction_shape in X as (path & chats & composers & -> & _).
    change (result_id _) with (Some (VStr (workspace_id w))).
    rewrite <- app_assoc. cbn [app]. apply Permutation.Permutation_middle.
Qed.

Lemma visit_each_reported E safe loads fetch running markers workspaces :
  forall st,
  match visit_each E safe loads fetch running markers workspaces st with
  | Some st' =>
      forallb (fun w => printable (workspace_id w)) workspaces = true /\
      Permutation.Permutation
        (map (fun w => Some (VStr (workspace_id w))) workspaces ++
           map result_id (fst st) ++ map (fun id => Some (VStr id)) (snd st))
        (map result_id (fst st') ++ map (fun id => Some (VStr id)) (snd st'))
  | None => forallb (fun w => printable (workspace_id w)) workspaces = false
  end.
Proof.
  induction workspaces as [|w rest IH]; intros st;
    cbn [visit_each forallb map app].
  - split; [reflexivity | apply Permutation.Permutation_refl].
  - pose proof (visit_reported E safe loads fetch running markers st) as R.
    destruct (visit_cases E safe loads fetch running markers st w)
      as [(P & V) | (P & _)]; rewrite P; cbn [andb].
    + now rewrite V.
    + destruct (visit E safe loads fetch running markers st w) as [st1|] eqn:V;
        cbn [and_then].
      * specialize (IH st1). specialize (R st1 w V).
        destruct (visit_each _ _ _ _ _ _ rest st1) as [st'|]; [|exact IH].
        destruct IH as [F IH]. split; [exact F|].
        eapply Permutation.Permutation_trans; [|exact IH].
        eapply Permutation.Permutation_trans;
          [apply Permutation.Permutation_middle|].
        now apply Permutation.Permutation_app_head.
      * destruct (visit_cases E safe loads fetch running markers st w)
          as [(P' & _) | (_ & [V' | (out & _ & _ & V')])]; congruence.
Qed.

(** X24: the loop of [main] over the workspaces ends with an
    exception exactly when the id of some workspace cannot be
    printed.  Otherwise every workspace is reported exactly once:
    either its result is among the results to save, under its own
    workspace id, or its id is among the skipped workspaces. *)
Theorem every_workspace_reported (E : env) (safe_mode : bool)
  (loads : pystr -> outcome value) (fetch : list value -> lookup)
  (cursor_running : bool) (active_workspace_markers : list pystr)
  (workspaces : list workspace) :
  match visit_all E safe_mode loads fetch cursor_running active_workspace_markers
          workspaces with
  | Some (all_results, skipped_workspaces) =>
      forallb (fun w => printable (workspace_id w)) workspaces = true /\
      Permutation.Permutation
        (map (fun w => Some (VStr (workspace_id w))) workspaces)
        (map result_id all_results ++
         map (fun id => Some (VStr id)) skipped_workspaces)
  | None => forallb (fun w => printable (workspace_id w)) workspaces = false
  end.
Proof.
  unfold visit_all.
  pose proof (visit_each_reported E safe_mode loads fetch cursor_running
                active_workspace_markers workspaces ([], [])) as P.
  destruct (visit_each _ _ _ _ _ _ _ _) as [[all_results skipped]|]; [|exact P].
  cbn [fst snd map app] in P. now rewrite app_nil_r in P.
Qed.

Lemma every_workspace_reported_witness :
  visit_all sample_env false strict_loads no_details false []
    [answering (u "ws1") (Some one_tab_doc) None; locked_workspace (u "ws2")] <> None /\
  visit_all sample_env false strict_loads no_details false []
    [answering (u "ws1") (Some one_tab_doc) None;
     locked_workspace [119; 115; 56448]%N] = None.
Proof.
  split.
  - pose proof (every_workspace_reported sample_env false strict_loads no_details
                  false []
                  [answering (u "ws1") (Some one_tab_doc) None;
                   locked_workspace (u "ws2")]) as R.
    destruct (visit_all _ _ _ _ _ _ _); [discriminate|].
    vm_compute in R. discriminate R.
  - pose proof (every_workspace_reported sample_env false strict_loads no_details
                  false []
                  [answering (u "ws1") (Some one_tab_doc) None;
                   locked_workspace [119; 115; 56448]%N]) as R.
    destruct (visit_all _ _ _ _ _ _ _) as [[all_results skipped]|]; [|reflexivity].
    destruct R as [R _]. vm_compute in R. discriminate R.
Defined.

Lemma visit_each_results E safe loads fetch running markers workspaces :
  forall st st',
  visit_each E safe loads fetch running markers workspaces st = Some st' ->
  Forall (fun result => is_result safe result /\ has_distinct_data result) (fst st) ->
  Forall (fun result => is_result safe result /\ has_distinct_data result) (fst st').
Proof.
  induction workspaces as [|w rest IH]; intros st st'; cbn [visit_each].
  - now intros [= <-].
  - destruct (visit E safe loads fetch running markers st w) as [st1|] eqn:V;
      cbn [and_then]; [|discriminate].
    intros H F. apply (IH st1 st' H).
    destruct (visit_cases E safe loads fetch running markers st w)
      as [(_ & V') | (_ & [V' | (out & X & D & V')])];
      rewrite V' in V; [discriminate V | |]; injection V as <-; cbn [skip fst];
      [exact F|].
    apply Forall_app. split; [exact F|]. constructor; [|constructor].
    apply extraction_shape in X
      as (path & chats & composers & -> & Hc & Hp & Nc & Np).
    split.
    + exists (workspace_id w), path, chats, composers. auto.
    + unfold has_distinct_data.
      change (records (u "chats") (result_of _ _ chats composers)) with chats.
      change (records (u "composers") (result_of _ _ chats composers)) with composers.
      split; [|split; assumption].
      rewrite (displayed_shaped _ _ _ _ _ Hc Hp) in D.
      destruct chats; [|left; discriminate].
      destruct composers; [discriminate | right; discriminate].
Qed.

(** X25: every result that the loop of [main] keeps for saving has
    the shape the extraction gives it, has at least one chat or
    composer, and has no id twice among its chats or among its
    composers. *)
Theorem kept_results_have_distinct_data (E : env) (safe_mode : bool)
  (loads : pystr -> outcome value) (fetch : list value -> lookup)
  (cursor_running : bool) (active_workspace_markers : list pystr)
  (workspaces : list workspace) (all_results : list value)
  (skipped_workspaces : list pystr) :
  visit_all E safe_mode loads fetch cursor_running active_workspace_markers
    workspaces = Some (all_results, skipped_workspaces) ->
  Forall (fun result => is_result safe_mode result /\ has_distinct_data result)
    all_results.
Proof.
  unfold visit_all. intros H.
  apply (visit_each_results _ _ _ _ _ _ _ _ _ H). constructor.
Qed.

Lemma kept_results_have_distinct_data_witness :
  exists result,
    visit_all sample_env false strict_loads no_details false []
      [answering (u "ws1") (Some one_tab_doc) None; locked_workspace (u "ws2")] =
    Some ([result], [u "ws2"]) /\
    is_result false result /\ has_distinct_data result.
Proof.
  destruct (visit_all sample_env false strict_loads no_details false []
              [answering (u "ws1") (Some one_tab_doc) None;
               locked_workspace (u "ws2")]) as [[all_results skipped]|] eqn:V;
    [|vm_compute in V; discriminate V].
  pose proof (kept_results_have_distinct_data _ _ _ _ _ _ _ _ _ V) as F.
  assert (S : skipped = [u "ws2"])
    by (vm_compute in V; injection V as _ <-; reflexivity).
  assert (L : List.length all_results = 1)
    by (vm_compute in V; injection V as <- _; reflexivity).
  destruct all_results as [|result [|]]; try discriminate L.
  exists result. subst skipped. split; [reflexivity|].
  now inversion F.
Defined.

End MainFacts.
(** ** The readers of the tables *)

Section DbRowsFacts.

Import DbRows Samples.




(** A row whose data is broken JSON and a row whose data is an
    array. *)
Lemma two_chat_db_read :
  get_chat_data strict_loads two_chat_db =
    VDict [(u "chats",
            VList [VDict [(u "id", VInt 2); (u "data", VNone)];
                   VDict [(u "id", VInt 1); (u "data", VList [VInt 1; VInt 2])]]);
           (u "composers", VList [])].
Proof. vm_compute. reflexivity. Qed.

End DbRowsFacts.

